(** * agentcord: the runtime pipeline, embedded and verified

    A shallow embedding of the parts of the daemon that its specification
    makes testable claims about, and of the code around them:

    - [Discord]: the IPC frame codec (protocol.go) and the command path of
      the client (client.go);
    - [Session]: the state store, the presentation engine and the watcher's
      event channel (session.go, watcher.go);
    - [Daemon]: the multi-session resolver (cmd/agentcord/main.go);
    - [JSON]: [json.Unmarshal] into the one-field struct of [PeekVersion], as
      encoding/json decodes it;
    - [Tape]: a connection that keeps what is written to it, as the pipe of
      the client's tests does;
    - [Registry], [Watch], [Lifecycle], [Config], [Format], [Loop]: the
      migration registries, the watcher's file names, connecting and
      closing, the privacy settings, number formatting and the event loop's
      helpers (registry.go, watcher.go, conn_unix.go, conn_wsl.go, client.go,
      config.go, main.go).

    Go values are embedded as follows.  [[]byte] is a list of bytes; [string] is
    Rocq's [string] (a sequence of bytes, exactly as in Go, so [String.length]
    is Go's [len]); machine integers are [Z] with their wrap-around written
    out; [error] is the type [error] below, with the [%w] chain kept so that
    [errors.Is] can be asked of a result.  Package-level variables, the file
    system and the clock are passed explicitly. *)

From Stdlib Require Import ZArith Lia List String Ascii Bool Sorting.Sorted Permutation.
From Stdlib Require Import Numbers.DecimalString Numbers.DecimalN Floats.PrimFloat.
From stdpp Require Import base option list gmap strings stringmap sorting.
From coqutil Require Import Byte Word.LittleEndianList.

Import ListNotations.
Local Open Scope string_scope.
Local Open Scope list_scope.
Local Open Scope Z_scope.

(** [[]byte] *)
Abbreviation bytes := (list Init.Byte.byte).

(** ** Go errors *)

(** The sentinel values the code creates with [errors.New], and the two that
    [io.ReadFull] reports. *)
Inductive sentinel : Set :=
  | ErrPayloadTooLarge
  | ErrIPCNotAvailable
  | ErrNotConnected
  | io_EOF
  | io_ErrUnexpectedEOF
  | ErrHost (msg : string).

(** An error is a sentinel or a [fmt.Errorf] around a cause ([%w]); the
    numeric arguments of the format are kept. *)
Inductive error : Set :=
  | New (s : sentinel)
  | Errorf (format : string) (args : list Z) (cause : error).

Definition sentinel_eqb (a b : sentinel) : bool :=
  match a, b with
  | ErrPayloadTooLarge, ErrPayloadTooLarge => true
  | ErrIPCNotAvailable, ErrIPCNotAvailable => true
  | ErrNotConnected, ErrNotConnected => true
  | io_EOF, io_EOF => true
  | io_ErrUnexpectedEOF, io_ErrUnexpectedEOF => true
  | ErrHost m, ErrHost m' => String.eqb m m'
  | _, _ => false
  end.

(** [errors.Is err target] for a sentinel target: walk the [%w] chain. *)
Fixpoint errors_Is (err : error) (target : sentinel) : bool :=
  match err with
  | New s => sentinel_eqb s target
  | Errorf _ _ cause => errors_Is cause target
  end.

(** Go's [(T, error)] results. *)
Definition result (A : Type) : Type := error + A.
Definition Ok {A} (a : A) : result A := inr a.
Definition Err {A} (e : error) : result A := inl e.

(** Fixed-width integers: conversion to [uint32], [uint64] and [int64]. *)
Definition uint32 (z : Z) : Z := z mod 2 ^ 32.
Definition uint64 (z : Z) : Z := z mod 2 ^ 64.
Definition int64 (z : Z) : Z := (z + 2 ^ 63) mod 2 ^ 64 - 2 ^ 63.

(** [len] of a slice and of a string, as Go's [int]. *)
Definition len {A} (l : list A) : Z := Z.of_nat (List.length l).
Definition slen (s : string) : Z := Z.of_nat (String.length s).

(** [strconv.FormatUint(n, 10)] and the [%d] verb of [fmt]. *)
Definition FormatUint (n : Z) : string :=
  NilEmpty.string_of_uint (N.to_uint (Z.to_N n)).
Definition Sprintf_d (z : Z) : string :=
  NilEmpty.string_of_int (Z.to_int z).

(** ** The standard library behind the code *)

(** [encoding/json] works by reflection on the Go type; the embedding has one
    encoder and one decoder per type that the code passes to it.
    [json_Unmarshal data v] is [json.Unmarshal(data, &v)]: it decodes on top
    of the value [v] already held. *)
Class Json (A : Type) : Type := {
  json_Marshal : A -> result bytes;
  json_Unmarshal : bytes -> A -> result A
}.

(** [net.Conn], as far as the client uses it. *)
Class NetConn (C : Type) : Type := {
  conn_Write : C -> bytes -> C * option error;
  conn_Close : C -> option error
}.

(** * Package discord *)

Module Discord.

(** ** protocol.go *)

Definition Opcode : Set := Z.

Definition OpHandshake : Opcode := 0.
Definition OpFrame : Opcode := 1.
Definition OpClose : Opcode := 2.

Definition frameHeaderSize : Z := 8.
Definition MaxPayloadSize : Z := Z.shiftl 1 20.
Definition maxIPCSlots : Z := 10.

(** [binary.LittleEndian.PutUint32(b, v)]: the four bytes stored into [b]. *)
Definition PutUint32 (v : Z) : bytes :=
  [ byte.of_Z v;
    byte.of_Z (Z.shiftr v 8);
    byte.of_Z (Z.shiftr v 16);
    byte.of_Z (Z.shiftr v 24) ].

(** [binary.LittleEndian.Uint32(b)]; Go panics when [b] is shorter than four
    bytes, which is [None] here. *)
Definition Uint32 (b : bytes) : option Z :=
  match b with
  | b0 :: b1 :: b2 :: b3 :: _ =>
      Some (Z.lor (Z.lor (Z.lor (byte.unsigned b0)
                                (Z.shiftl (byte.unsigned b1) 8))
                         (Z.shiftl (byte.unsigned b2) 16))
                  (Z.shiftl (byte.unsigned b3) 24))
  | _ => None
  end.

(** [EncodeFrame]: [[4-byte LE opcode][4-byte LE length][payload]]. *)
Definition EncodeFrame (opcode : Opcode) (payload : bytes) : result bytes :=
  if len payload >? MaxPayloadSize then
    Err (Errorf "%w: %d bytes (max %d)" [len payload; MaxPayloadSize]
                (New ErrPayloadTooLarge))
  else
    Ok (PutUint32 (uint32 opcode) ++ PutUint32 (uint32 (len payload)) ++ payload).

(** An [io.Reader] is a script of the chunks its successive [Read] calls
    deliver; after the last chunk it reports [io.EOF].  A chunk longer than
    the buffer offered is delivered in pieces. *)
Definition reader : Type := list bytes.

(** [io.ReadFull(r, buf)] with [len(buf) = n]: loop over [Read] until [n]
    bytes have arrived.  Nothing is read when [n = 0]; [io.EOF] when the
    stream ends before the first byte, [io.ErrUnexpectedEOF] when it ends
    after some. The reader left behind is returned with the outcome. *)
Fixpoint ReadFull_from (got : bytes) (n : nat) (r : reader)
  : result bytes * reader :=
  match n with
  | O => (Ok got, r)
  | S _ =>
      match r with
      | [] =>
          (Err (New (match got with [] => io_EOF | _ => io_ErrUnexpectedEOF end)), [])
      | chunk :: rest =>
          if (List.length chunk <=? n)%nat
          then ReadFull_from (got ++ chunk) (n - List.length chunk) rest
          else (Ok (got ++ firstn n chunk), skipn n chunk :: rest)
      end
  end.

Definition ReadFull (r : reader) (n : nat) : result bytes * reader :=
  ReadFull_from [] n r.

(** What a decode has done to the outside: the reader it leaves behind and the
    sizes of the buffers it allocated with [make], in order. *)
Record decoding : Type := Decoding {
  rest : reader;
  made : list Z
}.

(** [DecodeFrame]: reads one frame from [r]. *)
Definition DecodeFrame (r : reader) : result (Opcode * bytes) * decoding :=
  match ReadFull r (Z.to_nat frameHeaderSize) with
  | (inl e, r1) =>
      (Err (Errorf "reading frame header: %w" [] e), Decoding r1 [frameHeaderSize])
  | (inr header, r1) =>
      match Uint32 (firstn 4 header), Uint32 (firstn 4 (skipn 4 header)) with
      | Some opcode, Some length =>
          if length >? MaxPayloadSize then
            (Err (Errorf "%w: %d bytes (max %d)" [length; MaxPayloadSize]
                         (New ErrPayloadTooLarge)),
             Decoding r1 [frameHeaderSize])
          else
            match ReadFull r1 (Z.to_nat length) with
            | (inl e, r2) =>
                (Err (Errorf "reading frame payload: %w" [] e),
                 Decoding r2 [frameHeaderSize; length])
            | (inr payload, r2) =>
                (Ok (opcode, payload), Decoding r2 [frameHeaderSize; length])
            end
      | _, _ =>
          (Err (New (ErrHost "index out of range")), Decoding r1 [frameHeaderSize])
      end
  end.

(** ** client.go *)

Record Button : Set := { Label : string; URL : string }.
Record Timestamps : Set := { Start : Z }.
Record Assets : Set := {
  LargeImage : string; LargeText : string;
  SmallImage : string; SmallText : string
}.
Record Activity : Set := {
  Details : string;
  State : string;
  Timestamps_ : option Timestamps;
  Assets_ : option Assets;
  Buttons : list Button
}.

(** The arguments of [SET_ACTIVITY], [{pid, activity}], and the command
    object [{cmd, args, nonce}] handed to [json.Marshal]. *)
Record Args : Set := { pid : Z; activity : option Activity }.
Record Command : Set := { cmd : string; args : Args; nonce_ : string }.

Section Client.
Context {Conn : Type} `{NetConn Conn} `{Json Command}.
(** [os.Getpid()] *)
Variable Getpid : Z.

(** [Client]; the mutex [mu] guards [conn] and [nonce] and has
    no counterpart in a sequential embedding. *)
Record Client : Type := {
  appID : string;
  conn : option Conn;
  nonce : Z
}.

Definition NewClient (appID : string) : Client :=
  {| appID := appID; conn := None; nonce := 0 |}.

Definition Connected (c : Client) : bool :=
  match conn c with Some _ => true | None => false end.

(** [sendCommand]: the client after the call and the error returned. *)
Definition sendCommand (c : Client) (cmd : string) (args : Args)
  : Client * option error :=
  match conn c with
  | None => (c, Some (New ErrNotConnected))
  | Some k =>
      let n := uint64 (nonce c + 1) in
      let c := {| appID := appID c; conn := Some k; nonce := n |} in
      match json_Marshal {| cmd := cmd; args := args; nonce_ := FormatUint n |} with
      | inl e => (c, Some (Errorf "marshaling command: %w" [] e))
      | inr payload =>
          match EncodeFrame OpFrame payload with
          | inl e => (c, Some (Errorf "encoding command: %w" [] e))
          | inr frame =>
              let '(k', werr) := conn_Write k frame in
              let c := {| appID := appID c; conn := Some k'; nonce := n |} in
              match werr with
              | Some e => (c, Some (Errorf "writing command: %w" [] e))
              | None => (c, None)
              end
          end
      end
  end.

Definition SetActivity (c : Client) (a : Activity) : Client * option error :=
  sendCommand c "SET_ACTIVITY" {| pid := Getpid; activity := Some a |}.

Definition ClearActivity (c : Client) : Client * option error :=
  sendCommand c "SET_ACTIVITY" {| pid := Getpid; activity := None |}.

(** What happens to a client between two looks at it: a command is sent, or
    [conn] is assigned ([Connect] sets it when it succeeds and clears it
    when it fails, [Close] clears it). *)
Inductive event : Type :=
  | Send (name : string) (a : Args)
  | SetConn (k : option Conn).

Definition step (c : Client) (ev : event) : Client :=
  match ev with
  | Send name a => fst (sendCommand c name a)
  | SetConn k => {| appID := appID c; conn := k; nonce := nonce c |}
  end.

End Client.

Arguments Client : clear implicits.
Arguments event : clear implicits.

End Discord.

(** * The world outside: files and the log *)

(** Files are a finite map from paths to contents.  Every system call the
    code checks the error of can fail: [faulty call path] says which ones do;
    that oracle does not change.  The records handed to [log/slog] are kept
    in the order they are written. *)
Module OS.

Inductive syscall : Set :=
  | SysReadFile | SysWriteFile | SysCreateTemp | SysWrite | SysSync
  | SysClose | SysChmod | SysRename | SysRemove.

Inductive level : Set := LevelDebug | LevelInfo | LevelWarn | LevelError.

(** A log record: level, message and the value of its first attribute. *)
Record record : Set := { lvl : level; msg : string; about : string }.

Record world : Type := {
  files : gmap string bytes;
  faulty : syscall -> string -> bool;
  logged : list record
}.

Definition with_files (fs : world) (m : gmap string bytes) : world :=
  {| files := m; faulty := faulty fs; logged := logged fs |}.

(** [slog.Warn] and [slog.Debug] *)
Definition slog (l : level) (fs : world) (message path : string) : world :=
  {| files := files fs; faulty := faulty fs;
     logged := logged fs ++ [{| lvl := l; msg := message; about := path |}] |}.
Definition slog_Warn : world -> string -> string -> world := slog LevelWarn.
Definition slog_Debug : world -> string -> string -> world := slog LevelDebug.

(** A world in which no system call fails. *)
Definition healthy (fs : world) : Prop := forall call path, faulty fs call path = false.

Definition failure (call : string) : error := New (ErrHost call).

(** [os.ReadFile] *)
Definition ReadFile (fs : world) (path : string) : result bytes :=
  if faulty fs SysReadFile path then Err (failure "open") else
  match files fs !! path with
  | Some data => Ok data
  | None => Err (failure "open: no such file or directory")
  end.

(** [os.WriteFile] *)
Definition WriteFile (fs : world) (path : string) (data : bytes) : world * option error :=
  if faulty fs SysWriteFile path then (fs, Some (failure "write"))
  else (with_files fs (<[path := data]> (files fs)), None).

(** [os.Remove], whose error the caller drops. *)
Definition Remove (fs : world) (path : string) : world :=
  if faulty fs SysRemove path then fs
  else with_files fs (delete path (files fs)).

(** [os.Rename] *)
Definition Rename (fs : world) (old new : string) : world * option error :=
  if faulty fs SysRename new then (fs, Some (failure "rename")) else
  match files fs !! old with
  | Some data => (with_files fs (<[new := data]> (delete old (files fs))), None)
  | None => (fs, Some (failure "rename: no such file or directory"))
  end.

End OS.

(** * Package atomicfile *)

Module Atomicfile.
Import OS.

(** [Write]: create a temporary file next to [path], write, sync, close,
    chmod, rename over [path]; the deferred [os.Remove] runs on every failure.
    [os.CreateTemp] picks a name that does not exist yet by appending a number
    to [base.tmp.] in the directory of [path]. *)
Definition Write (fs : world) (path : string) (data : bytes) : world * option error :=
  let tmpName := fresh_string (path +:+ ".tmp.") (files fs) in
  if faulty fs SysCreateTemp tmpName then
    (fs, Some (Errorf "create temp file: %w" [] (failure "createtemp")))
  else
    let fs := with_files fs (<[tmpName := []]> (files fs)) in
    if faulty fs SysWrite tmpName then
      (Remove fs tmpName, Some (Errorf "write temp file: %w" [] (failure "write")))
    else
      let fs := with_files fs (<[tmpName := data]> (files fs)) in
      if faulty fs SysSync tmpName then
        (Remove fs tmpName, Some (Errorf "sync temp file: %w" [] (failure "sync")))
      else if faulty fs SysClose tmpName then
        (Remove fs tmpName, Some (Errorf "close temp file: %w" [] (failure "close")))
      else if faulty fs SysChmod tmpName then
        (Remove fs tmpName, Some (Errorf "chmod temp file: %w" [] (failure "chmod")))
      else
        match Rename fs tmpName path with
        | (fs, Some e) => (Remove fs tmpName, Some (Errorf "rename temp file: %w" [] e))
        | (fs, None) => (fs, None)
        end.

End Atomicfile.

(** * Package migrate *)

Module Migrate.

Record Migration : Type := {
  Version : Z;
  Description : string;
  Upgrade : bytes -> result bytes
}.

(** [sort.Slice] by ascending [Version].  The sort of Go is not stable; the
    versions of a registry are distinct ([Register] panics on a duplicate),
    and then the order is the only one. *)
Fixpoint insert_by_version (m : Migration) (l : list Migration) : list Migration :=
  match l with
  | [] => [m]
  | x :: l' => if Version m <? Version x then m :: l else x :: insert_by_version m l'
  end.

Definition sort_by_version (l : list Migration) : list Migration :=
  fold_right insert_by_version [] l.

(** The loop of [Run] over the sorted migrations: data, version reached and
    error. *)
Fixpoint run_sorted (data : bytes) (version : Z) (sorted : list Migration)
  : bytes * Z * option error :=
  match sorted with
  | [] => (data, version, None)
  | m :: sorted =>
      if version <? Version m then
        match Upgrade m data with
        | inl e => ([], version, Some (Errorf "migration to v%d failed: %w" [Version m] e))
        | inr data => run_sorted data (Version m) sorted
        end
      else run_sorted data version sorted
  end.

Definition Run (data : bytes) (fromVersion : Z) (migrations : list Migration)
  : bytes * Z * option error :=
  run_sorted data fromVersion (sort_by_version migrations).

Definition NeedsMigration (fileVersion currentVersion : Z) (force : bool)
    (migrations : list Migration) : bool :=
  if negb (fileVersion =? currentVersion) then true
  else if force && (0 <? len migrations) then true
  else existsb (fun m => fileVersion <? Version m) migrations.

End Migrate.

(** * Package session *)

Module Session.
Import OS.

(** ** session.go: the state store *)

Definition CurrentVersion : Z := 1.
Definition DefaultClient : string := "unknown".

(** [StateMigrations]: the package declares the variable without a value, so
    the program runs with no migration registered; only tests assign to it.
    The functions below take the registry as an argument. *)
Definition StateMigrations : list Migrate.Migration := [].

Record State : Set := {
  Version : Z;
  SessionID : string;
  SessionStart : Z;
  LastActivity : Z;
  Project : string;
  Branch : string;
  CWD : string;
  GitRemoteURL : string;
  Client : string;
  Stopped : bool;
  ToolName : string;
  ToolTarget : string;
  ActiveFile : string;
  AgentState : string;
  PermissionMode : string;
  HookEvent : string
}.

(** [s.Version = v] *)
Definition set_Version (v : Z) (s : State) : State :=
  {| Version := v; SessionID := SessionID s; SessionStart := SessionStart s;
     LastActivity := LastActivity s; Project := Project s; Branch := Branch s;
     CWD := CWD s; GitRemoteURL := GitRemoteURL s; Client := Client s;
     Stopped := Stopped s; ToolName := ToolName s; ToolTarget := ToolTarget s;
     ActiveFile := ActiveFile s; AgentState := AgentState s;
     PermissionMode := PermissionMode s; HookEvent := HookEvent s |}.

(** The zero value, [var s State]. *)
Definition zeroState : State :=
  {| Version := 0; SessionID := ""; SessionStart := 0; LastActivity := 0;
     Project := ""; Branch := ""; CWD := ""; GitRemoteURL := ""; Client := "";
     Stopped := false; ToolName := ""; ToolTarget := ""; ActiveFile := "";
     AgentState := ""; PermissionMode := ""; HookEvent := "" |}.

(** The anonymous struct of [PeekVersion], with the lone field [$version]. *)
Record versionProbe : Set := { probeVersion : Z }.

Section Store.
Context `{Json State} `{Json versionProbe}.

(** [saveState] *)
Definition saveState (fs : world) (path : string) (s : State) : world * option error :=
  match json_Marshal s with
  | inl e => (fs, Some (Errorf "marshalling state: %w" [] e))
  | inr data => Atomicfile.Write fs path data
  end.

(** [recoverCorruptedState] *)
Definition recoverCorruptedState (fs : world) (path : string) (data : bytes)
    (parseErr : error) : (option State * option error) * world :=
  let fs := slog_Warn fs "corrupted state file, backing up" path in
  let corruptedPath := path +:+ ".corrupted" in
  let fs :=
    match WriteFile fs corruptedPath data with
    | (fs, Some wErr) => slog_Warn fs "failed to write backup" corruptedPath
    | (fs, None) => fs
    end in
  let s := set_Version CurrentVersion zeroState in
  let fs :=
    match saveState fs path s with
    | (fs, Some sErr) => slog_Warn fs "failed to save fresh state" path
    | (fs, None) => fs
    end in
  ((Some s, Some (Errorf "corrupted state file (backed up to %s): %w" [] parseErr)), fs).

(** [applyMigrations] *)
Definition applyMigrations (migs : list Migrate.Migration) (s : State)
    (data : bytes) : result State :=
  if (len migs =? 0)
     || negb (Migrate.NeedsMigration (Version s) CurrentVersion false migs)
  then Ok s
  else
    match Migrate.Run data (Version s) migs with
    | (_, _, Some e) => Err (Errorf "state migration failed: %w" [] e)
    | (migrated, newVersion, None) =>
        match json_Unmarshal migrated s with
        | inl e => Err (Errorf "unmarshal migrated state: %w" [] e)
        | inr s => Ok (set_Version newVersion s)
        end
    end.

(** The name [fmt.Sprintf("%s.v%d.bak", path, version)]. *)
Definition bakPath (path : string) (version : Z) : string :=
  path +:+ ".v" +:+ Sprintf_d version +:+ ".bak".

(** [normalizeToCurrentVersion]: the state it leaves in [s], and the world. *)
Definition normalizeToCurrentVersion (fs : world) (s : State) (path : string)
    (data : bytes) : State * world :=
  let fs := slog_Warn fs "future state version detected, normalizing"
              (Sprintf_d (Version s)) in
  let bak := bakPath path (Version s) in
  let fs :=
    match WriteFile fs bak data with
    | (fs, Some wErr) => slog_Warn fs "failed to write backup" bak
    | (fs, None) => fs
    end in
  let s := set_Version CurrentVersion s in
  let fs :=
    match saveState fs path s with
    | (fs, Some sErr) => slog_Warn fs "failed to save normalized state" path
    | (fs, None) => fs
    end in
  (s, fs).

(** [ReadState]: the state pointer and the error returned (both can be
    set), and the world afterwards. *)
Definition ReadState (migs : list Migrate.Migration) (fs : world) (path : string)
  : (option State * option error) * world :=
  match ReadFile fs path with
  | inl e => ((None, Some (Errorf "reading state file: %w" [] e)), fs)
  | inr data =>
      match json_Unmarshal data zeroState with
      | inl e => recoverCorruptedState fs path data e
      | inr s =>
          let s := if Version s =? 0 then set_Version 1 s else s in
          match applyMigrations migs s data with
          | inl e => ((None, Some e), fs)
          | inr s =>
              if Version s >? CurrentVersion then
                let '(s, fs) := normalizeToCurrentVersion fs s path data in
                ((Some s, None), fs)
              else ((Some s, None), fs)
          end
      end
  end.

(** [PeekVersion] *)
Definition PeekVersion (data : bytes) : result Z :=
  match json_Unmarshal data {| probeVersion := 0 |} with
  | inl e => Err (Errorf "peeking version: %w" [] e)
  | inr partial =>
      if probeVersion partial =? 0 then Ok 1 else Ok (probeVersion partial)
  end.
End Store.

(** ** session.go: the presentation engine *)

(** Where a field name of Go is taken in this module ([State] is the state
    record, [LargeImage] a configuration field), the field of the output
    record carries a trailing underscore. *)
Record Timestamps : Set := { Start : Z }.
Record Assets : Set := {
  LargeImage_ : string; LargeText_ : string;
  SmallImage : string; SmallText : string
}.
Record Button : Set := { Label : string; URL : string }.
Record Activity : Set := {
  Details : string;
  State_ : string;
  Timestamps_ : Timestamps;
  Assets_ : Assets;
  Buttons : list Button
}.

Record ActivityConfig : Set := {
  DetailsFormat : string;
  StateFormat : string;
  DetailsNoBranchFormat : string;
  StateNoCostFormat : string;
  CostFormat : string;
  TokenFormat : string;
  ModelFormat : string;
  ProjectName : string;
  IgnoredPatterns : list string;
  LargeImage : string;
  LargeText : string;
  ShowModelIcon : bool;
  ShowRepoButton : bool;
  RepoButtonLabel : string;
  CustomButtonLabel : string;
  CustomButtonURL : string;
  ShowCost : bool;
  ShowTokens : bool;
  ShowBranch : bool;
  TimestampMode : string;
  IdleMinutes : Z;
  ModelTiers : list string;
  DefaultTierIcon : string;
  CostShowThreshold : float;
  TokensShowThreshold : Z;
  IdleMode : string;
  IdleDetails : string;
  IdleState : string
}.

(** [JSONLData] of jsonl.go, the fields the engine reads. *)
Record JSONLData : Set := {
  InputTokens : Z;
  OutputTokens : Z;
  CacheCreationTokens : Z;
  CacheReadTokens : Z;
  TurnCount : Z
}.

Record templateVars : Set := {
  tvProject : string;
  tvBranch : string;
  tvModel : string;
  tvCost : float;
  tvTokens : Z;
  tvTool : string;
  tvToolTarget : string;
  tvFile : string;
  tvAgentState : string;
  tvPermission : string;
  tvClient : string;
  tvInputTokens : Z;
  tvOutputTokens : Z;
  tvCacheTokens : Z;
  tvTurns : Z;
  tvGitOwner : string;
  tvGitRepo : string;
  DefaultModelFormat : string;
  DefaultCostFormat : string;
  DefaultTokenFormat : string
}.

(** What the engine calls and the claims do not look into: the formatters of
    package config and of jsonl.go (floating point, title case), [fmt.Sprintf]
    on a [float64], [path/filepath] and the regular expression of
    [parseGitRemote]. *)
Class Helpers : Type := {
  config_FormatModelName : string -> string -> string;
  config_ClientDisplayName : string -> string;
  FormatTokenCount : Z -> string -> string;
  formatFloat : float -> string -> string;
  filepath_Match : string -> string -> result bool;
  filepath_Base : string -> string;
  filepath_Dir : string -> string;
  filepath_Ext : string -> string;
  parseGitRemote : string -> string * string
}.

(** [strings.HasPrefix] and [strings.TrimPrefix] *)
Definition HasPrefix (s p : string) : bool := String.prefix p s.
Definition TrimPrefix (s p : string) : string :=
  if HasPrefix s p
  then String.substring (String.length p) (String.length s - String.length p) s
  else s.

(** [strings.ReplaceAll(s, old, new)] for a non-empty [old], the only use:
    the occurrences are replaced from left to right and do not overlap.
    [skip] counts the bytes of an occurrence still to be passed over. *)
Fixpoint ReplaceAll_from (old new : string) (skip : nat) (s : string) : string :=
  match s with
  | EmptyString => EmptyString
  | String c rest =>
      match skip with
      | S k => ReplaceAll_from old new k rest
      | O =>
          if String.prefix old s
          then new +:+ ReplaceAll_from old new (String.length old - 1) rest
          else String c (ReplaceAll_from old new 0 rest)
      end
  end.

Definition ReplaceAll (s old new : string) : string :=
  match old with
  | EmptyString => s
  | _ => ReplaceAll_from old new 0 s
  end.

(** The class [\w] of the regular expression: ASCII letters, digits and the
    underscore. *)
Definition is_word (c : ascii) : bool :=
  let n := nat_of_ascii c in
  ((48 <=? n) && (n <=? 57) || (65 <=? n) && (n <=? 90)
   || (97 <=? n) && (n <=? 122) || (n =? 95))%nat.

Definition not_close_brace (c : ascii) : bool := negb (Ascii.eqb c "}").

(** The longest prefix whose bytes satisfy [p], and what follows it. *)
Fixpoint span (p : ascii -> bool) (s : string) : string * string :=
  match s with
  | EmptyString => (EmptyString, EmptyString)
  | String c rest =>
      if p c then let '(a, b) := span p rest in (String c a, b)
      else (EmptyString, s)
  end.

(** [formatVarRegex], [\{(\w+):([^}]+)\}], tried at the start of [s]: the two
    submatches and the length of the match.  Neither repetition can end
    anywhere else than where [span] ends it, so the match is unique. *)
Definition formatVarRegex_match (s : string) : option (string * string * nat) :=
  match s with
  | String "{" r =>
      let '(name, r1) := span is_word r in
      match name, r1 with
      | String _ _, String ":" r2 =>
          let '(format, r3) := span not_close_brace r2 in
          match format, r3 with
          | String _ _, String "}" _ =>
              Some (name, format, (String.length name + String.length format + 3)%nat)
          | _, _ => None
          end
      | _, _ => None
      end
  | _ => None
  end.

(** [formatVarRegex.ReplaceAllStringFunc(s, repl)]: leftmost matches, not
    overlapping, each replaced by what [repl] makes of its submatches. *)
Fixpoint ReplaceAllStringFunc_from (repl : string -> string -> string)
    (skip : nat) (s : string) : string :=
  match s with
  | EmptyString => EmptyString
  | String c rest =>
      match skip with
      | S k => ReplaceAllStringFunc_from repl k rest
      | O =>
          match formatVarRegex_match s with
          | Some (name, format, n) =>
              repl name format +:+ ReplaceAllStringFunc_from repl (n - 1) rest
          | None => String c (ReplaceAllStringFunc_from repl 0 rest)
          end
      end
  end.

Definition discordMaxLen : Z := 128.

(** The ellipsis the truncation appends: U+2026, three bytes in UTF-8. *)
Definition ellipsis : string := "…".

(** [s[:n]] on a string at least [n] bytes long. *)
Definition slice_to (s : string) (n : Z) : string :=
  String.substring 0 (Z.to_nat n) s.

Section Engine.
Context `{Helpers}.

(** [formatPath] *)
Definition formatPath (path format : string) : string :=
  if String.eqb path "" then ""
  else if String.eqb format "basename" then filepath_Base path
  else if String.eqb format "dir" then filepath_Dir path
  else if String.eqb format "ext" then filepath_Ext path
  else path.

(** [resolveVar] *)
Definition resolveVar (name format : string) (vars : templateVars) : string :=
  if String.eqb name "model" then
    if String.eqb (tvModel vars) "" then ""
    else config_FormatModelName (tvModel vars) format
  else if String.eqb name "cost" then
    "$" +:+ formatFloat (tvCost vars) (if String.eqb format "" then "%.2f" else format)
  else if String.eqb name "tokens" then FormatTokenCount (tvTokens vars) format
  else if String.eqb name "input_tokens" then FormatTokenCount (tvInputTokens vars) format
  else if String.eqb name "output_tokens" then FormatTokenCount (tvOutputTokens vars) format
  else if String.eqb name "cache_tokens" then FormatTokenCount (tvCacheTokens vars) format
  else if String.eqb name "project" then tvProject vars
  else if String.eqb name "branch" then tvBranch vars
  else if String.eqb name "tool" then tvTool vars
  else if String.eqb name "tool_target" then formatPath (tvToolTarget vars) format
  else if String.eqb name "file" then formatPath (tvFile vars) format
  else if String.eqb name "agent_state" then tvAgentState vars
  else if String.eqb name "permission" then tvPermission vars
  else if String.eqb name "client" then tvClient vars
  else if String.eqb name "git_owner" then tvGitOwner vars
  else if String.eqb name "git_repo" then tvGitRepo vars
  else if String.eqb name "turns" then Sprintf_d (tvTurns vars)
  else "{" +:+ name +:+ "}".

(** The first pass of [applyTemplate], [{var:format}]. *)
Definition explicitFormats (s : string) (vars : templateVars) : string :=
  ReplaceAllStringFunc_from (fun name format => resolveVar name format vars) 0 s.

(** The second pass, [{var}] with the default formats, in the order of the
    source. *)
Definition defaultFormats (s : string) (vars : templateVars) : string :=
  let s := ReplaceAll s "{model}" (resolveVar "model" (DefaultModelFormat vars) vars) in
  let s := ReplaceAll s "{cost}" (resolveVar "cost" (DefaultCostFormat vars) vars) in
  let s := ReplaceAll s "{tokens}" (resolveVar "tokens" (DefaultTokenFormat vars) vars) in
  let s := ReplaceAll s "{project}" (tvProject vars) in
  let s := ReplaceAll s "{branch}" (tvBranch vars) in
  let s := ReplaceAll s "{tool}" (tvTool vars) in
  let s := ReplaceAll s "{tool_target}" (tvToolTarget vars) in
  let s := ReplaceAll s "{file}" (resolveVar "file" "" vars) in
  let s := ReplaceAll s "{agent_state}" (tvAgentState vars) in
  let s := ReplaceAll s "{permission}" (tvPermission vars) in
  let s := ReplaceAll s "{client}" (resolveVar "client" "" vars) in
  let s := ReplaceAll s "{input_tokens}"
             (resolveVar "input_tokens" (DefaultTokenFormat vars) vars) in
  let s := ReplaceAll s "{output_tokens}"
             (resolveVar "output_tokens" (DefaultTokenFormat vars) vars) in
  let s := ReplaceAll s "{cache_tokens}"
             (resolveVar "cache_tokens" (DefaultTokenFormat vars) vars) in
  let s := ReplaceAll s "{turns}" (Sprintf_d (tvTurns vars)) in
  let s := ReplaceAll s "{git_owner}" (tvGitOwner vars) in
  ReplaceAll s "{git_repo}" (tvGitRepo vars).

(** The last step of [applyTemplate]: the cut to Discord's limit. *)
Definition truncateLine (s : string) : string :=
  if slen s >? discordMaxLen
  then slice_to s (discordMaxLen - 1) +:+ ellipsis
  else s.

(** [applyTemplate] *)
Definition applyTemplate (tmpl : string) (vars : templateVars) : string :=
  truncateLine (defaultFormats (explicitFormats tmpl vars) vars).

(** [matchesIgnorePattern]; an invalid pattern is logged and passed over. *)
Fixpoint matchesIgnorePattern (patterns : list string) (cwd : string) : bool :=
  match patterns with
  | [] => false
  | pattern :: patterns =>
      match filepath_Match pattern cwd with
      | inl _ => matchesIgnorePattern patterns cwd
      | inr matched => if matched then true else matchesIgnorePattern patterns cwd
      end
  end.

(** [isIdle]; [now] is [time.Now().Unix()]. *)
Definition isIdle (now : Z) (cfg : ActivityConfig) (lastActivity : Z) : bool :=
  (IdleMinutes cfg >? 0)
  && (int64 (now - lastActivity) >? int64 (int64 (IdleMinutes cfg) * 60)).

(** [buildTemplateVars] *)
Definition buildTemplateVars (s : State) (cfg : ActivityConfig) (cost : float)
    (totalTokens : Z) (model : string) (jsonl : option JSONLData) : templateVars :=
  let project := if String.eqb (ProjectName cfg) "" then Project s else ProjectName cfg in
  let cost :=
    if PrimFloat.ltb 0 (CostShowThreshold cfg) && PrimFloat.ltb cost (CostShowThreshold cfg)
    then 0%float else cost in
  let totalTokens :=
    if (TokensShowThreshold cfg >? 0) && (totalTokens <? TokensShowThreshold cfg)
    then 0 else totalTokens in
  let '(gitOwner, gitRepo) := parseGitRemote (GitRemoteURL s) in
  let '(inputTokens, outputTokens, cacheTokens, turns) :=
    match jsonl with
    | Some j => (InputTokens j, OutputTokens j,
                 int64 (CacheCreationTokens j + CacheReadTokens j), TurnCount j)
    | None => (0, 0, 0, 0)
    end in
  {| tvProject := project; tvBranch := Branch s; tvModel := model; tvCost := cost;
     tvTokens := totalTokens; tvTool := ToolName s; tvToolTarget := ToolTarget s;
     tvFile := ActiveFile s; tvAgentState := AgentState s;
     tvPermission := PermissionMode s;
     tvClient := config_ClientDisplayName (Client s);
     tvInputTokens := inputTokens; tvOutputTokens := outputTokens;
     tvCacheTokens := cacheTokens; tvTurns := turns;
     tvGitOwner := gitOwner; tvGitRepo := gitRepo;
     DefaultModelFormat := ModelFormat cfg; DefaultCostFormat := CostFormat cfg;
     DefaultTokenFormat := TokenFormat cfg |}.

(** [resolveDetails] and [resolveState] *)
Definition resolveDetails (cfg : ActivityConfig) (vars : templateVars) : string :=
  if String.eqb (tvBranch vars) "" || negb (ShowBranch cfg)
  then applyTemplate (DetailsNoBranchFormat cfg) vars
  else applyTemplate (DetailsFormat cfg) vars.

Definition resolveState (cfg : ActivityConfig) (vars : templateVars) : string :=
  if negb (ShowCost cfg) || PrimFloat.eqb (tvCost vars) 0
  then applyTemplate (StateNoCostFormat cfg) vars
  else applyTemplate (StateFormat cfg) vars.

(** [extractModelTier] *)
Fixpoint stripFamily (prefixes : list string) (model : string) : string :=
  match prefixes with
  | [] => model
  | p :: prefixes =>
      if HasPrefix model p then TrimPrefix model p else stripFamily prefixes model
  end.

Definition extractModelTier (model : string) (tierList : list string)
    (defaultIcon : string) : string :=
  let stripped := stripFamily ["claude-"; "gpt-"; "gemini-"; "o1-"; "o3-"] model in
  match List.find (fun tier => HasPrefix stripped tier) tierList with
  | Some tier => tier
  | None => if String.eqb defaultIcon "" then "default" else defaultIcon
  end.

(** [applyModelIcon] *)
Definition applyModelIcon (a : Activity) (cfg : ActivityConfig) (model : string)
  : Activity :=
  if negb (ShowModelIcon cfg) || String.eqb model "" then a
  else
    {| Details := Details a; State_ := State_ a; Timestamps_ := Timestamps_ a;
       Assets_ := {| LargeImage_ := LargeImage_ (Assets_ a);
                     LargeText_ := LargeText_ (Assets_ a);
                     SmallImage := extractModelTier model (ModelTiers cfg)
                                     (DefaultTierIcon cfg);
                     SmallText := config_FormatModelName model (ModelFormat cfg) |};
       Buttons := Buttons a |}.

(** [buildButtons] *)
Definition buildButtons (cfg : ActivityConfig) (remoteURL : string) : list Button :=
  (if ShowRepoButton cfg && negb (String.eqb remoteURL "")
   then [{| Label := RepoButtonLabel cfg; URL := remoteURL |}] else [])
  ++ (if negb (String.eqb (CustomButtonLabel cfg) "")
         && negb (String.eqb (CustomButtonURL cfg) "")
      then [{| Label := CustomButtonLabel cfg; URL := CustomButtonURL cfg |}] else []).

(** [buildIdleActivity] *)
Definition buildIdleActivity (s : State) (cfg : ActivityConfig) : option Activity :=
  if String.eqb (IdleMode cfg) "idle_text" then
    Some {| Details := IdleDetails cfg;
            State_ := IdleState cfg;
            Timestamps_ := {| Start := SessionStart s |};
            Assets_ := {| LargeImage_ := LargeImage cfg; LargeText_ := LargeText cfg;
                          SmallImage := ""; SmallText := "" |};
            Buttons := [] |}
  else if String.eqb (IdleMode cfg) "last_activity" then None
  else None.

(** [BuildActivityWithData]; [None] is the nil activity and [now] the clock
    that [isIdle] reads. *)
Definition BuildActivityWithData (now : Z) (s : State) (cfg : ActivityConfig)
    (cost : float) (totalTokens : Z) (model : string) (jsonl : option JSONLData)
  : option Activity :=
  if Stopped s then None
  else if matchesIgnorePattern (IgnoredPatterns cfg) (CWD s) then None
  else if isIdle now cfg (LastActivity s) then buildIdleActivity s cfg
  else
    let vars := buildTemplateVars s cfg cost totalTokens model jsonl in
    let details := resolveDetails cfg vars in
    let state := resolveState cfg vars in
    let a := {| Details := details; State_ := state;
                Timestamps_ := {| Start := SessionStart s |};
                Assets_ := {| LargeImage_ := LargeImage cfg; LargeText_ := LargeText cfg;
                              SmallImage := ""; SmallText := "" |};
                Buttons := buildButtons cfg (GitRemoteURL s) |} in
    Some (applyModelIcon a cfg model).

(** [BuildActivity] *)
Definition BuildActivity (now : Z) (s : State) (cfg : ActivityConfig) : option Activity :=
  BuildActivityWithData now s cfg 0%float 0 "" None.
End Engine.

(** ** watcher.go: the event channel *)

(** A buffered channel of [struct{}]: its capacity and the number of values
    queued. *)
Record chan : Set := { cap : nat; queued : nat }.

(** [make(chan struct{}, n)] *)
Definition make_chan (n : nat) : chan := {| cap := n; queued := 0 |}.

(** What became of a send. *)
Inductive sent : Set := Delivered | Dropped | Blocked.

(** [ch <- struct{}{}] on its own: it blocks while the buffer is full (no
    receiver is waiting in this embedding). *)
Definition send (ch : chan) : chan * sent :=
  if (queued ch <? cap ch)%nat
  then ({| cap := cap ch; queued := S (queued ch) |}, Delivered)
  else (ch, Blocked).

(** [select { case ch <- struct{}{}: default: }] *)
Definition select_send_default (ch : chan) : chan * sent :=
  if (queued ch <? cap ch)%nat
  then ({| cap := cap ch; queued := S (queued ch) |}, Delivered)
  else (ch, Dropped).

(** [<-ch] when a value is queued. *)
Definition receive (ch : chan) : option chan :=
  match queued ch with
  | O => None
  | S n => Some {| cap := cap ch; queued := n |}
  end.

(** [Watcher]: the fields of the event path.  [fsw], [once] and the
    goroutines belong to the notification sources. *)
Record Watcher : Set := {
  path : string;
  events : chan;
  done_closed : bool;
  polling : bool;
  pollIntervalSeconds : Z
}.

(** [NewDirWatcher] and [NewWatcher]; [native] says whether fsnotify could be
    set up on the path, otherwise the watcher polls. *)
Definition NewDirWatcher (native : bool) (dir : string) : Watcher :=
  {| path := dir; events := make_chan 1; done_closed := false;
     polling := negb native; pollIntervalSeconds := 2 |}.

Definition NewWatcher (native : bool) (stateFilePath : string) : Watcher :=
  {| path := stateFilePath; events := make_chan 1; done_closed := false;
     polling := negb native; pollIntervalSeconds := 2 |}.

(** [(w *Watcher) notify] *)
Definition notify (w : Watcher) : Watcher * sent :=
  let '(ch, r) := select_send_default (events w) in
  ({| path := path w; events := ch; done_closed := done_closed w;
      polling := polling w; pollIntervalSeconds := pollIntervalSeconds w |}, r).

(** [n] calls of [notify] in a row: the watcher afterwards and what became of
    each send. *)
Fixpoint notify_times (n : nat) (w : Watcher) : Watcher * list sent :=
  match n with
  | O => (w, [])
  | S n =>
      let '(w, r) := notify w in
      let '(w, rs) := notify_times n w in
      (w, r :: rs)
  end.

End Session.

(** * Package main *)

Module Daemon.
Import OS Session.

(** [paths.StateFile] *)
Definition StateFile : string := "state.json".

Section Resolver.
Context `{Json State}.
(** [filepath.Join] of a directory and a name, and [filepath.Glob]. *)
Variable filepath_Join : string -> string -> string.
Variable filepath_Glob : world -> string -> result (list string).

(** The loop of [findLatestState] over the matches: [best] and the world
    after the reads.  [ReadState] returns no state only together with an
    error, so the skip is the branch [readErr != nil && s == nil]. *)
Fixpoint scan (migs : list Migrate.Migration) (fs : world) (best : option State)
    (matches : list string) : option State * world :=
  match matches with
  | [] => (best, fs)
  | path :: matches =>
      match ReadState migs fs path with
      | ((None, _), fs) =>
          scan migs (slog_Debug fs "skipping unreadable state file" path) best matches
      | ((Some s, _), fs) =>
          let best :=
            match best with
            | None => Some s
            | Some b => if LastActivity s >? LastActivity b then Some s else Some b
            end in
          scan migs fs best matches
      end
  end.

(** [findLatestState] *)
Definition findLatestState (migs : list Migrate.Migration) (fs : world)
    (dataDir : string) : (option State * option error) * world :=
  let pattern := filepath_Join dataDir "state.*.json" in
  match filepath_Glob fs pattern with
  | inl e => ((None, Some (Errorf "glob state files: %w" [] e)), fs)
  | inr matches =>
      match scan migs fs None matches with
      | (Some best, fs) => ((Some best, None), fs)
      | (None, fs) => ReadState migs fs (filepath_Join dataDir StateFile)
      end
  end.
End Resolver.

End Daemon.

(** ** registry.go *)

Module Registry.
Import Migrate.

(** [Registry]: the version and the migrations of one schema target. *)
Record Registry : Type := {
  CurrentVersion : Z;
  Migrations : list Migration;
  Dev : list Migration
}.

(** [Register]; [None] is the panic on a version that is registered
    already. *)
Definition Register (r : Registry) (m : Migration) : option Registry :=
  if existsb (fun existing => Version existing =? Version m) (Migrations r)
  then None
  else Some {| CurrentVersion := CurrentVersion r;
               Migrations := Migrations r ++ [m];
               Dev := Dev r |}.

(** [RegisterDev]; [None] is the panic on a description that is registered
    already. *)
Definition RegisterDev (r : Registry) (m : Migration) : option Registry :=
  if existsb (fun existing => String.eqb (Description existing) (Description m)) (Dev r)
  then None
  else Some {| CurrentVersion := CurrentVersion r;
               Migrations := Migrations r;
               Dev := Dev r ++ [m] |}.

(** The methods [NeedsMigration] and [Run]. *)
Definition NeedsMigration (r : Registry) (fileVersion : Z) (force : bool) : bool :=
  Migrate.NeedsMigration fileVersion (CurrentVersion r) force (Migrations r).

Definition Run (r : Registry) (data : bytes) (fromVersion : Z)
  : bytes * Z * option error :=
  Migrate.Run data fromVersion (Migrations r).

(** [HasDev] *)
Definition HasDev (r : Registry) : bool := len (Dev r) >? 0.

(** The registries [Config] and [State]. *)
Definition Config : Registry := {| CurrentVersion := 1; Migrations := []; Dev := [] |}.
Definition State : Registry := {| CurrentVersion := 1; Migrations := []; Dev := [] |}.

End Registry.

(** * Package strings, as far as the code below calls it *)

Module Strings.

(** [strings.HasSuffix] *)
Fixpoint HasSuffix (s suffix : string) : bool :=
  String.eqb s suffix
  || match s with
     | EmptyString => false
     | String _ r => HasSuffix r suffix
     end.

(** [strings.Split(s, sep)] for a separator of one byte: the pieces between
    the separators, one more than there are separators. *)
Fixpoint Split (s : string) (sep : ascii) : list string :=
  match s with
  | EmptyString => [EmptyString]
  | String c r =>
      if Ascii.eqb c sep then EmptyString :: Split r sep
      else
        match Split r sep with
        | piece :: pieces => String c piece :: pieces
        | [] => [String c EmptyString]
        end
  end.

(** [strings.Join] *)
Definition Join (elems : list string) (sep : string) : string :=
  String.concat sep elems.

(** [strings.SplitN(s, sep, 2)] for a separator of one byte: [s] cut at the
    first separator, or [s] alone when there is none. *)
Fixpoint SplitN2 (s : string) (sep : ascii) : list string :=
  match s with
  | EmptyString => [EmptyString]
  | String c r =>
      if Ascii.eqb c sep then [EmptyString; r]
      else
        match SplitN2 r sep with
        | piece :: pieces => String c piece :: pieces
        | [] => [String c EmptyString]
        end
  end.

End Strings.

(** * Package paths *)

Module Paths.

Definition PIDFile : string := "daemon.pid".
Definition StateFile : string := "state.json".
Definition SessionsDir : string := "sessions".
Definition SessionExt : string := ".session".

(** [StateFileForClient] *)
Definition StateFileForClient (client : string) : string :=
  "state." +:+ client +:+ ".json".

End Paths.

(** * Package session, watcher.go: which files count *)

Module Watch.
Import Session.

Section Names.
Context `{Helpers}.

(** [isStateFile] *)
Definition isStateFile (name : string) : bool :=
  let base := filepath_Base name in
  if String.eqb base "state.json" then true
  else HasPrefix base "state." && Strings.HasSuffix base ".json".

End Names.

End Watch.

(** * Package discord: the life of a connection *)

Module Lifecycle.
Import Discord.

(** ** conn_unix.go, conn_wsl.go: finding the socket *)

Section Dialing.
Context {Conn : Type}.
(** [net.Dial("unix", path)], [os.Getenv("XDG_RUNTIME_DIR")], [os.Getuid()]
    and whether [/proc/version] mentions Microsoft. *)
Variable net_Dial : string -> result Conn.
Variable XDG_RUNTIME_DIR : string.
Variable Getuid : Z.
Variable isWSL : bool.

(** [range maxIPCSlots] *)
Definition slots : list Z := seqZ 0 maxIPCSlots.

(** [wslSocketPaths] *)
Definition wslSocketPaths : list string :=
  if negb isWSL then []
  else
    List.map (fun i => "/tmp/discord-ipc-" +:+ Sprintf_d i) slots
    ++ (if negb (String.eqb XDG_RUNTIME_DIR "")
        then List.map (fun i => XDG_RUNTIME_DIR +:+ "/discord-ipc-" +:+ Sprintf_d i) slots
        else []).

(** The paths that [connectToDiscord] collects, in the order it tries
    them. *)
Definition socketPaths : list string :=
  let variants := ["discord-ipc"; "discordcanary-ipc"; "discordptb-ipc"] in
  let uid := Sprintf_d Getuid in
  let snapDirs := ["snap.discord"; "snap.discord-canary"; "snap.discord-ptb"] in
  let flatpakApps := ["com.discordapp.Discord"; "com.discordapp.DiscordCanary";
                      "com.discordapp.DiscordPTB"] in
  (if negb (String.eqb XDG_RUNTIME_DIR "")
   then flat_map (fun v =>
          List.map (fun i => XDG_RUNTIME_DIR +:+ "/" +:+ v +:+ "-" +:+ Sprintf_d i) slots)
          variants
   else [])
  ++ flat_map (fun v => List.map (fun i => "/tmp/" +:+ v +:+ "-" +:+ Sprintf_d i) slots)
       variants
  ++ flat_map (fun sd =>
       List.map (fun i => "/run/user/" +:+ uid +:+ "/" +:+ sd +:+ "/discord-ipc-"
                          +:+ Sprintf_d i) slots)
       snapDirs
  ++ flat_map (fun app =>
       List.map (fun i => "/run/user/" +:+ uid +:+ "/app/" +:+ app +:+ "/discord-ipc-"
                          +:+ Sprintf_d i) slots)
       flatpakApps
  ++ wslSocketPaths.

(** The loop over the paths: the first connection that [net.Dial] makes. *)
Fixpoint dial_first (paths : list string) : option Conn :=
  match paths with
  | [] => None
  | path :: paths =>
      match net_Dial path with
      | inr conn => Some conn
      | inl _ => dial_first paths
      end
  end.

(** [connectToDiscord] *)
Definition connectToDiscord : result Conn :=
  match dial_first socketPaths with
  | Some conn => Ok conn
  | None =>
      if isWSL
      then Err (Errorf ("%w: running under WSL â€” you may need to set up a relay "
                        +:+ "with socat + npiperelay.exe (see project docs)") []
                  (New ErrIPCNotAvailable))
      else Err (New ErrIPCNotAvailable)
  end.
End Dialing.

(** ** client.go: Connect, handshake and Close *)

(** A decoded JSON value, as [json.Unmarshal] stores it in an [any]. *)
#[warnings="-register-all"]
Inductive any : Type :=
  | AnyNil
  | AnyBool (b : bool)
  | AnyNumber (f : float)
  | AnyString (s : string)
  | AnySlice (l : list any)
  | AnyMap (m : gmap string any).

(** The object that [handshake] marshals, [{v, client_id}]. *)
Record Handshake : Set := { v : Z; client_id : string }.

(** [net.Conn] as [handshake] reads from it: what the peer has sent and is
    not read yet, and the connection once a read has left [r] of that. *)
Class NetConnRead (C : Type) : Type := {
  conn_incoming : C -> reader;
  conn_left : C -> reader -> C
}.

(** How a call ends: it returns its error value, or it panics. *)
Inductive outcome : Type :=
  | Returns (err : option error)
  | Panics (why : string).

(** An error that wraps nothing: [fmt.Errorf] without [%w], by its text. *)
Definition errorString (text : string) : error := New (ErrHost text).

Section Lifecycle.
Context {Conn : Type} `{NetConn Conn} `{NetConnRead Conn}.
Context `{Json Command} `{Json Handshake} `{Json (gmap string any)}.
Variable Getpid : Z.

(** [c.conn = k] *)
Definition set_conn (c : Client Conn) (k : option Conn) : Client Conn :=
  {| appID := appID c; conn := k; nonce := nonce c |}.

(** [resp["evt"].(string)] with the comma-ok form: the empty string when the
    key is missing or holds no string. *)
Definition string_of (a : option any) : string :=
  match a with
  | Some (AnyString s) => s
  | _ => ""
  end.

(** [handshake]; the caller has set [c.conn]. *)
Definition handshake (c : Client Conn) : Client Conn * outcome :=
  match conn c with
  | None => (c, Panics "nil pointer dereference")
  | Some k =>
      match json_Marshal {| v := 1; client_id := appID c |} with
      | inl e => (c, Returns (Some (Errorf "marshaling handshake: %w" [] e)))
      | inr payload =>
          match EncodeFrame OpHandshake payload with
          | inl e => (c, Returns (Some (Errorf "encoding handshake: %w" [] e)))
          | inr frame =>
              match conn_Write k frame with
              | (k, Some e) =>
                  (set_conn c (Some k),
                   Returns (Some (Errorf "writing handshake: %w" [] e)))
              | (k, None) =>
                  let '(response, d) := DecodeFrame (conn_incoming k) in
                  let c := set_conn c (Some (conn_left k (rest d))) in
                  match response with
                  | inl e =>
                      (c, Returns (Some (Errorf "reading handshake response: %w" [] e)))
                  | inr (opcode, respData) =>
                      if negb (opcode =? OpFrame) then
                        (c, Returns (Some (errorString
                               ("unexpected handshake response opcode: "
                                +:+ Sprintf_d opcode))))
                      else
                        match json_Unmarshal respData (∅ : gmap string any) with
                        | inl e =>
                            (c, Returns (Some (Errorf "parsing handshake response: %w" [] e)))
                        | inr resp =>
                            if String.eqb (string_of (resp !! "evt")) "ERROR" then
                              match resp !! "data" with
                              | Some (AnyMap data) =>
                                  (c, Returns (Some (errorString
                                         ("handshake rejected: "
                                          +:+ string_of (data !! "message")))))
                              | _ => (c, Panics "interface conversion")
                              end
                            else (c, Returns None)
                        end
                  end
              end
          end
      end
  end.

(** [Connect]; [dialed] is what [connectToDiscord] returns this time. *)
Definition Connect (dialed : result Conn) (c : Client Conn) : Client Conn * outcome :=
  let c := set_conn c None in
  match dialed with
  | inl err => (c, Returns (Some err))
  | inr k =>
      match handshake (set_conn c (Some k)) with
      | (c, Returns (Some err)) => (set_conn c None, Returns (Some err))
      | (c, Returns None) => (c, Returns None)
      | (c, Panics why) => (c, Panics why)
      end
  end.

(** [Close]: a last command clears the presence, its error is dropped; the
    error returned is that of closing the connection.  [sendCommand] leaves
    [c.conn] set, so the second [None] is never reached. *)
Definition Close (c : Client Conn) : Client Conn * option error :=
  match conn c with
  | None => (c, None)
  | Some _ =>
      let c := fst (sendCommand c "SET_ACTIVITY" {| pid := Getpid; activity := None |}) in
      match conn c with
      | Some k => (set_conn c None, conn_Close k)
      | None => (c, None)
      end
  end.
End Lifecycle.

End Lifecycle.

(** * Package config: privacy and per-client settings *)

Module Config.

(** [ClientConfig] *)
Record ClientConfig : Set := {
  LargeImage : string;
  LargeText : string;
  AppID : string;
  Details : string;
  State : string;
  SmallImage : string;
  SmallText : string
}.

(** [PrivacyOverride] and [PrivacyConfig] *)
Record PrivacyOverride : Set := {
  Pattern : string;
  OverrideHideProjectName : bool;
  HiddenText : string
}.

Record PrivacyConfig : Set := {
  HideProjectName : bool;
  HiddenProjectText : string;
  Ignore : list string;
  Overrides : list PrivacyOverride
}.

(** [Config], the fields that the functions below read: [Discord.AppID],
    [Display.Format.Branch], [Display.Format.DefaultBranches], [Privacy] and
    [Clients]. *)
Record Config : Type := {
  DiscordAppID : string;
  FormatBranch_ : string;
  DefaultBranches : list string;
  Privacy : PrivacyConfig;
  Clients : gmap string ClientConfig
}.

Section Privacy.
(** [doublestar.Match] *)
Variable doublestar_Match : string -> string -> result bool.

(** The loop of [ProjectName] over the overrides; a pattern that does not
    parse is logged and passed over. *)
Fixpoint firstHidden (overrides : list PrivacyOverride) (cwd : string) : option string :=
  match overrides with
  | [] => None
  | o :: overrides =>
      match doublestar_Match (Pattern o) cwd with
      | inl _ => firstHidden overrides cwd
      | inr matched =>
          if matched && OverrideHideProjectName o then Some (HiddenText o)
          else firstHidden overrides cwd
      end
  end.

(** [(c *Config) ProjectName] *)
Definition ProjectName (c : Config) (realName cwd : string) : string :=
  match firstHidden (Overrides (Privacy c)) cwd with
  | Some hidden => hidden
  | None =>
      if HideProjectName (Privacy c) then HiddenProjectText (Privacy c) else realName
  end.
End Privacy.

(** [(c *Config) FormatBranch] *)
Definition FormatBranch (c : Config) (branch : string) : string :=
  if String.eqb (FormatBranch_ c) "hide" then ""
  else if String.eqb (FormatBranch_ c) "hide_default" then
    if existsb (fun def => String.eqb branch def) (DefaultBranches c) then "" else branch
  else branch.

End Config.

(** * Package main: the event loop *)

Module Loop.
Import OS Discord Lifecycle.

(** ** Activity mapping *)

(** [toDiscordActivity] *)
Definition toDiscordActivity (a : option Session.Activity) : option Discord.Activity :=
  match a with
  | None => None
  | Some a =>
      let t := Session.Timestamps_ a in
      let assets := Session.Assets_ a in
      Some {| Details := Session.Details a;
              State := Session.State_ a;
              Timestamps_ :=
                if negb (Session.Start t =? 0)
                then Some {| Start := Session.Start t |} else None;
              Assets_ :=
                if negb (String.eqb (Session.LargeImage_ assets) "")
                   || negb (String.eqb (Session.LargeText_ assets) "")
                   || negb (String.eqb (Session.SmallImage assets) "")
                   || negb (String.eqb (Session.SmallText assets) "")
                then Some {| LargeImage := Session.LargeImage_ assets;
                             LargeText := Session.LargeText_ assets;
                             SmallImage := Session.SmallImage assets;
                             SmallText := Session.SmallText assets |}
                else None;
              Buttons :=
                List.map (fun b => {| Label := Session.Label b; URL := Session.URL b |})
                         (Session.Buttons a) |}
  end.

(** ** Per-client and privacy overrides *)

(** [resolveDiscordAppID] *)
Definition resolveDiscordAppID (cfg : Config.Config) (client : string) : string :=
  match Config.Clients cfg !! client with
  | Some cc => if negb (String.eqb (Config.AppID cc) "") then Config.AppID cc
               else Config.DiscordAppID cfg
  | None => Config.DiscordAppID cfg
  end.

(** [applyClientOverrides] *)
Definition applyClientOverrides (actCfg : Session.ActivityConfig)
    (clientCfg : Config.ClientConfig) : Session.ActivityConfig :=
  let pick (override current : string) :=
    if negb (String.eqb override "") then override else current in
  {| Session.DetailsFormat := pick (Config.Details clientCfg) (Session.DetailsFormat actCfg);
     Session.StateFormat := pick (Config.State clientCfg) (Session.StateFormat actCfg);
     Session.DetailsNoBranchFormat := Session.DetailsNoBranchFormat actCfg;
     Session.StateNoCostFormat := Session.StateNoCostFormat actCfg;
     Session.CostFormat := Session.CostFormat actCfg;
     Session.TokenFormat := Session.TokenFormat actCfg;
     Session.ModelFormat := Session.ModelFormat actCfg;
     Session.ProjectName := Session.ProjectName actCfg;
     Session.IgnoredPatterns := Session.IgnoredPatterns actCfg;
     Session.LargeImage := pick (Config.LargeImage clientCfg) (Session.LargeImage actCfg);
     Session.LargeText := pick (Config.LargeText clientCfg) (Session.LargeText actCfg);
     Session.ShowModelIcon := Session.ShowModelIcon actCfg;
     Session.ShowRepoButton := Session.ShowRepoButton actCfg;
     Session.RepoButtonLabel := Session.RepoButtonLabel actCfg;
     Session.CustomButtonLabel := Session.CustomButtonLabel actCfg;
     Session.CustomButtonURL := Session.CustomButtonURL actCfg;
     Session.ShowCost := Session.ShowCost actCfg;
     Session.ShowTokens := Session.ShowTokens actCfg;
     Session.ShowBranch := Session.ShowBranch actCfg;
     Session.TimestampMode := Session.TimestampMode actCfg;
     Session.IdleMinutes := Session.IdleMinutes actCfg;
     Session.ModelTiers := Session.ModelTiers actCfg;
     Session.DefaultTierIcon := Session.DefaultTierIcon actCfg;
     Session.CostShowThreshold := Session.CostShowThreshold actCfg;
     Session.TokensShowThreshold := Session.TokensShowThreshold actCfg;
     Session.IdleMode := Session.IdleMode actCfg;
     Session.IdleDetails := Session.IdleDetails actCfg;
     Session.IdleState := Session.IdleState actCfg |}.

(** [applyClientActivityOverrides] *)
Definition applyClientActivityOverrides (a : option Session.Activity)
    (clientCfg : Config.ClientConfig) : option Session.Activity :=
  match a with
  | None => None
  | Some a =>
      let assets := Session.Assets_ a in
      Some {| Session.Details := Session.Details a;
              Session.State_ := Session.State_ a;
              Session.Timestamps_ := Session.Timestamps_ a;
              Session.Assets_ :=
                {| Session.LargeImage_ := Session.LargeImage_ assets;
                   Session.LargeText_ := Session.LargeText_ assets;
                   Session.SmallImage :=
                     if negb (String.eqb (Config.SmallImage clientCfg) "")
                     then Config.SmallImage clientCfg else Session.SmallImage assets;
                   Session.SmallText :=
                     if negb (String.eqb (Config.SmallText clientCfg) "")
                     then Config.SmallText clientCfg else Session.SmallText assets |};
              Session.Buttons := Session.Buttons a |}
  end.

(** [actCfg.ProjectName = name] and [state.Branch = branch] *)
Definition set_ProjectName (name : string) (actCfg : Session.ActivityConfig)
  : Session.ActivityConfig :=
  {| Session.DetailsFormat := Session.DetailsFormat actCfg;
     Session.StateFormat := Session.StateFormat actCfg;
     Session.DetailsNoBranchFormat := Session.DetailsNoBranchFormat actCfg;
     Session.StateNoCostFormat := Session.StateNoCostFormat actCfg;
     Session.CostFormat := Session.CostFormat actCfg;
     Session.TokenFormat := Session.TokenFormat actCfg;
     Session.ModelFormat := Session.ModelFormat actCfg;
     Session.ProjectName := name;
     Session.IgnoredPatterns := Session.IgnoredPatterns actCfg;
     Session.LargeImage := Session.LargeImage actCfg;
     Session.LargeText := Session.LargeText actCfg;
     Session.ShowModelIcon := Session.ShowModelIcon actCfg;
     Session.ShowRepoButton := Session.ShowRepoButton actCfg;
     Session.RepoButtonLabel := Session.RepoButtonLabel actCfg;
     Session.CustomButtonLabel := Session.CustomButtonLabel actCfg;
     Session.CustomButtonURL := Session.CustomButtonURL actCfg;
     Session.ShowCost := Session.ShowCost actCfg;
     Session.ShowTokens := Session.ShowTokens actCfg;
     Session.ShowBranch := Session.ShowBranch actCfg;
     Session.TimestampMode := Session.TimestampMode actCfg;
     Session.IdleMinutes := Session.IdleMinutes actCfg;
     Session.ModelTiers := Session.ModelTiers actCfg;
     Session.DefaultTierIcon := Session.DefaultTierIcon actCfg;
     Session.CostShowThreshold := Session.CostShowThreshold actCfg;
     Session.TokensShowThreshold := Session.TokensShowThreshold actCfg;
     Session.IdleMode := Session.IdleMode actCfg;
     Session.IdleDetails := Session.IdleDetails actCfg;
     Session.IdleState := Session.IdleState actCfg |}.

Definition set_Branch (branch : string) (s : Session.State) : Session.State :=
  {| Session.Version := Session.Version s; Session.SessionID := Session.SessionID s;
     Session.SessionStart := Session.SessionStart s;
     Session.LastActivity := Session.LastActivity s;
     Session.Project := Session.Project s; Session.Branch := branch;
     Session.CWD := Session.CWD s; Session.GitRemoteURL := Session.GitRemoteURL s;
     Session.Client := Session.Client s; Session.Stopped := Session.Stopped s;
     Session.ToolName := Session.ToolName s; Session.ToolTarget := Session.ToolTarget s;
     Session.ActiveFile := Session.ActiveFile s; Session.AgentState := Session.AgentState s;
     Session.PermissionMode := Session.PermissionMode s;
     Session.HookEvent := Session.HookEvent s |}.

Section Privacy.
Variable doublestar_Match : string -> string -> result bool.

(** [applyPrivacyOverrides]: the configuration and the state it leaves. *)
Definition applyPrivacyOverrides (actCfg : Session.ActivityConfig) (cfg : Config.Config)
    (state : Session.State) : Session.ActivityConfig * Session.State :=
  let projectName :=
    Config.ProjectName doublestar_Match cfg (Session.Project state) (Session.CWD state) in
  let actCfg := set_ProjectName "" actCfg in
  let actCfg :=
    if negb (String.eqb projectName (Session.Project state))
    then set_ProjectName projectName actCfg else actCfg in
  (actCfg, set_Branch (Config.FormatBranch cfg (Session.Branch state)) state).
End Privacy.

(** ** The loop state *)

(** [loopState]; a [time.Time] is its Unix time in nanoseconds, and [None]
    the zero [Time]. *)
Record loopState : Type := {
  daemonStart : Z;
  lastActivityTime : option Z;
  lastActivity : option Session.Activity;
  lastHash : string;
  idleCleared : bool;
  lastCleanup : option Z;
  activeClient : string;
  activeAppID : string
}.

Section Client.
Context {Conn : Type} `{NetConn Conn} `{NetConnRead Conn}.
Context `{Json Command} `{Json Handshake} `{Json (gmap string any)}.
Variable Getpid : Z.

(** ** Connect with retry *)

Definition maxAttempts : Z := 10.

(** The loop of [connectWithRetry] from attempt [i] on, with [n] attempts
    left.  [dialed i] is what [connectToDiscord] returns at attempt [i];
    [slept] collects the arguments of [time.Sleep]; of the warning the log
    keeps the message and the attempt number. *)
Fixpoint attempts (dialed : Z -> result Conn) (interval : Z) (n : nat) (i : Z)
    (c : Client Conn) (fs : world) (slept : list Z)
  : Client Conn * outcome * world * list Z :=
  match n with
  | O =>
      (c, Returns (Some (errorString
                           ("failed to connect after " +:+ Sprintf_d maxAttempts
                            +:+ " attempts"))), fs, slept)
  | S n =>
      match Connect (dialed i) c with
      | (c, Returns None) => (c, Returns None, fs, slept)
      | (c, Panics why) => (c, Panics why, fs, slept)
      | (c, Returns (Some err)) =>
          let fs := slog_Warn fs "Discord connect attempt failed" (Sprintf_d (i + 1)) in
          let slept := if i <? maxAttempts - 1 then slept ++ [interval] else slept in
          attempts dialed interval n (i + 1) c fs slept
      end
  end.

(** [connectWithRetry] *)
Definition connectWithRetry (dialed : Z -> result Conn) (interval : Z)
    (c : Client Conn) (fs : world) : Client Conn * outcome * world * list Z :=
  attempts dialed interval (Z.to_nat maxAttempts) 0 c fs [].

(** ** Idle handling *)

Definition set_cleared (ls : loopState) : loopState :=
  {| daemonStart := daemonStart ls; lastActivityTime := lastActivityTime ls;
     lastActivity := lastActivity ls; lastHash := ""; idleCleared := true;
     lastCleanup := lastCleanup ls; activeClient := activeClient ls;
     activeAppID := activeAppID ls |}.

(** [handleIdleState]: the activity to publish, the client and the loop
    state afterwards.  The two log calls are left out. *)
Definition handleIdleState (c : Client Conn) (actCfg : Session.ActivityConfig)
    (ls : loopState) (activity : option Session.Activity)
  : option Session.Activity * Client Conn * loopState :=
  match activity with
  | Some a => (Some a, c, ls)
  | None =>
      match String.eqb (Session.IdleMode actCfg) "last_activity", lastActivity ls with
      | true, Some last => (Some last, c, ls)
      | _, _ =>
          if negb (idleCleared ls)
          then (None, fst (ClearActivity Getpid c), set_cleared ls)
          else (None, c, ls)
      end
  end.
End Client.

(** ** The PID file *)

(** What the system makes of the calls of [writePID], one after the other:
    [os.OpenFile], [lockFile], [Truncate] and [WriteString]. *)
Record pidCalls : Set := {
  openErr : option error;
  lockErr : option error;
  truncateErr : option error;
  writeErr : option error
}.

Section PID.
Variable filepath_Join : string -> string -> string.
Variable Getpid : Z.

(** [paths.DataDir.PID] *)
Definition PID (root : string) : string := filepath_Join root Paths.PIDFile.

(** [writePID]: the files afterwards and the error; the handle it returns on
    success holds the lock.  A failed [WriteString] is taken to have written
    nothing. *)
Definition writePID (calls : pidCalls) (fs : world) (root token : string)
  : world * option error :=
  match openErr calls with
  | Some err => (fs, Some (Errorf "open PID file: %w" [] err))
  | None =>
      let fs :=
        match files fs !! PID root with
        | Some _ => fs
        | None => with_files fs (<[PID root := []]> (files fs))
        end in
      match lockErr calls with
      | Some err => (fs, Some (Errorf "lock PID file: %w" [] err))
      | None =>
          match truncateErr calls with
          | Some err => (fs, Some (Errorf "truncate PID file: %w" [] err))
          | None =>
              let fs := with_files fs (<[PID root := []]> (files fs)) in
              let content := Sprintf_d Getpid +:+ ":" +:+ token in
              match writeErr calls with
              | Some err => (fs, Some (Errorf "write PID file: %w" [] err))
              | None =>
                  (with_files fs (<[PID root := list_byte_of_string content]> (files fs)),
                   None)
              end
          end
      end
  end.

(** [removePID]; releasing the lock and closing the handle change no
    file. *)
Definition removePID (fs : world) (root token : string) : world :=
  match ReadFile fs (PID root) with
  | inl _ => fs
  | inr data =>
      match Strings.SplitN2 (string_of_list_byte data) ":" with
      | [_; owner] => if String.eqb owner token then Remove fs (PID root) else fs
      | _ => fs
      end
  end.
End PID.

End Loop.

(** * Package config: number formatting *)

Module Format.

(** The loop of [FormatWithCommas] over the characters of [s], from index
    [i] on; [total] is [len(s)]. *)
Fixpoint group (total i : Z) (rest : string) : string :=
  match rest with
  | EmptyString => EmptyString
  | String c rest =>
      let tail := String c (group total (i + 1) rest) in
      if (i >? 0) && ((total - i) mod 3 =? 0) then String "," tail else tail
  end.

(** [FormatWithCommas]; [fuel] bounds the depth of the recursion, and [None]
    is a call that has not returned within it. *)
Fixpoint FormatWithCommas (fuel : nat) (n : Z) : option string :=
  match fuel with
  | O => None
  | S fuel =>
      if n <? 0 then
        match FormatWithCommas fuel (int64 (- n)) with
        | Some s => Some ("-" +:+ s)
        | None => None
        end
      else
        let s := Sprintf_d n in
        if slen s <=? 3 then Some s else Some (group (slen s) 0 s)
  end.

End Format.

(** * Package encoding/json, as far as [PeekVersion] calls it *)

(** [json.Unmarshal(data, &partial)] for the one-field struct of
    [PeekVersion]: the whole input is checked for well-formedness first, and
    only then is the value walked and the field stored.  Texts are byte
    strings, as the scanner of the package reads them. *)
Module JSON.

(** ** The scanner: what [checkValid] accepts *)

(** A JSON value as the decoder meets it: a number by its literal, a string
    and a key by the bytes between their quotes, escapes unresolved. *)
#[warnings="-register-all"]
Inductive value : Type :=
  | Null
  | Bool (b : bool)
  | Number (literal : string)
  | Str (raw : string)
  | Array (elems : list value)
  | Object (members : list (string * value)).

(** [isSpace] *)
Definition isSpace (c : ascii) : bool :=
  Ascii.eqb c " " || Ascii.eqb c "009" || Ascii.eqb c "013" || Ascii.eqb c "010".

Fixpoint skipSpace (s : string) : string :=
  match s with
  | String c r => if isSpace c then skipSpace r else s
  | EmptyString => s
  end.

Definition code (c : ascii) : Z := Z.of_nat (nat_of_ascii c).

Definition isDigit (c : ascii) : bool := (48 <=? code c) && (code c <=? 57).

Definition isHex (c : ascii) : bool :=
  isDigit c
  || ((97 <=? code c) && (code c <=? 102))
  || ((65 <=? code c) && (code c <=? 70)).

(** The characters that may follow a backslash, [u] apart. *)
Definition isEscape (c : ascii) : bool :=
  Ascii.eqb c "b" || Ascii.eqb c "f" || Ascii.eqb c "n" || Ascii.eqb c "r"
  || Ascii.eqb c "t" || Ascii.eqb c "\" || Ascii.eqb c "/" || Ascii.eqb c "034".

(** The states [stateInString], [stateInStringEsc] and [stateInStringEscU]
    to [stateInStringEscU123], from behind the opening quote: the bytes up to
    the closing quote, and what follows it. *)
Fixpoint scanString (s : string) : option (string * string) :=
  match s with
  | EmptyString => None
  | String c r =>
      if Ascii.eqb c "034" then Some (EmptyString, r)
      else if Ascii.eqb c "\" then
        match r with
        | String e r' =>
            if isEscape e then
              match scanString r' with
              | Some (raw, rest) => Some (String c (String e raw), rest)
              | None => None
              end
            else if Ascii.eqb e "u" then
              match r' with
              | String h1 (String h2 (String h3 (String h4 r''))) =>
                  if isHex h1 && isHex h2 && isHex h3 && isHex h4 then
                    match scanString r'' with
                    | Some (raw, rest) =>
                        Some (String c (String e (String h1 (String h2
                                (String h3 (String h4 raw))))), rest)
                    | None => None
                    end
                  else None
              | _ => None
              end
            else None
        | EmptyString => None
        end
      else if code c <? 32 then None
      else
        match scanString r with
        | Some (raw, rest) => Some (String c raw, rest)
        | None => None
        end
  end.

(** The digits at the head of [s], and what follows them. *)
Fixpoint digits (s : string) : string * string :=
  match s with
  | String c r =>
      if isDigit c then let '(ds, rest) := digits r in (String c ds, rest)
      else (EmptyString, s)
  | EmptyString => (EmptyString, s)
  end.

(** The states [stateNeg], [state0], [state1], [stateDot], [stateDot0],
    [stateE], [stateESign] and [stateE0]: the number literal at the head of
    [s], and what follows it. *)
Definition scanNumber (s : string) : option (string * string) :=
  let '(sign, s) :=
    match s with
    | String "-" r => ("-", r)
    | _ => ("", s)
    end in
  let integer :=
    match s with
    | String "0" r => Some ("0", r)
    | String c _ => if isDigit c then Some (digits s) else None
    | EmptyString => None
    end in
  match integer with
  | None => None
  | Some (int, s) =>
      let fraction :=
        match s with
        | String "." r =>
            match digits r with
            | (String d ds, rest) => Some (String "." (String d ds), rest)
            | (EmptyString, _) => None
            end
        | _ => Some ("", s)
        end in
      match fraction with
      | None => None
      | Some (frac, s) =>
          let exponent :=
            match s with
            | String e r =>
                if Ascii.eqb e "e" || Ascii.eqb e "E" then
                  let '(esign, r) :=
                    match r with
                    | String "+" r' => ("+", r')
                    | String "-" r' => ("-", r')
                    | _ => ("", r)
                    end in
                  match digits r with
                  | (String d ds, rest) =>
                      Some (String e (esign +:+ String d ds), rest)
                  | (EmptyString, _) => None
                  end
                else Some ("", s)
            | EmptyString => Some ("", s)
            end in
          match exponent with
          | None => None
          | Some (exp, rest) => Some (sign +:+ int +:+ frac +:+ exp, rest)
          end
      end
  end.

(** [s] without the prefix [p], when it starts with it. *)
Fixpoint after (p s : string) : option string :=
  match p, s with
  | EmptyString, _ => Some s
  | String a p, String b s => if Ascii.eqb a b then after p s else None
  | String _ _, EmptyString => None
  end.

Section Containers.
(** The scanner for the values inside a container. *)
Variable scanValue : string -> option (value * string).

(** The elements of an array, from the first byte of an element on; [n]
    bounds their number, and each takes a byte at least. *)
Fixpoint scanElements (n : nat) (s : string) : option (list value * string) :=
  match n with
  | O => None
  | S n =>
      match scanValue s with
      | None => None
      | Some (v, s) =>
          match skipSpace s with
          | String "]" rest => Some ([v], rest)
          | String "," rest =>
              match scanElements n (skipSpace rest) with
              | Some (vs, rest) => Some (v :: vs, rest)
              | None => None
              end
          | _ => None
          end
      end
  end.

(** The members of an object, from the opening quote of a key on. *)
Fixpoint scanMembers (n : nat) (s : string)
  : option (list (string * value) * string) :=
  match n with
  | O => None
  | S n =>
      match s with
      | String "034" s =>
          match scanString s with
          | None => None
          | Some (key, s) =>
              match skipSpace s with
              | String ":" s =>
                  match scanValue (skipSpace s) with
                  | None => None
                  | Some (v, s) =>
                      match skipSpace s with
                      | String "}" rest => Some ([(key, v)], rest)
                      | String "," rest =>
                          match scanMembers n (skipSpace rest) with
                          | Some (ms, rest) => Some ((key, v) :: ms, rest)
                          | None => None
                          end
                      | _ => None
                      end
                  end
              | _ => None
              end
          end
      | _ => None
      end
  end.
End Containers.

(** [maxNestingDepth] *)
Definition maxNestingDepth : nat := Z.to_nat 10000.

(** [stateBeginValue] on the first byte of a value: the value and what
    follows it.  [room] is the number of containers that may still be opened
    inside one another; to open one more is the error "exceeded max
    depth". *)
Fixpoint scanValue (room : nat) (s : string) {struct room} : option (value * string) :=
  match s with
  | String "{" r =>
      match room with
      | O => None
      | S room =>
          match skipSpace r with
          | String "}" rest => Some (Object [], rest)
          | r =>
              match scanMembers (scanValue room) (String.length r) r with
              | Some (ms, rest) => Some (Object ms, rest)
              | None => None
              end
          end
      end
  | String "[" r =>
      match room with
      | O => None
      | S room =>
          match skipSpace r with
          | String "]" rest => Some (Array [], rest)
          | r =>
              match scanElements (scanValue room) (String.length r) r with
              | Some (vs, rest) => Some (Array vs, rest)
              | None => None
              end
          end
      end
  | String "034" r =>
      match scanString r with
      | Some (raw, rest) => Some (Str raw, rest)
      | None => None
      end
  | String "t" _ =>
      match after "true" s with
      | Some rest => Some (Bool true, rest)
      | None => None
      end
  | String "f" _ =>
      match after "false" s with
      | Some rest => Some (Bool false, rest)
      | None => None
      end
  | String "n" _ =>
      match after "null" s with
      | Some rest => Some (Null, rest)
      | None => None
      end
  | _ =>
      match scanNumber s with
      | Some (literal, rest) => Some (Number literal, rest)
      | None => None
      end
  end.

(** [checkValid]: one value, with white space around it and nothing else;
    [None] is a [*SyntaxError]. *)
Definition checkValid (data : bytes) : option value :=
  match scanValue maxNestingDepth (skipSpace (string_of_list_byte data)) with
  | Some (v, rest) =>
      match skipSpace rest with
      | EmptyString => Some v
      | _ => None
      end
  | None => None
  end.

(** ** The decoder: keys *)

(** [utf8.RuneError], U+FFFD *)
Definition RuneError : Z := 65533.

(** A continuation byte within [lo..hi]: its six bits, and what follows. *)
Definition continuation (lo hi : Z) (s : string) : option (Z * string) :=
  match s with
  | String c r =>
      if (lo <=? code c) && (code c <=? hi) then Some (Z.land (code c) 63, r) else None
  | EmptyString => None
  end.

(** [utf8.DecodeRune] on a byte [p0] that is not ASCII and the bytes [r]
    behind it: the rune and what follows its encoding.  A byte that starts
    no well-formed encoding is U+FFFD, of size 1. *)
Definition DecodeRune (p0 : ascii) (r : string) : Z * string :=
  let x := code p0 in
  let invalid := (RuneError, r) in
  if (194 <=? x) && (x <=? 223) then
    match continuation 128 191 r with
    | Some (b1, r1) => (Z.shiftl (Z.land x 31) 6 + b1, r1)
    | None => invalid
    end
  else if (224 <=? x) && (x <=? 239) then
    let lo := if x =? 224 then 160 else 128 in
    let hi := if x =? 237 then 159 else 191 in
    match continuation lo hi r with
    | Some (b1, r1) =>
        match continuation 128 191 r1 with
        | Some (b2, r2) => (Z.shiftl (Z.land x 15) 12 + Z.shiftl b1 6 + b2, r2)
        | None => invalid
        end
    | None => invalid
    end
  else if (240 <=? x) && (x <=? 244) then
    let lo := if x =? 240 then 144 else 128 in
    let hi := if x =? 244 then 143 else 191 in
    match continuation lo hi r with
    | Some (b1, r1) =>
        match continuation 128 191 r1 with
        | Some (b2, r2) =>
            match continuation 128 191 r2 with
            | Some (b3, r3) =>
                (Z.shiftl (Z.land x 7) 18 + Z.shiftl b1 12 + Z.shiftl b2 6 + b3, r3)
            | None => invalid
            end
        | None => invalid
        end
    | None => invalid
    end
  else invalid.

(** The value of a hexadecimal digit, and [getu4] on four of them. *)
Definition hexValue (c : ascii) : Z :=
  if isDigit c then code c - 48
  else if 97 <=? code c then code c - 87
  else code c - 55.

Definition getu4 (h1 h2 h3 h4 : ascii) : Z :=
  hexValue h1 * 4096 + hexValue h2 * 256 + hexValue h3 * 16 + hexValue h4.

(** [utf16.IsSurrogate] and [utf16.DecodeRune] *)
Definition IsSurrogate (r : Z) : bool := (55296 <=? r) && (r <? 57344).

Definition utf16_DecodeRune (r1 r2 : Z) : Z :=
  if (55296 <=? r1) && (r1 <? 56320) && (56320 <=? r2) && (r2 <? 57344)
  then Z.shiftl (r1 - 55296) 10 + (r2 - 56320) + 65536
  else RuneError.

(** [unquoteBytes] on the bytes between the quotes of a string that the
    scanner has accepted, as the runes of its result: escapes are resolved,
    a well-formed pair of surrogate escapes is one rune, a surrogate escape
    without its partner is U+FFFD, and so is every byte that is not
    well-formed UTF-8.  [n] bounds the number of runes by that of the
    bytes. *)
Fixpoint unquote (n : nat) (s : string) : list Z :=
  match n with
  | O => []
  | S n =>
      match s with
      | EmptyString => []
      | String "\" (String "u" (String h1 (String h2 (String h3 (String h4 r))))) =>
          let rr := getu4 h1 h2 h3 h4 in
          if IsSurrogate rr then
            match r with
            | String "\" (String "u" (String g1 (String g2 (String g3 (String g4 r'))))) =>
                let dec := utf16_DecodeRune rr (getu4 g1 g2 g3 g4) in
                if dec =? RuneError then RuneError :: unquote n r
                else dec :: unquote n r'
            | _ => RuneError :: unquote n r
            end
          else rr :: unquote n r
      | String "\" (String e r) =>
          (if Ascii.eqb e "b" then 8
           else if Ascii.eqb e "f" then 12
           else if Ascii.eqb e "n" then 10
           else if Ascii.eqb e "r" then 13
           else if Ascii.eqb e "t" then 9
           else code e) :: unquote n r
      | String c r =>
          if code c <? 128 then code c :: unquote n r
          else let '(rr, r) := DecodeRune c r in rr :: unquote n r
      end
  end.

(** [foldName] on one rune, for the fold sets that hold an ASCII character:
    a letter and its other case, with U+017F beside [s] and U+212A beside
    [k].  No other rune folds to an ASCII character. *)
Definition foldRune (r : Z) : Z :=
  if (97 <=? r) && (r <=? 122) then r - 32
  else if r =? 383 then 83
  else if r =? 8490 then 75
  else r.

(** Whether a key names the field tagged [name], a name of ASCII characters:
    the name itself, or one equal to it under [foldName]. *)
Definition namesField (name key : string) : bool :=
  bool_decide (List.map foldRune (unquote (String.length key) key)
               = List.map (fun c => foldRune (code c)) (list_ascii_of_string name)).

(** ** The decoder: the field [Version int] *)

(** [*SyntaxError] and [*UnmarshalTypeError], the latter by the kind of the
    value that does not fit. *)
Definition SyntaxError : error := New (ErrHost "json: syntax error").
Definition UnmarshalTypeError (what : string) : error :=
  New (ErrHost ("json: cannot unmarshal " +:+ what)).

(** [strconv.ParseInt(item, 10, 64)] on a number literal of JSON: its value
    when it has neither fraction nor exponent and an int64 holds it. *)
Definition ParseInt (literal : string) : option Z :=
  match NilEmpty.int_of_string literal with
  | Some i =>
      let n := Z.of_int i in
      if (- 2 ^ 63 <=? n) && (n <? 2 ^ 63) then Some n else None
  | None => None
  end.

(** [d.value(subv)] for a field of kind int: the field afterwards and the
    error to save.  Null leaves the field as it is. *)
Definition storeInt (v : value) (old : Z) : Z * option error :=
  match v with
  | Null => (old, None)
  | Number literal =>
      match ParseInt literal with
      | Some n => (n, None)
      | None => (old, Some (UnmarshalTypeError ("number " +:+ literal)))
      end
  | Bool _ => (old, Some (UnmarshalTypeError "bool"))
  | Str _ => (old, Some (UnmarshalTypeError "string"))
  | Array _ => (old, Some (UnmarshalTypeError "array"))
  | Object _ => (old, Some (UnmarshalTypeError "object"))
  end.

(** The loop of [d.object] over the members, for a struct whose one field is
    tagged [name]: a key that names no field is passed over with its value;
    of the errors the first is saved, and the walk goes on. *)
Fixpoint storeMembers (name : string) (members : list (string * value)) (old : Z)
    (saved : option error) : Z * option error :=
  match members with
  | [] => (old, saved)
  | (key, v) :: members =>
      if namesField name key then
        let '(new, err) := storeInt v old in
        storeMembers name members new
          (match saved with Some e => Some e | None => err end)
      else storeMembers name members old saved
  end.

(** [json.Unmarshal(data, &partial)] *)
Definition Unmarshal (data : bytes) (partial : Session.versionProbe)
  : result Session.versionProbe :=
  match checkValid data with
  | None => Err SyntaxError
  | Some (Object members) =>
      match storeMembers "$version" members (Session.probeVersion partial) None with
      | (n, None) => Ok {| Session.probeVersion := n |}
      | (_, Some e) => Err e
      end
  | Some Null => Ok partial
  | Some (Bool _) => Err (UnmarshalTypeError "bool")
  | Some (Number _) => Err (UnmarshalTypeError "number")
  | Some (Str _) => Err (UnmarshalTypeError "string")
  | Some (Array _) => Err (UnmarshalTypeError "array")
  end.

(** [json.Marshal(partial)] *)
Definition Marshal (partial : Session.versionProbe) : result bytes :=
  Ok (list_byte_of_string
        ("{" +:+ String "034" ("$version" +:+ String "034" ":")
         +:+ Sprintf_d (Session.probeVersion partial) +:+ "}")).

#[export] Instance probe : Json Session.versionProbe := {|
  json_Marshal := Marshal;
  json_Unmarshal := Unmarshal
|}.

End JSON.

(** * A connection under observation *)

(** The tests of the client read what it sends from the other end of a
    [net.Pipe].  [taped] does the same for any connection: it keeps, in
    order, the byte strings handed to [Write]. *)
Module Tape.
Import Discord.

Record taped (Conn : Type) : Type := { line : Conn; tape : list bytes }.
Arguments line {Conn}.
Arguments tape {Conn}.

#[export] Instance taped_conn {Conn : Type} `{NetConn Conn} : NetConn (taped Conn) := {|
  conn_Write k data :=
    let '(l, err) := conn_Write (line k) data in
    ({| line := l; tape := tape k ++ [data] |}, err);
  conn_Close k := conn_Close (line k)
|}.

Section Tape.
Context {Conn : Type} `{NetConn Conn} `{Json Command}.

(** What one command adds to the tape of the connection it is sent on. *)
Definition heard (c : Client (taped Conn)) (name : string) (a : Args) : list bytes :=
  match conn c, conn (fst (sendCommand c name a)) with
  | Some k, Some k' => skipn (List.length (tape k)) (tape k')
  | _, _ => []
  end.

(** What the commands of a history add to the tapes, in order. *)
Fixpoint transcript (c : Client (taped Conn)) (evs : list (event (taped Conn)))
  : list bytes :=
  match evs with
  | [] => []
  | ev :: evs =>
      match ev with
      | Send name a => heard c name a
      | SetConn _ => []
      end ++ transcript (step c ev) evs
  end.

(** The number of commands of a history that pass the connection check. *)
Fixpoint passed (c : Client (taped Conn)) (evs : list (event (taped Conn))) : Z :=
  match evs with
  | [] => 0
  | ev :: evs =>
      match ev, conn c with
      | Send _ _, Some _ => 1
      | _, _ => 0
      end + passed (step c ev) evs
  end.
End Tape.

End Tape.

(** * Stand-ins for the standard library *)

(** The theorems below hold for every [net.Conn] and every JSON codec.  To
    evaluate them at concrete inputs this module provides one of each: a pipe
    that records what is written to it until the peer goes away, and a codec
    for the command object. *)
Module Doubles.

Record pipe : Set := { written : bytes; peer_gone : bool }.

#[export] Instance pipe_conn : NetConn pipe := {|
  conn_Write k data :=
    if peer_gone k then (k, Some (New (ErrHost "write: broken pipe")))
    else ({| written := written k ++ data; peer_gone := false |}, None);
  conn_Close k := None
|}.

Definition quoted (s : string) : string := String "034" (s +:+ String "034" "").

Definition command_json (c : Discord.Command) : string :=
  "{" +:+ quoted "cmd" +:+ ":" +:+ quoted (Discord.cmd c)
  +:+ "," +:+ quoted "args" +:+ ":{" +:+ quoted "pid" +:+ ":"
  +:+ Sprintf_d (Discord.pid (Discord.args c))
  +:+ "}," +:+ quoted "nonce" +:+ ":" +:+ quoted (Discord.nonce_ c) +:+ "}".

#[export] Instance command_codec : Json Discord.Command := {|
  json_Marshal c := Ok (list_byte_of_string (command_json c));
  json_Unmarshal data c := Err (New (ErrHost "json: not decoded here"))
|}.

(** A decoder for flat JSON objects without white space or escapes: string,
    integer, boolean and null members, which is what the state files in the
    tests of the repository contain. *)
Inductive jvalue : Set :=
  | JString (s : string)
  | JNumber (z : Z)
  | JBool (b : bool)
  | JNull.

Definition is_digit (c : ascii) : bool :=
  let n := nat_of_ascii c in ((48 <=? n) && (n <=? 57))%nat.

Definition not_quote (c : ascii) : bool := negb (Ascii.eqb c "034").

(** A quoted string at the start of [s]: its content and what follows. *)
Definition take_string (s : string) : option (string * string) :=
  match s with
  | String "034" r =>
      match Session.span not_quote r with
      | (content, String "034" r') => Some (content, r')
      | _ => None
      end
  | _ => None
  end.

Definition take_number (s : string) : option (jvalue * string) :=
  let '(sign, r) :=
    match s with String "-" r => ("-", r) | _ => ("", s) end in
  match Session.span is_digit r with
  | (String d ds, r') =>
      match NilEmpty.int_of_string (sign +:+ String d ds) with
      | Some i => Some (JNumber (Z.of_int i), r')
      | None => None
      end
  | _ => None
  end.

Definition take_value (s : string) : option (jvalue * string) :=
  match take_string s with
  | Some (content, r) => Some (JString content, r)
  | None =>
      if String.prefix "true" s then Some (JBool true, String.substring 4 (String.length s - 4) s)
      else if String.prefix "false" s then Some (JBool false, String.substring 5 (String.length s - 5) s)
      else if String.prefix "null" s then Some (JNull, String.substring 4 (String.length s - 4) s)
      else take_number s
  end.

Fixpoint take_members (fuel : nat) (s : string) : option (list (string * jvalue)) :=
  match fuel with
  | O => None
  | S fuel =>
      match take_string s with
      | Some (key, String ":" r) =>
          match take_value r with
          | Some (v, String "}" EmptyString) => Some [(key, v)]
          | Some (v, String "," r') =>
              match take_members fuel r' with
              | Some ms => Some ((key, v) :: ms)
              | None => None
              end
          | _ => None
          end
      | _ => None
      end
  end.

Definition parse_object (data : bytes) : option (list (string * jvalue)) :=
  match string_of_list_byte data with
  | String "{" (String "}" EmptyString) => Some []
  | String "{" r => take_members (String.length r) r
  | _ => None
  end.

(** The last member called [key], as [encoding/json] lets a later duplicate
    win. *)
Definition member (key : string) (ms : list (string * jvalue)) : option jvalue :=
  match List.find (fun m => String.eqb (fst m) key) (rev ms) with
  | Some m => Some (snd m)
  | None => None
  end.

Inductive kind : Set := KString | KNumber | KBool.

Definition fits (k : kind) (v : option jvalue) : bool :=
  match v, k with
  | None, _ | Some JNull, _ => true
  | Some (JString _), KString | Some (JNumber _), KNumber | Some (JBool _), KBool => true
  | _, _ => false
  end.

Definition get_string (ms : list (string * jvalue)) (key : string) (old : string) : string :=
  match member key ms with Some (JString s) => s | _ => old end.
Definition get_number (ms : list (string * jvalue)) (key : string) (old : Z) : Z :=
  match member key ms with Some (JNumber z) => z | _ => old end.
Definition get_bool (ms : list (string * jvalue)) (key : string) (old : bool) : bool :=
  match member key ms with Some (JBool b) => b | _ => old end.

Definition state_fields : list (string * kind) :=
  [("$version", KNumber); ("sessionId", KString); ("sessionStart", KNumber);
   ("lastActivity", KNumber); ("project", KString); ("branch", KString);
   ("cwd", KString); ("gitRemoteUrl", KString); ("client", KString);
   ("stopped", KBool); ("toolName", KString); ("toolTarget", KString);
   ("activeFile", KString); ("agentState", KString); ("permissionMode", KString);
   ("hookEvent", KString)].

Definition decode_state (data : bytes) (s : Session.State) : result Session.State :=
  match parse_object data with
  | None => Err (New (ErrHost "json: invalid character"))
  | Some ms =>
      if forallb (fun f => fits (snd f) (member (fst f) ms)) state_fields then
        Ok {| Session.Version := get_number ms "$version" (Session.Version s);
              Session.SessionID := get_string ms "sessionId" (Session.SessionID s);
              Session.SessionStart := get_number ms "sessionStart" (Session.SessionStart s);
              Session.LastActivity := get_number ms "lastActivity" (Session.LastActivity s);
              Session.Project := get_string ms "project" (Session.Project s);
              Session.Branch := get_string ms "branch" (Session.Branch s);
              Session.CWD := get_string ms "cwd" (Session.CWD s);
              Session.GitRemoteURL := get_string ms "gitRemoteUrl" (Session.GitRemoteURL s);
              Session.Client := get_string ms "client" (Session.Client s);
              Session.Stopped := get_bool ms "stopped" (Session.Stopped s);
              Session.ToolName := get_string ms "toolName" (Session.ToolName s);
              Session.ToolTarget := get_string ms "toolTarget" (Session.ToolTarget s);
              Session.ActiveFile := get_string ms "activeFile" (Session.ActiveFile s);
              Session.AgentState := get_string ms "agentState" (Session.AgentState s);
              Session.PermissionMode :=
                get_string ms "permissionMode" (Session.PermissionMode s);
              Session.HookEvent := get_string ms "hookEvent" (Session.HookEvent s) |}
      else Err (New (ErrHost "json: cannot unmarshal into Go struct field"))
  end.

Definition json_string (key value : string) : string :=
  quoted key +:+ ":" +:+ quoted value.
Definition json_number (key : string) (value : Z) : string :=
  quoted key +:+ ":" +:+ Sprintf_d value.
Definition json_bool (key : string) (value : bool) : string :=
  quoted key +:+ ":" +:+ (if value then "true" else "false").
Definition omitempty (key value : string) : list string :=
  if String.eqb value "" then [] else [json_string key value].

Definition encode_state (s : Session.State) : bytes :=
  list_byte_of_string
    ("{" +:+ String.concat ","
       ([json_number "$version" (Session.Version s);
         json_string "sessionId" (Session.SessionID s);
         json_number "sessionStart" (Session.SessionStart s);
         json_number "lastActivity" (Session.LastActivity s);
         json_string "project" (Session.Project s);
         json_string "branch" (Session.Branch s);
         json_string "cwd" (Session.CWD s);
         json_string "gitRemoteUrl" (Session.GitRemoteURL s);
         json_string "client" (Session.Client s);
         json_bool "stopped" (Session.Stopped s)]
        ++ omitempty "toolName" (Session.ToolName s)
        ++ omitempty "toolTarget" (Session.ToolTarget s)
        ++ omitempty "activeFile" (Session.ActiveFile s)
        ++ omitempty "agentState" (Session.AgentState s)
        ++ omitempty "permissionMode" (Session.PermissionMode s)
        ++ omitempty "hookEvent" (Session.HookEvent s))
     +:+ "}").

#[export] Instance state_codec : Json Session.State := {|
  json_Marshal s := Ok (encode_state s);
  json_Unmarshal := decode_state
|}.

(** Formatters that print their argument as it is, and a pattern match by
    equality. *)
#[export] Instance plain_helpers : Session.Helpers := {|
  Session.config_FormatModelName model format := model;
  Session.config_ClientDisplayName id := id;
  Session.FormatTokenCount n format := Sprintf_d n;
  Session.formatFloat cost format := "0.00";
  Session.filepath_Match pattern name := Ok (String.eqb pattern name);
  Session.filepath_Base path := path;
  Session.filepath_Dir path := path;
  Session.filepath_Ext path := path;
  Session.parseGitRemote url := ("", "")
|}.

(** A file system holding the given files, on which nothing fails, and an
    empty log. *)
Definition disk (l : list (string * string)) : OS.world :=
  {| OS.files := list_to_map (List.map (fun f => (fst f, list_byte_of_string (snd f))) l);
     OS.faulty := fun _ _ => false;
     OS.logged := [] |}.

End Doubles.

(** * A double of the socket to Discord *)

Module Peer.
Import Discord Lifecycle Doubles.

(** The client's end of a socket: what it has written, and what Discord has
    sent and the client has not read yet. *)
Record duplex : Type := { sent : bytes; unread : reader }.

#[export] Instance duplex_conn : NetConn duplex := {|
  conn_Write k data := ({| sent := sent k ++ data; unread := unread k |}, None);
  conn_Close k := None
|}.

#[export] Instance duplex_read : NetConnRead duplex := {|
  conn_incoming := unread;
  conn_left k r := {| sent := sent k; unread := r |}
|}.

(** [encoding/json] writes the keys of a map in their order. *)
Definition handshake_json (h : Handshake) : string :=
  "{" +:+ quoted "client_id" +:+ ":" +:+ quoted (client_id h)
  +:+ "," +:+ quoted "v" +:+ ":" +:+ Sprintf_d (v h) +:+ "}".

#[export] Instance handshake_codec : Json Handshake := {|
  json_Marshal h := Ok (list_byte_of_string (handshake_json h));
  json_Unmarshal data h := Err (New (ErrHost "json: not decoded here"))
|}.

(** A member of a flat object as [json.Unmarshal] stores it in an [any];
    the responses used here hold no numbers. *)
Definition any_of (value : jvalue) : option any :=
  match value with
  | JString s => Some (AnyString s)
  | JBool b => Some (AnyBool b)
  | JNull => Some AnyNil
  | JNumber _ => None
  end.

Fixpoint store_members (ms : list (string * jvalue)) (m : gmap string any)
  : option (gmap string any) :=
  match ms with
  | [] => Some m
  | (key, value) :: ms =>
      match any_of value with
      | Some a => store_members ms (<[key := a]> m)
      | None => None
      end
  end.

#[export] Instance response_codec : Json (gmap string any) := {|
  json_Marshal m := Err (New (ErrHost "json: not encoded here"));
  json_Unmarshal data m :=
    match parse_object data with
    | Some ms =>
        match store_members ms m with
        | Some m => Ok m
        | None => Err (New (ErrHost "json: not decoded here"))
        end
    | None => Err (New (ErrHost "invalid character"))
    end
|}.

(** Discord's answer to a handshake that it accepts, cut down to a flat
    object. *)
Definition ready : bytes :=
  list_byte_of_string
    ("{" +:+ quoted "cmd" +:+ ":" +:+ quoted "DISPATCH" +:+ ","
     +:+ quoted "evt" +:+ ":" +:+ quoted "READY" +:+ ","
     +:+ quoted "nonce" +:+ ":null}").

(** A socket on which the answer waits. *)
Definition answering : duplex :=
  {| sent := [];
     unread := match EncodeFrame OpFrame ready with
               | inr frame => [frame]
               | inl _ => []
               end |}.

(** Discord starts while the daemon is trying: the first [late] calls of
    [connectToDiscord] find no socket. *)
Definition starting (late : Z) (attempt : Z) : result duplex :=
  if attempt <? late then Err (New ErrIPCNotAvailable) else Ok answering.

End Peer.

(** * Properties *)

Lemma len_nonneg {A} (l : list A) : 0 <= len l.
Proof. unfold len. lia. Qed.

(** ** The frame codec *)

Module FrameFacts.
Import Discord.

Lemma MaxPayloadSize_value : MaxPayloadSize = 1048576.
Proof. reflexivity. Qed.

Lemma PutUint32_length v : List.length (PutUint32 v) = 4%nat.
Proof. reflexivity. Qed.

Lemma PutUint32_le_split v : PutUint32 v = le_split 4 v.
Proof.
  unfold PutUint32. cbv [LittleEndianList.le_split].
  rewrite !Z.shiftr_shiftr by lia. reflexivity.
Qed.

Lemma Uint32_le_combine b0 b1 b2 b3 tl :
  Uint32 (b0 :: b1 :: b2 :: b3 :: tl) = Some (le_combine [b0; b1; b2; b3]).
Proof.
  cbv [Uint32 LittleEndianList.le_combine]. f_equal.
  rewrite !Z.shiftl_lor, !Z.shiftl_shiftl, Z.shiftl_0_l, Z.lor_0_r by lia.
  rewrite !Z.lor_assoc. reflexivity.
Qed.

(** Reading back the four bytes that were stored gives the value stored. *)
Lemma Uint32_PutUint32 v tl :
  0 <= v < 2 ^ 32 -> Uint32 (PutUint32 v ++ tl) = Some v.
Proof.
  intros Hv.
  change (PutUint32 v ++ tl)
    with (byte.of_Z v :: byte.of_Z (Z.shiftr v 8) :: byte.of_Z (Z.shiftr v 16)
          :: byte.of_Z (Z.shiftr v 24) :: tl).
  rewrite Uint32_le_combine.
  change [byte.of_Z v; byte.of_Z (Z.shiftr v 8); byte.of_Z (Z.shiftr v 16);
          byte.of_Z (Z.shiftr v 24)] with (PutUint32 v).
  rewrite PutUint32_le_split, le_combine_split.
  f_equal. apply Z.mod_small. simpl. lia.
Qed.

(** [io.ReadFull] on a stream that still holds [n] bytes delivers exactly the
    next [n] bytes, however the stream is chunked, and leaves the rest. *)
Lemma ReadFull_from_enough (r : reader) : forall (got : bytes) (n : nat),
  (n <= List.length (concat r))%nat ->
  exists r', ReadFull_from got n r = (Ok (got ++ firstn n (concat r)), r')
             /\ concat r' = skipn n (concat r).
Proof.
  induction r as [|chunk r IH]; intros got n Hn.
  - cbn in Hn. assert (n = 0%nat) as -> by lia.
    exists []. cbn. rewrite app_nil_r. auto.
  - destruct n as [|m].
    + exists (chunk :: r). cbn. rewrite app_nil_r. auto.
    + cbn [ReadFull_from concat].
      destruct (Nat.leb_spec (List.length chunk) (S m)) as [Hle|Hgt].
      * change (concat (chunk :: r)) with (chunk ++ concat r) in Hn.
        rewrite length_app in Hn.
        assert (Hk : (S m - List.length chunk <= List.length (concat r))%nat) by lia.
        destruct (IH (got ++ chunk) _ Hk) as (r' & Hr & Hc).
        exists r'. split.
        -- rewrite Hr. f_equal. rewrite firstn_app.
           rewrite (firstn_all2 (n := S m) chunk) by lia.
           rewrite <- app_assoc. reflexivity.
        -- rewrite Hc, skipn_app.
           rewrite (skipn_all2 (n := S m) chunk) by lia. reflexivity.
      * exists (skipn (S m) chunk :: r). split.
        -- f_equal. f_equal. rewrite firstn_app.
           replace (S m - List.length chunk)%nat with 0%nat by lia.
           rewrite firstn_O, app_nil_r. reflexivity.
        -- cbn [concat]. rewrite skipn_app.
           replace (S m - List.length chunk)%nat with 0%nat by lia.
           reflexivity.
Qed.

Lemma ReadFull_enough (r : reader) (n : nat) :
  (n <= List.length (concat r))%nat ->
  exists r', ReadFull r n = (Ok (firstn n (concat r)), r')
             /\ concat r' = skipn n (concat r).
Proof. intros Hn. apply (ReadFull_from_enough r [] n Hn). Qed.

(** The stream [a ++ b] read for [length a] bytes. *)
Lemma ReadFull_app (r : reader) (a b : bytes) :
  concat r = a ++ b ->
  exists r', ReadFull r (List.length a) = (Ok a, r') /\ concat r' = b.
Proof.
  intros Hr.
  destruct (ReadFull_enough r (List.length a)) as (r' & H1 & H2).
  { rewrite Hr, length_app. lia. }
  exists r'. rewrite H1, H2, Hr.
  rewrite firstn_app, Nat.sub_diag, firstn_all, firstn_O, app_nil_r.
  rewrite skipn_app, Nat.sub_diag, skipn_all. auto.
Qed.

(** A decode of a stream that opens with an eight-byte header. *)
Lemma DecodeFrame_header (r : reader) (o n : Z) (tl : bytes) :
  0 <= o < 2 ^ 32 -> 0 <= n < 2 ^ 32 ->
  concat r = (PutUint32 o ++ PutUint32 n) ++ tl ->
  exists r1, concat r1 = tl /\
    DecodeFrame r =
      if n >? MaxPayloadSize then
        (Err (Errorf "%w: %d bytes (max %d)" [n; MaxPayloadSize] (New ErrPayloadTooLarge)),
         Decoding r1 [frameHeaderSize])
      else
        match ReadFull r1 (Z.to_nat n) with
        | (inl e, r2) =>
            (Err (Errorf "reading frame payload: %w" [] e),
             Decoding r2 [frameHeaderSize; n])
        | (inr payload, r2) => (Ok (o, payload), Decoding r2 [frameHeaderSize; n])
        end.
Proof.
  intros Ho Hn Hr.
  destruct (ReadFull_app r _ tl Hr) as (r1 & Hread & Hrest).
  exists r1. split; [exact Hrest|].
  unfold DecodeFrame.
  change (Z.to_nat frameHeaderSize) with (List.length (PutUint32 o ++ PutUint32 n)).
  rewrite Hread. unfold Ok at 1. cbv beta iota.
  change (firstn 4 (PutUint32 o ++ PutUint32 n)) with (PutUint32 o ++ []).
  change (firstn 4 (skipn 4 (PutUint32 o ++ PutUint32 n))) with (PutUint32 n ++ []).
  rewrite !Uint32_PutUint32 by assumption. reflexivity.
Qed.

(** A decode of a stream whose first eight bytes declare more than the
    maximum: the error wraps [ErrPayloadTooLarge], the header buffer is the
    only allocation and the stream behind the header is untouched. *)
Lemma DecodeFrame_declared_too_large (r : reader) (hdr more : bytes) (n : Z) :
  List.length hdr = 8%nat ->
  Uint32 (firstn 4 (skipn 4 hdr)) = Some n ->
  n > MaxPayloadSize ->
  concat r = hdr ++ more ->
  exists r',
    DecodeFrame r =
      (Err (Errorf "%w: %d bytes (max %d)" [n; MaxPayloadSize] (New ErrPayloadTooLarge)),
       Decoding r' [frameHeaderSize])
    /\ concat r' = more.
Proof.
  intros Hlen Hn Hbig Hr.
  destruct (ReadFull_app r hdr more Hr) as (r' & Hread & Hrest).
  exists r'. split; [|exact Hrest].
  unfold DecodeFrame.
  change (Z.to_nat frameHeaderSize) with 8%nat. rewrite <- Hlen, Hread.
  unfold Ok at 1. cbv beta iota. rewrite Hn.
  destruct hdr as [|b0 [|b1 [|b2 [|b3 tl]]]]; try discriminate Hlen.
  change (firstn 4 (b0 :: b1 :: b2 :: b3 :: tl)) with [b0; b1; b2; b3].
  rewrite (Uint32_le_combine b0 b1 b2 b3 []).
  destruct (Z.gtb_spec n MaxPayloadSize) as [_|Hle]; [reflexivity|lia].
Qed.

(** C1. Frame round trip: for every opcode that is a uint32 value (0, 1, 2 or
    any other) and every payload of at most [MaxPayloadSize] (1 MiB) bytes,
    [EncodeFrame] succeeds, and [DecodeFrame] on a reader over the encoded
    bytes, however the reader chunks them and whatever follows them, returns
    exactly that opcode and that payload with no error, leaving what follows
    unread.  No opcode value is rejected. *)
Theorem frame_round_trip (o : Opcode) (p : bytes) :
  0 <= o < 2 ^ 32 ->
  len p <= MaxPayloadSize ->
  exists frame,
    EncodeFrame o p = Ok frame
    /\ forall (r : reader) (more : bytes),
         concat r = frame ++ more ->
         exists r',
           DecodeFrame r = (Ok (o, p), Decoding r' [frameHeaderSize; len p])
           /\ concat r' = more.
Proof.
  intros Ho Hp.
  pose proof (len_nonneg p) as Hp0. rewrite MaxPayloadSize_value in Hp.
  exists (PutUint32 o ++ PutUint32 (len p) ++ p). split.
  - unfold EncodeFrame.
    destruct (Z.gtb_spec (len p) MaxPayloadSize) as [Hgt|_].
    { rewrite MaxPayloadSize_value in Hgt. lia. }
    unfold uint32. rewrite !Z.mod_small by lia. reflexivity.
  - intros r more Hr.
    assert (Hn : 0 <= len p < 2 ^ 32) by lia.
    destruct (DecodeFrame_header r o (len p) (p ++ more) Ho Hn) as (r1 & Hr1 & Hd).
    { rewrite Hr, <- !app_assoc. reflexivity. }
    destruct (Z.gtb_spec (len p) MaxPayloadSize) as [Hgt|_].
    { rewrite MaxPayloadSize_value in Hgt. lia. }
    unfold len in Hd at 1. rewrite Nat2Z.id in Hd.
    destruct (ReadFull_app r1 p more Hr1) as (r2 & Hread & Hrest).
    rewrite Hread in Hd. exists r2. split; [exact Hd|exact Hrest].
Qed.

(** The round trip of the three-byte payload [01 02 03] under opcode 7. *)
Lemma frame_round_trip_witness :
  exists frame,
    EncodeFrame 7 [Byte.x01; Byte.x02; Byte.x03] = Ok frame
    /\ forall (r : reader) (more : bytes),
         concat r = frame ++ more ->
         exists r',
           DecodeFrame r =
             (Ok (7, [Byte.x01; Byte.x02; Byte.x03]),
              Decoding r' [frameHeaderSize; len [Byte.x01; Byte.x02; Byte.x03]])
           /\ concat r' = more.
Proof.
  apply (frame_round_trip 7 [Byte.x01; Byte.x02; Byte.x03]).
  - lia.
  - vm_compute. discriminate.
Defined.

(** C2. Oversize frames: [EncodeFrame] returns an error for every payload
    longer than [MaxPayloadSize] (1 MiB) and succeeds for a payload of exactly
    that length; [DecodeFrame] returns an error for every eight-byte header
    whose length field declares more than [MaxPayloadSize], having allocated
    the header buffer only and read nothing behind the header; both errors
    match [ErrPayloadTooLarge] under [errors.Is]. *)
Theorem frame_oversize_rejected (o : Opcode) (big edge : bytes)
    (r : reader) (hdr more : bytes) (n : Z) :
  len big > MaxPayloadSize ->
  len edge = MaxPayloadSize ->
  List.length hdr = 8%nat ->
  Uint32 (firstn 4 (skipn 4 hdr)) = Some n ->
  n > MaxPayloadSize ->
  concat r = hdr ++ more ->
  (exists e, EncodeFrame o big = Err e /\ errors_Is e ErrPayloadTooLarge = true)
  /\ (exists frame, EncodeFrame o edge = Ok frame)
  /\ (exists e r',
        DecodeFrame r = (Err e, Decoding r' [frameHeaderSize])
        /\ concat r' = more
        /\ errors_Is e ErrPayloadTooLarge = true).
Proof.
  intros Hbig Hedge Hlen Hn Hdecl Hr. split; [|split].
  - eexists. split.
    + unfold EncodeFrame.
      destruct (Z.gtb_spec (len big) MaxPayloadSize) as [_|Hle]; [|lia].
      reflexivity.
    + reflexivity.
  - eexists. unfold EncodeFrame.
    destruct (Z.gtb_spec (len edge) MaxPayloadSize) as [Hgt|_]; [lia|].
    reflexivity.
  - destruct (DecodeFrame_declared_too_large r hdr more n Hlen Hn Hdecl Hr)
      as (r' & Hd & Hrest).
    eexists. exists r'. split; [exact Hd|]. split; [exact Hrest|reflexivity].
Qed.

(** Payloads of 1 MiB + 1 and of 1 MiB zero bytes, and the header of opcode 1
    declaring 1 MiB + 1 bytes, followed by two bytes of payload. *)
Lemma frame_oversize_rejected_witness :
  (exists e, EncodeFrame 1 (repeat Byte.x00 (Z.to_nat 1048577)) = Err e
             /\ errors_Is e ErrPayloadTooLarge = true)
  /\ (exists frame, EncodeFrame 1 (repeat Byte.x00 (Z.to_nat 1048576)) = Ok frame)
  /\ (exists e r',
        DecodeFrame [PutUint32 1; PutUint32 1048577 ++ [Byte.xaa; Byte.xbb]]
          = (Err e, Decoding r' [frameHeaderSize])
        /\ concat r' = [Byte.xaa; Byte.xbb]
        /\ errors_Is e ErrPayloadTooLarge = true).
Proof.
  apply (frame_oversize_rejected 1 _ _ _ (PutUint32 1 ++ PutUint32 1048577)
           [Byte.xaa; Byte.xbb] 1048577).
  - unfold len. rewrite repeat_length, Z2Nat.id by lia. reflexivity.
  - unfold len. rewrite repeat_length, Z2Nat.id by lia. reflexivity.
  - reflexivity.
  - vm_compute. reflexivity.
  - reflexivity.
  - reflexivity.
Defined.

End FrameFacts.

(** ** The watcher's event channel *)

Module WatcherFacts.
Import Session.

Lemma NewDirWatcher_events native dir : events (NewDirWatcher native dir) = make_chan 1.
Proof. reflexivity. Qed.

Lemma NewWatcher_events native file : events (NewWatcher native file) = make_chan 1.
Proof. reflexivity. Qed.

Lemma notify_cap w : cap (events (fst (notify w))) = cap (events w).
Proof.
  unfold notify, select_send_default.
  destruct (queued (events w) <? cap (events w))%nat; reflexivity.
Qed.

(** One [notify] on a one-slot channel: it fills the slot when it is free and
    is dropped when it is taken; it never blocks. *)
Lemma notify_one_slot w :
  cap (events w) = 1%nat -> (queued (events w) <= 1)%nat ->
  queued (events (fst (notify w))) = 1%nat
  /\ snd (notify w) = (if (queued (events w) =? 0)%nat then Delivered else Dropped).
Proof.
  intros Hc Hq. unfold notify, select_send_default. rewrite Hc.
  destruct (queued (events w)) as [|[|k]] eqn:E; cbn; try lia; auto.
Qed.

Lemma notify_times_length n : forall w, List.length (snd (notify_times n w)) = n.
Proof.
  induction n as [|n IH]; intros w; cbn; [reflexivity|].
  destruct (notify w) as [w1 r] eqn:E1.
  specialize (IH w1). destruct (notify_times n w1) as [w2 rs]. cbn in *. lia.
Qed.

Lemma notify_times_one_slot n : forall w,
  cap (events w) = 1%nat -> (queued (events w) <= 1)%nat ->
  Forall (fun r => r = Delivered \/ r = Dropped) (snd (notify_times n w))
  /\ cap (events (fst (notify_times n w))) = 1%nat
  /\ (queued (events (fst (notify_times n w))) <= 1)%nat
  /\ ((1 <= n)%nat -> queued (events (fst (notify_times n w))) = 1%nat).
Proof.
  induction n as [|n IH]; intros w Hc Hq.
  - cbn. repeat split; auto. lia.
  - cbn [notify_times].
    destruct (notify_one_slot w Hc Hq) as [Hq1 Hr].
    pose proof (notify_cap w) as Hc1.
    destruct (notify w) as [w1 r] eqn:E1. cbn [fst snd] in *.
    rewrite Hc in Hc1.
    destruct (IH w1 Hc1 ltac:(lia)) as (Hall & Hc2 & Hq2 & Hq3).
    destruct (notify_times n w1) as [w2 rs] eqn:E2. cbn [fst snd] in *.
    repeat split; auto.
    + constructor; [|exact Hall].
      rewrite Hr. destruct (queued (events w) =? 0)%nat; auto.
    + intros _. destruct n as [|n'].
      * cbn in E2. injection E2 as <- <-. exact Hq1.
      * apply Hq3. lia.
Qed.

(** A receive takes the pending signal off the channel. *)
Lemma receive_one_slot ch ch' :
  receive ch = Some ch' -> cap ch' = cap ch /\ S (queued ch') = queued ch.
Proof.
  unfold receive. destruct (queued ch) eqn:E; [discriminate|].
  intros [= <-]. cbn. auto.
Qed.

(** What the producers and the consumer do to the channel, in any order. *)
Inductive channel_op : Set := Notify | Receive.

Definition apply_op (w : Watcher) (op : channel_op) : Watcher :=
  match op with
  | Notify => fst (notify w)
  | Receive =>
      match receive (events w) with
      | Some ch => {| path := path w; events := ch; done_closed := done_closed w;
                      polling := polling w; pollIntervalSeconds := pollIntervalSeconds w |}
      | None => w
      end
  end.

(** However notifications and receives interleave, at most one signal is
    pending. *)
Lemma at_most_one_pending (ops : list channel_op) : forall w,
  cap (events w) = 1%nat -> (queued (events w) <= 1)%nat ->
  cap (events (fold_left apply_op ops w)) = 1%nat
  /\ (queued (events (fold_left apply_op ops w)) <= 1)%nat.
Proof.
  induction ops as [|op ops IH]; intros w Hc Hq; [auto|].
  cbn [fold_left]. apply IH.
  - destruct op; cbn [apply_op].
    + rewrite notify_cap. exact Hc.
    + destruct (receive (events w)) as [ch|] eqn:E; [|exact Hc].
      apply receive_one_slot in E as [E _]. cbn. congruence.
  - destruct op; cbn [apply_op].
    + destruct (notify_one_slot w Hc Hq) as [-> _]. lia.
    + destruct (receive (events w)) as [ch|] eqn:E; [|exact Hq].
      apply receive_one_slot in E as [_ E]. cbn. lia.
Qed.

(** C9. Signal coalescing: the event channel of a watcher is made with one
    slot, and [notify] is a send that is dropped when the slot is taken.  So
    for every watcher whose channel has that one slot and every N >= 1, N
    calls of [notify] in a row, with no receive in between, neither block
    (each send is delivered or dropped) nor leave more than one signal
    pending: exactly one is pending afterwards. *)
Theorem notify_coalesces (native : bool) (dir : string) (w : Watcher) (n : nat) :
  cap (events w) = 1%nat ->
  (queued (events w) <= 1)%nat ->
  (1 <= n)%nat ->
  cap (events (NewDirWatcher native dir)) = 1%nat
  /\ queued (events (NewDirWatcher native dir)) = 0%nat
  /\ List.length (snd (notify_times n w)) = n
  /\ Forall (fun r => r <> Blocked) (snd (notify_times n w))
  /\ queued (events (fst (notify_times n w))) = 1%nat.
Proof.
  intros Hc Hq Hn.
  destruct (notify_times_one_slot n w Hc Hq) as (Hall & _ & _ & Hone).
  repeat split; auto using notify_times_length.
  eapply Forall_impl; [exact Hall|].
  intros r [-> | ->]; discriminate.
Qed.

(** Five notifications in a row on a fresh directory watcher. *)
Lemma notify_coalesces_witness :
  cap (events (NewDirWatcher true "/data")) = 1%nat
  /\ queued (events (NewDirWatcher true "/data")) = 0%nat
  /\ List.length (snd (notify_times 5 (NewDirWatcher true "/data"))) = 5%nat
  /\ Forall (fun r => r <> Blocked) (snd (notify_times 5 (NewDirWatcher true "/data")))
  /\ queued (events (fst (notify_times 5 (NewDirWatcher true "/data")))) = 1%nat.
Proof.
  apply (notify_coalesces true "/data" (NewDirWatcher true "/data") 5).
  - reflexivity.
  - cbn. lia.
  - lia.
Defined.

End WatcherFacts.

(** ** The command path of the client *)

Module ClientFacts.
Import Discord.

Section WithConn.
Context {Conn : Type} `{NetConn Conn} `{Json Command}.
Variable Getpid : Z.

Lemma sendCommand_not_connected (c : Client Conn) name a :
  conn c = None -> sendCommand c name a = (c, Some (New ErrNotConnected)).
Proof. intros Hc. unfold sendCommand. rewrite Hc. reflexivity. Qed.

(** Past the connection check the counter moves on by one, modulo 2^64,
    whatever becomes of the command afterwards, and [conn] stays set. *)
Lemma sendCommand_connected (c : Client Conn) name a k :
  conn c = Some k ->
  nonce (fst (sendCommand c name a)) = uint64 (nonce c + 1)
  /\ is_Some (conn (fst (sendCommand c name a)))
  /\ appID (fst (sendCommand c name a)) = appID c.
Proof.
  intros Hc. unfold sendCommand. rewrite Hc.
  destruct (json_Marshal _) as [e|payload]; [cbn; eauto|].
  destruct (EncodeFrame OpFrame payload) as [e|frame]; [cbn; eauto|].
  destruct (conn_Write k frame) as [k' [e|]]; cbn; eauto.
Qed.

(** What a command that goes through writes: the frame, under [OpFrame], of
    the command object whose nonce is the decimal of the new counter. *)
Lemma sendCommand_written (c : Client Conn) name a k payload frame k' :
  conn c = Some k ->
  json_Marshal {| cmd := name; args := a;
                  nonce_ := FormatUint (uint64 (nonce c + 1)) |} = Ok payload ->
  EncodeFrame OpFrame payload = Ok frame ->
  conn_Write k frame = (k', None) ->
  sendCommand c name a =
    ({| appID := appID c; conn := Some k'; nonce := uint64 (nonce c + 1) |}, None).
Proof.
  intros Hc Hm He Hw. unfold sendCommand. rewrite Hc.
  unfold Ok in *. rewrite Hm, He, Hw. reflexivity.
Qed.

(** One event moves the counter by at most one, and by exactly one for a
    command sent on a connection. *)
Lemma step_nonce (c : Client Conn) ev :
  0 <= nonce c -> nonce c + 1 < 2 ^ 64 ->
  nonce (step c ev) =
    match ev, conn c with
    | Send _ _, Some _ => nonce c + 1
    | _, _ => nonce c
    end.
Proof.
  intros H0' H1. destruct ev as [name a|k]; [|reflexivity].
  cbn [step]. destruct (conn c) as [k|] eqn:Hc.
  - destruct (sendCommand_connected c name a k Hc) as (-> & _ & _).
    unfold uint64. apply Z.mod_small. lia.
  - rewrite sendCommand_not_connected by assumption. reflexivity.
Qed.

(** The counter reaches every value below 2^64: [n] commands in a row on a
    connection leave it [n] higher, and the connection in place. *)
Lemma nonce_after_sends name a : forall (n : nat) (c : Client Conn),
  is_Some (conn c) -> 0 <= nonce c -> nonce c + Z.of_nat n < 2 ^ 64 ->
  is_Some (conn (fold_left step (repeat (Send name a) n) c))
  /\ nonce (fold_left step (repeat (Send name a) n) c) = nonce c + Z.of_nat n.
Proof.
  induction n as [|n IH]; intros c Hk H0' Hb.
  - cbn [repeat fold_left]. split; [assumption|lia].
  - cbn [repeat fold_left].
    destruct Hk as [k Hc].
    destruct (sendCommand_connected c name a k Hc) as (Hn & Hk' & _).
    assert (Hs : nonce (step c (Send name a)) = nonce c + 1).
    { cbn [step]. rewrite Hn. unfold uint64. apply Z.mod_small. lia. }
    destruct (IH (step c (Send name a))) as [Hk'' Hn'']; [exact Hk'|lia|lia|].
    split; [exact Hk''|]. rewrite Hn'', Hs. lia.
Qed.

End WithConn.

(** The decimal tag reads back as the counter value. *)
Lemma FormatUint_reads_back n :
  0 <= n ->
  option_map (fun d => Z.of_N (N.of_uint d)) (NilEmpty.uint_of_string (FormatUint n))
  = Some n.
Proof.
  intros Hn. unfold FormatUint. rewrite NilEmpty.usu. cbn.
  rewrite DecimalN.Unsigned.of_to, Z2N.id by lia. reflexivity.
Qed.

Import Doubles.

(** A client on an open pipe whose counter is two below 2^64. *)
Definition late_client : Client Doubles.pipe :=
  {| appID := "1234";
     conn := Some {| Doubles.written := []; Doubles.peer_gone := false |};
     nonce := 2 ^ 64 - 2 |}.

Definition clear_presence : event Doubles.pipe :=
  Send "SET_ACTIVITY" {| pid := 4242; activity := None |}.

(** The state of [late_client] is one the program gets to: a fresh client
    that connects and then sends 2^64 - 2 commands has that counter, and its
    connection. *)
Lemma late_client_reached :
  exists evs : list (event Doubles.pipe),
    is_Some (conn (fold_left step evs (NewClient "1234")))
    /\ nonce (fold_left step evs (NewClient "1234")) = nonce late_client.
Proof.
  assert (Hm : exists n : nat, Z.of_nat n = 2 ^ 64 - 2).
  { assert (Hpos : 0 <= 2 ^ 64 - 2) by lia.
    exists (Z.to_nat (2 ^ 64 - 2)). exact (Z2Nat.id _ Hpos). }
  destruct Hm as [n Hm].
  exists (SetConn (Some {| Doubles.written := []; Doubles.peer_gone := false |})
            :: repeat clear_presence n).
  cbn [fold_left]. unfold clear_presence.
  match goal with
  | |- context [fold_left step (repeat (Send ?name ?a) n) ?c] =>
      destruct (nonce_after_sends name a n c) as [Hk Hn]
  end.
  - cbn [step conn]. eauto.
  - cbn [step nonce NewClient]. lia.
  - rewrite Hm. cbn [step nonce NewClient]. lia.
  - split; [exact Hk|]. rewrite Hn, Hm.
    cbn [step nonce NewClient late_client]. lia.
Qed.

End ClientFacts.

(** ** The nonces on the wire *)

Module NonceFacts.
Import Discord Tape ClientFacts.

Section Nonces.
Context {Conn : Type} `{NetConn Conn} `{Json Command}.
Variable Getpid : Z.

(** The frame of a command tagged [n]. *)
Definition tagged (n : Z) (frame : bytes) : Prop :=
  exists name a payload,
    json_Marshal {| cmd := name; args := a; nonce_ := FormatUint n |} = Ok payload
    /\ EncodeFrame OpFrame payload = Ok frame.

(** A command that passes the connection check hands to [Write] one frame at
    most: that of the command object whose nonce is the decimal of the new
    counter.  (It hands over none when the object cannot be marshalled or
    framed.) *)
Lemma heard_connected (c : Client (taped Conn)) name a k :
  conn c = Some k ->
  heard c name a = []
  \/ exists frame, heard c name a = [frame] /\ tagged (uint64 (nonce c + 1)) frame.
Proof.
  intros Hc. unfold heard, sendCommand. rewrite Hc.
  destruct (json_Marshal _) as [e|payload] eqn:Hm.
  - cbn. left. rewrite skipn_all. reflexivity.
  - destruct (EncodeFrame OpFrame payload) as [e|frame] eqn:He.
    + cbn. left. rewrite skipn_all. reflexivity.
    + right. exists frame. split.
      * cbn [conn_Write taped_conn].
        destruct (conn_Write (line k) frame) as [l [e|]]; cbn;
          rewrite skipn_app, skipn_all, Nat.sub_diag; reflexivity.
      * exists name, a, payload. split; assumption.
Qed.

Lemma heard_not_connected (c : Client (taped Conn)) name a :
  conn c = None -> heard c name a = [].
Proof. intros Hc. unfold heard. rewrite Hc. reflexivity. Qed.

Lemma passed_nonneg : forall (evs : list (event (taped Conn))) c, 0 <= passed c evs.
Proof.
  induction evs as [|ev evs IH]; intros c; cbn [passed]; [lia|].
  specialize (IH (step c ev)). destruct ev, (conn c); lia.
Qed.

(** Along a history during which the counter stays below 2^64, the frames
    handed to [Write] carry nonces above the counter's first value that
    increase from each frame to the next. *)
Lemma transcript_tags : forall (evs : list (event (taped Conn))) (c : Client (taped Conn)),
  0 <= nonce c -> nonce c + passed c evs < 2 ^ 64 ->
  exists ns,
    Forall2 tagged ns (transcript c evs)
    /\ Forall (fun n => nonce c < n <= nonce c + passed c evs) ns
    /\ StronglySorted Z.lt ns.
Proof.
  induction evs as [|ev evs IH]; intros c H0' Hb.
  - exists []. cbn. repeat split; constructor.
  - pose proof (passed_nonneg evs (step c ev)) as Hp.
    destruct ev as [name a|k].
    + destruct (conn c) as [k|] eqn:Hc.
      * assert (Hpass : passed c (Send name a :: evs)
                        = 1 + passed (step c (Send name a)) evs).
        { cbn [passed]. rewrite Hc. reflexivity. }
        rewrite Hpass in *.
        assert (Hs : nonce (step c (Send name a)) = nonce c + 1).
        { cbn [step]. destruct (sendCommand_connected c name a k Hc) as (-> & _ & _).
          unfold uint64. apply Z.mod_small. lia. }
        destruct (IH (step c (Send name a))) as (ns & Htag & Hall & Hsort); [lia|lia|].
        rewrite Hs in Hall. cbn [transcript].
        destruct (heard_connected c name a k Hc) as [->|(frame & -> & Hf)].
        -- exists ns. cbn [app]. split; [exact Htag|]. split; [|exact Hsort].
           eapply Forall_impl; [exact Hall|]. cbn. intros; lia.
        -- exists (nonce c + 1 :: ns). cbn [app]. split; [|split].
           ++ constructor; [|exact Htag].
              replace (nonce c + 1) with (uint64 (nonce c + 1)); [exact Hf|].
              unfold uint64. apply Z.mod_small. lia.
           ++ constructor; [lia|]. eapply Forall_impl; [exact Hall|]. cbn. intros; lia.
           ++ constructor; [exact Hsort|].
              eapply Forall_impl; [exact Hall|]. cbn. intros; lia.
      * assert (Hs : step c (Send name a) = c).
        { cbn [step]. rewrite sendCommand_not_connected by assumption. reflexivity. }
        assert (Hpass : passed c (Send name a :: evs) = passed c evs).
        { cbn [passed]. rewrite Hc, Hs. reflexivity. }
        rewrite Hpass in *. cbn [transcript].
        rewrite heard_not_connected by assumption. rewrite Hs.
        destruct (IH c) as (ns & Htag & Hall & Hsort); [lia|lia|].
        exists ns. cbn [app]. split; [exact Htag|]. split; [|exact Hsort]. exact Hall.
    + assert (Hpass : passed c (SetConn k :: evs) = passed (step c (SetConn k)) evs)
        by reflexivity.
      rewrite Hpass in *.
      assert (Hs : nonce (step c (SetConn k)) = nonce c) by reflexivity.
      destruct (IH (step c (SetConn k))) as (ns & Htag & Hall & Hsort); [lia|lia|].
      rewrite Hs in Hall.
      exists ns. cbn [transcript app]. split; [exact Htag|]. split; [|exact Hsort].
      exact Hall.
Qed.

End Nonces.

Import Doubles.

(** A pipe that is open, with its tape, and the command that clears the
    presence. *)
Definition open_line : taped pipe :=
  {| line := {| written := []; peer_gone := false |}; tape := [] |}.

Definition clear : event (taped pipe) :=
  Send "SET_ACTIVITY" {| pid := 4242; activity := None |}.

(** The frame of that command with the nonce [n], as [command_codec] writes
    it. *)
Definition clearing (n : string) : bytes :=
  match EncodeFrame OpFrame
          (list_byte_of_string
             (command_json {| cmd := "SET_ACTIVITY";
                              args := {| pid := 4242; activity := None |};
                              nonce_ := n |})) with
  | inr frame => frame
  | inl _ => []
  end.

(** A history on a fresh client: a send before any connection, a connect, two
    sends, a disconnect, a send, a reconnect and a last send. *)
Definition history : list (event (taped pipe)) :=
  [clear; SetConn (Some open_line); clear; clear; SetConn None; clear;
   SetConn (Some open_line); clear].


(** What the peer reads over that history: three frames, with the nonces 1,
    2 and 3 in them. *)
Example history_transcript :
  transcript (NewClient "1234") history = [clearing "1"; clearing "2"; clearing "3"].
Proof. vm_compute. reflexivity. Qed.

(** The bound cannot be raised: a client whose counter has come to 2^64 - 2
    tags its next two commands 18446744073709551615 and 0. *)
Remark nonce_wraps_to_zero :
  transcript {| appID := "1234"; conn := Some open_line; nonce := 2 ^ 64 - 2 |}
    [clear; clear]
  = [clearing "18446744073709551615"; clearing "0"].
Proof. vm_compute. reflexivity. Qed.

End NonceFacts.

(** ** Strings *)

Module StringFacts.

Lemma length_append (s t : string) :
  String.length (s +:+ t) = (String.length s + String.length t)%nat.
Proof. induction s as [|c s IH]; simpl; [reflexivity|]. f_equal. exact IH. Qed.

Lemma append_assoc (a b c : string) : (a +:+ b) +:+ c = a +:+ (b +:+ c).
Proof.
  induction a as [|x a IH]; [reflexivity|].
  change (String x ((a +:+ b) +:+ c) = String x (a +:+ (b +:+ c))).
  rewrite IH. reflexivity.
Qed.

Lemma append_nonempty_neq (s t : string) : t <> "" -> s <> s +:+ t.
Proof.
  intros Ht Heq. apply (f_equal String.length) in Heq.
  rewrite length_append in Heq. destruct t; [congruence|]. cbn in Heq. lia.
Qed.

Lemma length_substring_0 (n : nat) : forall s : string,
  String.length (String.substring 0 n s) = Nat.min n (String.length s).
Proof.
  induction n as [|n IH]; intros [|c s]; cbn; try reflexivity.
  rewrite IH. reflexivity.
Qed.

(** The last byte of a string. *)
Fixpoint last_char (s : string) : option ascii :=
  match s with
  | EmptyString => None
  | String c EmptyString => Some c
  | String _ r => last_char r
  end.

Lemma last_char_append (s t : string) : t <> "" -> last_char (s +:+ t) = last_char t.
Proof.
  intros Ht. induction s as [|c s IH]; [reflexivity|].
  change (last_char (String c s +:+ t))
    with (match s +:+ t with
          | EmptyString => Some c
          | String _ _ => last_char (s +:+ t)
          end).
  destruct (s +:+ t) eqn:E; [|exact IH].
  exfalso. apply (f_equal String.length) in E. rewrite length_append in E.
  destruct t; [congruence|]. simpl in E. lia.
Qed.

(** [strings.HasSuffix] *)
Fixpoint HasSuffix (s suffix : string) : bool :=
  String.eqb s suffix
  || match s with
     | EmptyString => false
     | String _ r => HasSuffix r suffix
     end.

Lemma HasSuffix_last_char (suffix : string) : suffix <> "" -> forall s,
  HasSuffix s suffix = true -> last_char s = last_char suffix.
Proof.
  intros Hne. induction s as [|c s IH]; cbn [HasSuffix]; intros Hs.
  - rewrite orb_false_r in Hs. apply String.eqb_eq in Hs. congruence.
  - apply orb_true_iff in Hs as [Hs|Hs].
    + apply String.eqb_eq in Hs. congruence.
    + rewrite <- (IH Hs).
      destruct s; [|reflexivity].
      simpl in Hs. rewrite orb_false_r in Hs.
      destruct suffix; [congruence|discriminate].
Qed.

End StringFacts.

(** ** The state store *)

Module StoreFacts.
Import OS Session StringFacts.

(** *** Writes *)

Lemma WriteFile_healthy fs path data :
  healthy fs ->
  WriteFile fs path data = (with_files fs (<[path := data]> (files fs)), None).
Proof. intros Hh. unfold WriteFile. rewrite Hh. reflexivity. Qed.

(** No write touches the oracle or the log. *)
Lemma WriteFile_keeps fs path data :
  faulty (fst (WriteFile fs path data)) = faulty fs
  /\ logged (fst (WriteFile fs path data)) = logged fs.
Proof. unfold WriteFile. destruct (faulty fs SysWriteFile path); auto. Qed.

Lemma WriteFile_frame fs path data q :
  q <> path -> files (fst (WriteFile fs path data)) !! q = files fs !! q.
Proof.
  intros Hq. unfold WriteFile. destruct (faulty fs SysWriteFile path); [reflexivity|].
  cbn. apply lookup_insert_ne. congruence.
Qed.

Lemma WriteFile_written fs path data fs' :
  WriteFile fs path data = (fs', None) -> files fs' !! path = Some data.
Proof.
  unfold WriteFile. destruct (faulty fs SysWriteFile path); [discriminate|].
  intros [= <-]. cbn. apply lookup_insert_eq.
Qed.

Lemma Remove_keeps fs path :
  faulty (Remove fs path) = faulty fs /\ logged (Remove fs path) = logged fs.
Proof. unfold Remove. destruct (faulty fs SysRemove path); auto. Qed.

Lemma Remove_frame fs path q :
  q <> path -> files (Remove fs path) !! q = files fs !! q.
Proof.
  intros Hq. unfold Remove. destruct (faulty fs SysRemove path); [reflexivity|].
  cbn. apply lookup_delete_ne. congruence.
Qed.

(** On a healthy file system the atomic write replaces the file and leaves
    nothing else behind: the temporary name was free before and is free
    again. *)
Lemma Atomicfile_Write_healthy fs path data :
  healthy fs ->
  Atomicfile.Write fs path data = (with_files fs (<[path := data]> (files fs)), None).
Proof.
  intros Hh. unfold Atomicfile.Write, Rename. cbn. rewrite !Hh.
  rewrite lookup_insert_eq. unfold with_files. cbn. do 2 f_equal.
  set (tmp := fresh_string (path +:+ ".tmp.") (files fs)).
  assert (Hfresh : files fs !! tmp = None) by apply fresh_string_fresh.
  apply map_eq. intros i.
  destruct (decide (i = path)) as [->|Hi].
  - rewrite !lookup_insert_eq. reflexivity.
  - rewrite !(lookup_insert_ne _ path) by congruence.
    destruct (decide (i = tmp)) as [->|Hit].
    + rewrite lookup_delete_eq. congruence.
    + rewrite lookup_delete_ne, !lookup_insert_ne by congruence. reflexivity.
Qed.

(** Whatever fails, the atomic write changes no file that exists, other than
    its target. *)
Lemma Atomicfile_Write_frame fs path data q :
  q <> path -> is_Some (files fs !! q) ->
  files (fst (Atomicfile.Write fs path data)) !! q = files fs !! q.
Proof.
  intros Hq Hex. unfold Atomicfile.Write.
  set (tmp := fresh_string (path +:+ ".tmp.") (files fs)).
  assert (Hfresh : files fs !! tmp = None) by apply fresh_string_fresh.
  assert (Hqt : q <> tmp). { intros ->. rewrite Hfresh in Hex. destruct Hex. discriminate. }
  repeat match goal with
         | |- context [if ?b then _ else _] => destruct b
         end;
    cbn [fst]; rewrite ?Remove_frame by congruence; cbn;
    rewrite ?lookup_insert_ne by congruence; try reflexivity.
  unfold Rename. cbn.
  destruct (faulty fs SysRename path); cbn.
  - rewrite Remove_frame by congruence. cbn.
    rewrite !lookup_insert_ne by congruence. reflexivity.
  - rewrite lookup_insert_eq. cbn.
    rewrite lookup_insert_ne, lookup_delete_ne, !lookup_insert_ne by congruence.
    reflexivity.
Qed.

Lemma Atomicfile_Write_keeps fs path data :
  faulty (fst (Atomicfile.Write fs path data)) = faulty fs
  /\ logged (fst (Atomicfile.Write fs path data)) = logged fs.
Proof.
  unfold Atomicfile.Write, Rename, Remove. cbn.
  repeat match goal with
         | |- context [if ?b then _ else _] => destruct b
         | |- context [match ?o with Some _ => _ | None => _ end] => destruct o
         end; cbn; auto.
Qed.

Lemma healthy_slog l fs m p : healthy fs -> healthy (slog l fs m p).
Proof. intros Hh call path. apply Hh. Qed.

Lemma In_logged_slog l fs m p r : In r (logged fs) -> In r (logged (slog l fs m p)).
Proof. intros Hr. cbn. apply in_or_app. auto. Qed.

Lemma In_logged_slog_new l fs m p :
  In {| lvl := l; msg := m; about := p |} (logged (slog l fs m p)).
Proof. cbn. apply in_or_app. right. left. reflexivity. Qed.

Section Store.
Context `{Json State} `{Json versionProbe}.

Lemma saveState_healthy fs path s d :
  healthy fs -> json_Marshal s = Ok d ->
  saveState fs path s = (with_files fs (<[path := d]> (files fs)), None).
Proof.
  intros Hh Hm. unfold saveState. unfold Ok in Hm. rewrite Hm.
  apply Atomicfile_Write_healthy. exact Hh.
Qed.

Lemma saveState_frame fs path s q :
  q <> path -> is_Some (files fs !! q) ->
  files (fst (saveState fs path s)) !! q = files fs !! q.
Proof.
  intros Hq Hex. unfold saveState. destruct (json_Marshal s); [reflexivity|].
  apply Atomicfile_Write_frame; assumption.
Qed.

Lemma saveState_keeps fs path s :
  faulty (fst (saveState fs path s)) = faulty fs
  /\ logged (fst (saveState fs path s)) = logged fs.
Proof.
  unfold saveState. destruct (json_Marshal s); [auto|].
  apply Atomicfile_Write_keeps.
Qed.

(** The world after a backup to [bak] and a save to [path], each of them
    logged when it fails: the tail shared by [recoverCorruptedState] and
    [normalizeToCurrentVersion]. *)
Definition archived (fs : world) (bak : string) (data : bytes) (path : string)
    (s : State) (complaint : string) : world :=
  let fs :=
    match WriteFile fs bak data with
    | (fs, Some wErr) => slog_Warn fs "failed to write backup" bak
    | (fs, None) => fs
    end in
  match saveState fs path s with
  | (fs, Some sErr) => slog_Warn fs complaint path
  | (fs, None) => fs
  end.

Lemma archived_healthy fs bak data path s complaint d :
  bak <> path -> healthy fs -> json_Marshal s = Ok d ->
  files (archived fs bak data path s complaint) !! bak = Some data
  /\ files (archived fs bak data path s complaint) !! path = Some d.
Proof.
  intros Hne Hh Hm. unfold archived.
  rewrite (WriteFile_healthy fs bak data Hh).
  assert (Hh' : healthy (with_files fs (<[bak := data]> (files fs))))
    by (intros call q; apply Hh).
  rewrite (saveState_healthy _ path s d Hh' Hm).
  cbn. rewrite lookup_insert_ne, !lookup_insert_eq by congruence. auto.
Qed.

(** The backup is on disk afterwards, or its failure is in the log. *)
Lemma archived_or_logged fs bak data path s complaint :
  bak <> path ->
  files (archived fs bak data path s complaint) !! bak = Some data
  \/ In {| lvl := LevelWarn; msg := "failed to write backup"; about := bak |}
        (logged (archived fs bak data path s complaint)).
Proof.
  intros Hne. unfold archived.
  destruct (WriteFile fs bak data) as [fs1 [wErr|]] eqn:Hw.
  - right.
    pose proof (saveState_keeps (slog_Warn fs1 "failed to write backup" bak) path s)
      as [_ Hlog].
    destruct (saveState _ path s) as [fs2 [sErr|]]; cbn [fst] in Hlog.
    + apply In_logged_slog. rewrite Hlog. apply In_logged_slog_new.
    + rewrite Hlog. apply In_logged_slog_new.
  - left.
    pose proof (WriteFile_written fs bak data fs1 Hw) as Hb.
    pose proof (saveState_frame fs1 path s bak Hne ltac:(rewrite Hb; eauto)) as Hf.
    destruct (saveState fs1 path s) as [fs2 [sErr|]]; cbn [fst] in Hf; cbn;
      rewrite Hf; exact Hb.
Qed.

Lemma recoverCorruptedState_eq fs path data e :
  recoverCorruptedState fs path data e =
    ((Some (set_Version CurrentVersion zeroState),
      Some (Errorf "corrupted state file (backed up to %s): %w" [] e)),
     archived (slog_Warn fs "corrupted state file, backing up" path)
       (path +:+ ".corrupted") data path (set_Version CurrentVersion zeroState)
       "failed to save fresh state").
Proof.
  unfold recoverCorruptedState, archived.
  destruct (WriteFile _ _ data) as [fs1 [wErr|]];
    destruct (saveState _ path _) as [fs2 [sErr|]]; reflexivity.
Qed.

Lemma normalizeToCurrentVersion_eq fs s path data :
  normalizeToCurrentVersion fs s path data =
    (set_Version CurrentVersion s,
     archived (slog_Warn fs "future state version detected, normalizing"
                 (Sprintf_d (Version s)))
       (bakPath path (Version s)) data path (set_Version CurrentVersion s)
       "failed to save normalized state").
Proof.
  unfold normalizeToCurrentVersion, archived.
  destruct (WriteFile _ _ data) as [fs1 [wErr|]];
    destruct (saveState _ path _) as [fs2 [sErr|]]; reflexivity.
Qed.

(** C3. Corruption recovery: for every path whose contents can be read but
    fail JSON parsing, [ReadState] returns a non-nil fresh state, the zero
    value at the current schema version, together with a non-nil error that
    wraps the parse error.  On a file system that refuses no call the raw
    bytes are afterwards at [<path>.corrupted] and the fresh state, as
    [json.Marshal] renders it, is at [<path>].  On every file system the raw
    bytes are at [<path>.corrupted] afterwards unless the failure to write
    them is in the log: they are never dropped silently. *)
Theorem ReadState_recovers_corruption (migs : list Migrate.Migration) (fs : world)
    (path : string) (data : bytes) (parseErr : error) :
  ReadFile fs path = Ok data ->
  json_Unmarshal data zeroState = Err parseErr ->
  fst (ReadState migs fs path) =
    (Some (set_Version CurrentVersion zeroState),
     Some (Errorf "corrupted state file (backed up to %s): %w" [] parseErr))
  /\ Version (set_Version CurrentVersion zeroState) = CurrentVersion
  /\ (healthy fs ->
       forall fresh, json_Marshal (set_Version CurrentVersion zeroState) = Ok fresh ->
       files (snd (ReadState migs fs path)) !! (path +:+ ".corrupted") = Some data
       /\ files (snd (ReadState migs fs path)) !! path = Some fresh)
  /\ (files (snd (ReadState migs fs path)) !! (path +:+ ".corrupted") = Some data
      \/ In {| lvl := LevelWarn; msg := "failed to write backup";
               about := path +:+ ".corrupted" |}
            (logged (snd (ReadState migs fs path)))).
Proof.
  intros Hread Hparse.
  assert (Hne : path +:+ ".corrupted" <> path).
  { intros Heq. symmetry in Heq. revert Heq. apply append_nonempty_neq. discriminate. }
  unfold ReadState. unfold Ok in Hread. unfold Err in Hparse.
  rewrite Hread, Hparse, recoverCorruptedState_eq. cbn [fst snd].
  split; [reflexivity|]. split; [reflexivity|]. split.
  - intros Hh fresh Hm.
    apply archived_healthy; [exact Hne| |exact Hm].
    apply healthy_slog. exact Hh.
  - apply archived_or_logged. exact Hne.
Qed.

Lemma bakPath_neq path version : bakPath path version <> path.
Proof.
  unfold bakPath. intros Heq. symmetry in Heq. revert Heq.
  apply append_nonempty_neq. discriminate.
Qed.

Lemma last_char_bakPath path version :
  last_char (bakPath path version) = Some "k"%char.
Proof.
  unfold bakPath.
  replace (path +:+ ".v" +:+ Sprintf_d version +:+ ".bak")
    with ((path +:+ ".v" +:+ Sprintf_d version) +:+ ".bak")
    by (rewrite !append_assoc; reflexivity).
  rewrite last_char_append by discriminate. reflexivity.
Qed.

Lemma applyMigrations_none (s : State) (data : bytes) :
  applyMigrations StateMigrations s data = Ok s.
Proof. reflexivity. Qed.

Lemma insert_by_version_Forall (P : Migrate.Migration -> Prop) m l :
  P m -> Forall P l -> Forall P (Migrate.insert_by_version m l).
Proof.
  intros Hm Hl. induction Hl as [|x l Hx Hl IH]; cbn.
  - constructor; [exact Hm|constructor].
  - destruct (Migrate.Version m <? Migrate.Version x).
    + constructor; [exact Hm|]. constructor; assumption.
    + constructor; assumption.
Qed.

Lemma sort_by_version_Forall (P : Migrate.Migration -> Prop) l :
  Forall P l -> Forall P (Migrate.sort_by_version l).
Proof.
  intros Hl. unfold Migrate.sort_by_version.
  induction Hl as [|x l Hx Hl IH]; cbn; [constructor|].
  apply insert_by_version_Forall; assumption.
Qed.

(** [Run] applies nothing when no migration leads above the version the data
    is at. *)
Lemma Run_nothing_above data version migs :
  Forall (fun m => Migrate.Version m <= version) migs ->
  Migrate.Run data version migs = (data, version, None).
Proof.
  intros Hall. unfold Migrate.Run.
  apply (sort_by_version_Forall _ _) in Hall.
  induction Hall as [|m sorted Hm Hall IH]; [reflexivity|].
  cbn [Migrate.run_sorted].
  destruct (Z.ltb_spec version (Migrate.Version m)); [lia|exact IH].
Qed.

Lemma set_Version_same s : set_Version (Version s) s = s.
Proof. destruct s. reflexivity. Qed.

(** A registry changes nothing to the read of a future-version file as long
    as none of its migrations leads above the stored version (as in every
    registry whose migrations lead up to [CurrentVersion]) and decoding the
    same bytes a second time changes nothing. *)
Lemma ReadState_future_version_registry migs fs path data s :
  ReadFile fs path = Ok data ->
  json_Unmarshal data zeroState = Ok s ->
  Version s > CurrentVersion ->
  Forall (fun m => Migrate.Version m <= Version s) migs ->
  json_Unmarshal data s = Ok s ->
  ReadState migs fs path = ReadState StateMigrations fs path.
Proof.
  intros Hread Hparse Hfuture Hall Hagain.
  assert (Hnz : (Version s =? 0) = false).
  { apply Z.eqb_neq. unfold CurrentVersion in Hfuture. lia. }
  unfold ReadState. unfold Ok in Hread, Hparse, Hagain.
  rewrite Hread, Hparse, Hnz, applyMigrations_none.
  replace (applyMigrations migs s data) with (Ok s); [reflexivity|].
  unfold applyMigrations.
  destruct ((len migs =? 0)
            || negb (Migrate.NeedsMigration (Version s) CurrentVersion false migs));
    [reflexivity|].
  rewrite (Run_nothing_above data (Version s) migs Hall), Hagain, set_Version_same.
  reflexivity.
Qed.

(** C4. Future versions: for every state file that parses with a stored
    version N above the store's current version, [ReadState] (with the
    registry the program runs with) returns the parsed state with its
    version reset to the current one and no error.  On a file system that
    refuses no call the raw bytes are afterwards at [<path>.v<N>.bak] and the
    record at [<path>] is the returned, normalized state as [json.Marshal]
    renders it.  On every file system the read succeeds all the same, and
    the raw bytes are at [<path>.v<N>.bak] unless the failure to write them
    is in the log. *)
Theorem ReadState_normalizes_future_version (fs : world) (path : string)
    (data : bytes) (s : State) :
  ReadFile fs path = Ok data ->
  json_Unmarshal data zeroState = Ok s ->
  Version s > CurrentVersion ->
  fst (ReadState StateMigrations fs path) = (Some (set_Version CurrentVersion s), None)
  /\ Version (set_Version CurrentVersion s) = CurrentVersion
  /\ (healthy fs ->
       forall record, json_Marshal (set_Version CurrentVersion s) = Ok record ->
       files (snd (ReadState StateMigrations fs path)) !! bakPath path (Version s)
         = Some data
       /\ files (snd (ReadState StateMigrations fs path)) !! path = Some record)
  /\ (files (snd (ReadState StateMigrations fs path)) !! bakPath path (Version s)
        = Some data
      \/ In {| lvl := LevelWarn; msg := "failed to write backup";
               about := bakPath path (Version s) |}
            (logged (snd (ReadState StateMigrations fs path)))).
Proof.
  intros Hread Hparse Hfuture.
  assert (Hnz : (Version s =? 0) = false).
  { apply Z.eqb_neq. unfold CurrentVersion in Hfuture. lia. }
  assert (Hgt : (Version s >? CurrentVersion) = true).
  { apply Z.gtb_lt. lia. }
  assert (Hrs : ReadState StateMigrations fs path =
                ((Some (set_Version CurrentVersion s), None),
                 archived (slog_Warn fs "future state version detected, normalizing"
                             (Sprintf_d (Version s)))
                   (bakPath path (Version s)) data path
                   (set_Version CurrentVersion s) "failed to save normalized state")).
  { unfold ReadState. unfold Ok in Hread, Hparse.
    rewrite Hread, Hparse, Hnz, applyMigrations_none.
    unfold Ok. rewrite Hgt, normalizeToCurrentVersion_eq. reflexivity. }
  rewrite Hrs. cbn [fst snd].
  split; [reflexivity|]. split; [reflexivity|]. split.
  - intros Hh record Hm.
    apply archived_healthy; [apply bakPath_neq| |exact Hm].
    apply healthy_slog. exact Hh.
  - apply archived_or_logged. apply bakPath_neq.
Qed.

End Store.

Import Doubles.

Definition quote : string := String "034" "".

(** The corrupted file of the repository's [TestStateCorruptedBackup]. *)
Definition corrupted_disk : world :=
  disk [("/data/state.code.json", "{this is not valid json at all")].

Lemma ReadState_recovers_corruption_witness :
  fst (ReadState [] corrupted_disk "/data/state.code.json") =
    (Some (set_Version CurrentVersion zeroState),
     Some (Errorf "corrupted state file (backed up to %s): %w" []
             (New (ErrHost "json: invalid character"))))
  /\ files (snd (ReadState [] corrupted_disk "/data/state.code.json"))
       !! "/data/state.code.json.corrupted"
     = Some (list_byte_of_string "{this is not valid json at all")
  /\ files (snd (ReadState [] corrupted_disk "/data/state.code.json"))
       !! "/data/state.code.json"
     = Some (encode_state (set_Version CurrentVersion zeroState)).
Proof.
  destruct (ReadState_recovers_corruption [] corrupted_disk "/data/state.code.json"
              (list_byte_of_string "{this is not valid json at all")
              (New (ErrHost "json: invalid character")))
    as (Hret & _ & Hdisk & _).
  - vm_compute. reflexivity.
  - vm_compute. reflexivity.
  - split; [exact Hret|].
    apply (Hdisk (fun _ _ => eq_refl) (encode_state (set_Version CurrentVersion zeroState))).
    reflexivity.
Defined.

(** The future-version file of [TestStateFutureVersionNormalized]. *)
Definition future_json : string :=
  "{" +:+ quoted "$version" +:+ ":999," +:+ quoted "sessionId" +:+ ":"
  +:+ quoted "future-abc" +:+ "," +:+ quoted "sessionStart" +:+ ":1707900000,"
  +:+ quoted "lastActivity" +:+ ":1707900060," +:+ quoted "project" +:+ ":"
  +:+ quoted "future" +:+ "," +:+ quoted "stopped" +:+ ":false}".

Definition future_state : State :=
  {| Version := 999; SessionID := "future-abc"; SessionStart := 1707900000;
     LastActivity := 1707900060; Project := "future"; Branch := ""; CWD := "";
     GitRemoteURL := ""; Client := ""; Stopped := false; ToolName := "";
     ToolTarget := ""; ActiveFile := ""; AgentState := ""; PermissionMode := "";
     HookEvent := "" |}.

Definition future_disk : world := disk [("/data/state.code.json", future_json)].

Lemma ReadState_normalizes_future_version_witness :
  fst (ReadState StateMigrations future_disk "/data/state.code.json")
    = (Some (set_Version CurrentVersion future_state), None)
  /\ files (snd (ReadState StateMigrations future_disk "/data/state.code.json"))
       !! "/data/state.code.json.v999.bak"
     = Some (list_byte_of_string future_json)
  /\ files (snd (ReadState StateMigrations future_disk "/data/state.code.json"))
       !! "/data/state.code.json"
     = Some (encode_state (set_Version CurrentVersion future_state)).
Proof.
  destruct (ReadState_normalizes_future_version future_disk "/data/state.code.json"
              (list_byte_of_string future_json) future_state)
    as (Hret & _ & Hdisk & _).
  - vm_compute. reflexivity.
  - vm_compute. reflexivity.
  - reflexivity.
  - split; [exact Hret|].
    apply (Hdisk (fun _ _ => eq_refl)
                 (encode_state (set_Version CurrentVersion future_state))).
    reflexivity.
Defined.

End StoreFacts.

(** ** The JSON scanner: its loops end on the text

    [scanElements], [scanMembers] and [unquote] carry a bound, to be
    structural; it is the length of the text before them.  Every round of
    theirs takes a byte at least, so the bound is never what ends them. *)

Module ScannerFacts.
Import JSON.

(** Case analysis on a byte, for the definitions that match on one. *)
Ltac bytewise c := destruct c as [[] [] [] [] [] [] [] []].

(** White space aside, every piece of the grammar takes a byte at least. *)
Lemma skipSpace_length s : (String.length (skipSpace s) <= String.length s)%nat.
Proof.
  induction s as [|c s IH]; [reflexivity|].
  cbn [skipSpace]. destruct (isSpace c); cbn [String.length]; lia.
Qed.

Lemma scanString_shorter : forall s raw rest,
  scanString s = Some (raw, rest) -> (String.length rest < String.length s)%nat.
Proof.
  fix IH 1. intros s raw rest. destruct s as [|c r]; [discriminate|].
  cbn [scanString].
  destruct (Ascii.eqb c "034"); [intros [= _ <-]; cbn; lia|].
  destruct (Ascii.eqb c "\").
  - destruct r as [|e r']; [discriminate|].
    destruct (isEscape e).
    + destruct (scanString r') as [[raw' rest']|] eqn:E; [|discriminate].
      intros [= _ <-]. apply IH in E. cbn [String.length]. lia.
    + destruct (Ascii.eqb e "u"); [|discriminate].
      destruct r' as [|h1 [|h2 [|h3 [|h4 r'']]]]; try discriminate.
      destruct (isHex h1 && isHex h2 && isHex h3 && isHex h4); [|discriminate].
      destruct (scanString r'') as [[raw' rest']|] eqn:E; [|discriminate].
      intros [= _ <-]. apply IH in E. cbn [String.length]. lia.
  - destruct (code c <? 32)%Z; [discriminate|].
    destruct (scanString r) as [[raw' rest']|] eqn:E; [|discriminate].
    intros [= _ <-]. apply IH in E. cbn [String.length]. lia.
Qed.

Lemma digits_length : forall s ds rest,
  digits s = (ds, rest) ->
  (String.length ds + String.length rest = String.length s)%nat.
Proof.
  induction s as [|c s IH]; intros ds rest; cbn [digits].
  - intros [= <- <-]. reflexivity.
  - destruct (isDigit c).
    + destruct (digits s) as [ds' rest'] eqn:E. intros [= <- <-].
      specialize (IH _ _ eq_refl). cbn [String.length]. lia.
    + intros [= <- <-]. reflexivity.
Qed.

Lemma after_shorter : forall p s rest,
  after p s = Some rest ->
  (String.length p + String.length rest = String.length s)%nat.
Proof.
  induction p as [|a p IH]; intros s rest; cbn [after].
  - intros [= <-]. reflexivity.
  - destruct s as [|b s]; [discriminate|].
    destruct (Ascii.eqb a b); [|discriminate].
    intros E. apply IH in E. cbn [String.length]. lia.
Qed.

Lemma scanNumber_shorter s literal rest :
  scanNumber s = Some (literal, rest) ->
  (String.length rest < String.length s)%nat.
Proof.
  unfold scanNumber.
  destruct (match s with
            | String "-" r => ("-", r)
            | _ => ("", s)
            end) as [sign s1] eqn:E1.
  assert (H1 : (String.length s1 <= String.length s)%nat).
  { destruct s as [|c r]; [injection E1 as <- <-; reflexivity|].
    bytewise c; injection E1 as <- <-; cbn [String.length]; lia. }
  clear E1.
  destruct (match s1 with
            | String "0" r => Some ("0", r)
            | String c _ => if isDigit c then Some (digits s1) else None
            | EmptyString => None
            end) as [[int s2]|] eqn:E2; [|discriminate].
  assert (H2 : (String.length s2 < String.length s1)%nat).
  { destruct s1 as [|c r]; [discriminate|].
    assert (Hd : isDigit c = true -> digits (String c r) = (int, s2) ->
                 (String.length s2 < String.length (String c r))%nat).
    { intros Hc Hd. cbn [digits] in Hd. rewrite Hc in Hd.
      destruct (digits r) as [ds rest'] eqn:E. injection Hd as <- <-.
      apply digits_length in E. cbn [String.length]. lia. }
    bytewise c;
      first [ discriminate
            | injection E2 as <- <-; cbn [String.length]; lia
            | cbv [isDigit code nat_of_ascii N_of_ascii N_of_digits] in E2;
              cbn in E2; first [discriminate | injection E2 as E2; apply Hd; [reflexivity|exact E2]] ]. }
  clear E2.
  destruct (match s2 with
            | String "." r =>
                match digits r with
                | (String d ds, rest) => Some (String "." (String d ds), rest)
                | (EmptyString, _) => None
                end
            | _ => Some ("", s2)
            end) as [[frac s3]|] eqn:E3; [|discriminate].
  assert (H3 : (String.length s3 <= String.length s2)%nat).
  { destruct s2 as [|c r]; [injection E3 as <- <-; reflexivity|].
    bytewise c; try (injection E3 as <- <-; cbn [String.length]; lia).
    destruct (digits r) as [[|d ds] rest'] eqn:E; [discriminate|].
    injection E3 as <- <-. apply digits_length in E. cbn [String.length] in *. lia. }
  clear E3.
  destruct s3 as [|e r].
  - intros [= _ <-]. lia.
  - destruct (Ascii.eqb e "e" || Ascii.eqb e "E").
    + destruct (match r with
                | String "+" r' => ("+", r')
                | String "-" r' => ("-", r')
                | _ => ("", r)
                end) as [esign r1] eqn:E4.
      assert (H4 : (String.length r1 <= String.length r)%nat).
      { destruct r as [|c r']; [injection E4 as <- <-; reflexivity|].
        bytewise c; injection E4 as <- <-; cbn [String.length]; lia. }
      destruct (digits r1) as [[|d ds] rest'] eqn:E; [discriminate|].
      intros [= _ <-]. apply digits_length in E. cbn [String.length] in *. lia.
    + intros [= _ <-]. lia.
Qed.

Section Containers.
Variable scan : string -> option (value * string).
Hypothesis scan_shorter : forall s v rest,
  scan s = Some (v, rest) -> (String.length rest < String.length s)%nat.

Lemma scanElements_shorter : forall n s vs rest,
  scanElements scan n s = Some (vs, rest) ->
  (String.length rest < String.length s)%nat.
Proof.
  induction n as [|n IH]; intros s vs rest; [discriminate|].
  cbn [scanElements].
  destruct (scan s) as [[v s1]|] eqn:E1; [|discriminate].
  apply scan_shorter in E1.
  pose proof (skipSpace_length s1) as H1.
  destruct (skipSpace s1) as [|c r]; [discriminate|].
  cbn [String.length] in H1.
  bytewise c; try discriminate.
  - intros [= _ <-]. lia.
  - destruct (scanElements scan n (skipSpace r)) as [[vs' rest']|] eqn:E2; [|discriminate].
    intros [= _ <-]. apply IH in E2. pose proof (skipSpace_length r). lia.
Qed.

Lemma scanMembers_shorter : forall n s ms rest,
  scanMembers scan n s = Some (ms, rest) ->
  (String.length rest < String.length s)%nat.
Proof.
  induction n as [|n IH]; intros s ms rest; [discriminate|].
  cbn [scanMembers].
  destruct s as [|q s0]; [discriminate|].
  bytewise q; try discriminate.
  destruct (scanString s0) as [[key s1]|] eqn:E0; [|discriminate].
  apply scanString_shorter in E0.
  pose proof (skipSpace_length s1) as H1.
  destruct (skipSpace s1) as [|c s2]; [discriminate|].
  cbn [String.length] in H1.
  bytewise c; try discriminate.
  pose proof (skipSpace_length s2) as H2.
  destruct (scan (skipSpace s2)) as [[v s3]|] eqn:E3; [|discriminate].
  apply scan_shorter in E3.
  pose proof (skipSpace_length s3) as H3.
  destruct (skipSpace s3) as [|d r]; [discriminate|].
  cbn [String.length] in H3.
  bytewise d; try discriminate.
  - intros [= _ <-]. cbn [String.length]. lia.
  - destruct (scanMembers scan n (skipSpace r)) as [[ms' rest']|] eqn:E4; [|discriminate].
    intros [= _ <-]. apply IH in E4. pose proof (skipSpace_length r).
    cbn [String.length]. lia.
Qed.

(** The bound on the loop over the elements is never what ends it: any bound
    from the length of the text on gives the same result. *)
Lemma scanElements_bound : forall n m s,
  (String.length s <= n)%nat -> (String.length s <= m)%nat ->
  scanElements scan n s = scanElements scan m s.
Proof.
  induction n as [|n IH]; intros m s Hn Hm.
  - destruct m as [|m]; [reflexivity|]. cbn [scanElements].
    destruct (scan s) as [[v s1]|] eqn:E1; [|reflexivity].
    apply scan_shorter in E1. lia.
  - destruct m as [|m]; cbn [scanElements].
    + destruct (scan s) as [[v s1]|] eqn:E1; [|reflexivity].
      apply scan_shorter in E1. lia.
    + destruct (scan s) as [[v s1]|] eqn:E1; [|reflexivity].
      apply scan_shorter in E1.
      pose proof (skipSpace_length s1) as H1.
      destruct (skipSpace s1) as [|c r]; [reflexivity|].
      cbn [String.length] in H1.
      bytewise c; try reflexivity.
      pose proof (skipSpace_length r).
      rewrite (IH m (skipSpace r)) by lia. reflexivity.
Qed.

Lemma scanMembers_bound : forall n m s,
  (String.length s <= n)%nat -> (String.length s <= m)%nat ->
  scanMembers scan n s = scanMembers scan m s.
Proof.
  induction n as [|n IH]; intros m s Hn Hm.
  - destruct s; [|cbn [String.length] in Hn; lia].
    destruct m; reflexivity.
  - destruct m as [|m].
    + destruct s; [reflexivity|cbn [String.length] in Hm; lia].
    + cbn [scanMembers].
      destruct s as [|q s0]; [reflexivity|]. cbn [String.length] in Hn, Hm.
      bytewise q; try reflexivity.
      destruct (scanString s0) as [[key s1]|] eqn:E0; [|reflexivity].
      apply scanString_shorter in E0.
      pose proof (skipSpace_length s1) as H1.
      destruct (skipSpace s1) as [|c s2]; [reflexivity|].
      cbn [String.length] in H1.
      bytewise c; try reflexivity.
      pose proof (skipSpace_length s2) as H2.
      destruct (scan (skipSpace s2)) as [[v s3]|] eqn:E3; [|reflexivity].
      apply scan_shorter in E3.
      pose proof (skipSpace_length s3) as H3.
      destruct (skipSpace s3) as [|d r]; [reflexivity|].
      cbn [String.length] in H3.
      bytewise d; try reflexivity.
      pose proof (skipSpace_length r).
      rewrite (IH m (skipSpace r)) by lia. reflexivity.
Qed.
End Containers.

(** Every value takes a byte at least. *)
Lemma scanValue_shorter : forall room s v rest,
  scanValue room s = Some (v, rest) ->
  (String.length rest < String.length s)%nat.
Proof.
  induction room as [|room IH]; intros s v rest;
    (destruct s as [|c r]; [discriminate|]).
  - bytewise c; cbn [scanValue]; try discriminate;
      first [ destruct (scanNumber _) as [[literal rest']|] eqn:E; [|discriminate];
              intros [= _ <-]; exact (scanNumber_shorter _ _ _ E)
            | destruct (scanString r) as [[raw rest']|] eqn:E; [|discriminate];
              intros [= _ <-]; apply scanString_shorter in E; cbn [String.length]; lia
            | destruct (after _ _) as [rest'|] eqn:E; [|discriminate];
              intros [= _ <-]; apply after_shorter in E; cbn [String.length] in *; lia ].
  - bytewise c; cbn [scanValue];
      first [ destruct (scanNumber _) as [[literal rest']|] eqn:E; [|discriminate];
              intros [= _ <-]; exact (scanNumber_shorter _ _ _ E)
            | destruct (scanString r) as [[raw rest']|] eqn:E; [|discriminate];
              intros [= _ <-]; apply scanString_shorter in E; cbn [String.length]; lia
            | destruct (after _ _) as [rest'|] eqn:E; [|discriminate];
              intros [= _ <-]; apply after_shorter in E; cbn [String.length] in *; lia
            | idtac ].
    + pose proof (skipSpace_length r) as H0.
      destruct (skipSpace r) as [|d r0] eqn:Es; [discriminate|].
      cbn [String.length] in H0.
      assert (Hm : forall ms, scanMembers (scanValue room) (String.length (String d r0))
                                (String d r0) = Some (ms, rest) ->
                   (String.length rest < S (String.length r))%nat).
      { intros ms E. apply (scanMembers_shorter _ IH) in E. cbn [String.length] in E. lia. }
      bytewise d; cbv beta iota zeta;
        first [ intros [= _ <-]; cbn [String.length]; lia
              | destruct (scanMembers _ _ _) as [[ms rest']|] eqn:E; [|discriminate];
                intros [= _ <-]; exact (Hm _ eq_refl) ].
    + pose proof (skipSpace_length r) as H0.
      destruct (skipSpace r) as [|d r0] eqn:Es; [discriminate|].
      cbn [String.length] in H0.
      assert (Hm : forall vs, scanElements (scanValue room) (String.length (String d r0))
                                (String d r0) = Some (vs, rest) ->
                   (String.length rest < S (String.length r))%nat).
      { intros vs E. apply (scanElements_shorter _ IH) in E. cbn [String.length] in E. lia. }
      bytewise d; cbv beta iota zeta;
        first [ intros [= _ <-]; cbn [String.length]; lia
              | destruct (scanElements _ _ _) as [[vs rest']|] eqn:E; [|discriminate];
                intros [= _ <-]; exact (Hm _ eq_refl) ].
Qed.

(** So the bounds that [scanValue] gives to its loops are never reached. *)
Lemma scanValue_loops_bound room n s :
  (String.length s <= n)%nat ->
  scanMembers (scanValue room) n s = scanMembers (scanValue room) (String.length s) s
  /\ scanElements (scanValue room) n s = scanElements (scanValue room) (String.length s) s.
Proof.
  intros Hn. split.
  - apply scanMembers_bound; [apply scanValue_shorter|exact Hn|lia].
  - apply scanElements_bound; [apply scanValue_shorter|exact Hn|lia].
Qed.

Lemma continuation_shorter lo hi s b rest :
  continuation lo hi s = Some (b, rest) ->
  (String.length rest < String.length s)%nat.
Proof.
  destruct s as [|c r]; [discriminate|]. cbn [continuation].
  destruct (_ && _); [|discriminate]. intros [= _ <-]. cbn. lia.
Qed.

Lemma DecodeRune_length p0 r :
  (String.length (snd (DecodeRune p0 r)) <= String.length r)%nat.
Proof.
  unfold DecodeRune.
  repeat match goal with
         | |- context [if ?b then _ else _] => destruct b
         | |- context [continuation ?lo ?hi ?s] =>
             let E := fresh "E" in
             destruct (continuation lo hi s) as [[? ?]|] eqn:E;
             [apply continuation_shorter in E|]
         end; cbn [snd]; lia.
Qed.

(** The bound on the runes of a key is never what ends [unquote]. *)
Lemma unquote_bound : forall n m s,
  (String.length s <= n)%nat -> (String.length s <= m)%nat ->
  unquote n s = unquote m s.
Proof.
  assert (Hgo : forall n m, (forall s, (String.length s <= n)%nat ->
                                       (String.length s <= m)%nat ->
                                       unquote n s = unquote m s) ->
                forall s, (String.length s <= S n)%nat -> (String.length s <= S m)%nat ->
                          unquote (S n) s = unquote (S m) s).
  { intros n m IH s Hn Hm.
    assert (Hplain : forall c r, (String.length r <= n)%nat -> (String.length r <= m)%nat ->
              (if (code c <? 128)%Z then code c :: unquote n r
               else let '(rr, r0) := DecodeRune c r in rr :: unquote n r0)
              = (if (code c <? 128)%Z then code c :: unquote m r
                 else let '(rr, r0) := DecodeRune c r in rr :: unquote m r0)).
    { intros c r Hn' Hm'.
      destruct (code c <? 128)%Z; [rewrite (IH r) by lia; reflexivity|].
      pose proof (DecodeRune_length c r) as Hd.
      destruct (DecodeRune c r) as [rr r0]. cbn [snd] in Hd.
      rewrite (IH r0) by lia. reflexivity. }
    assert (Hrest : forall (x : Z) r, (String.length r <= n)%nat -> (String.length r <= m)%nat ->
              x :: unquote n r = x :: unquote m r).
    { intros x r Hn' Hm'. rewrite (IH r) by lia. reflexivity. }
    destruct s as [|c r]; [reflexivity|]. cbn [String.length] in Hn, Hm.
    bytewise c; try (apply Hplain; lia).
    destruct r as [|e r]; [apply Hplain; cbn [String.length]; lia|].
    cbn [String.length] in Hn, Hm.
    bytewise e; try (apply Hrest; lia).
    destruct r as [|h1 [|h2 [|h3 [|h4 r]]]]; cbn [String.length] in Hn, Hm;
      try (apply Hrest; cbn [String.length]; lia).
    cbn [unquote].
    destruct (IsSurrogate (getu4 h1 h2 h3 h4)); [|apply Hrest; lia].
    destruct r as [|c r1]; [apply Hrest; cbn [String.length]; lia|].
    cbn [String.length] in Hn, Hm.
    bytewise c; try (apply Hrest; cbn [String.length]; lia).
    destruct r1 as [|c r2]; [apply Hrest; cbn [String.length]; lia|].
    cbn [String.length] in Hn, Hm.
    bytewise c; try (apply Hrest; cbn [String.length]; lia).
    destruct r2 as [|g1 [|g2 [|g3 [|g4 r']]]]; cbn [String.length] in Hn, Hm;
      try (apply Hrest; cbn [String.length]; lia).
    destruct (_ =? _)%Z; apply Hrest; cbn [String.length]; lia. }
  induction n as [|n IH]; intros m s Hn Hm.
  - destruct s; [|cbn [String.length] in Hn; lia]. destruct m; reflexivity.
  - destruct m as [|m].
    + destruct s; [reflexivity|cbn [String.length] in Hm; lia].
    + apply Hgo; [|exact Hn|exact Hm]. intros s' Hn' Hm'. apply IH; assumption.
Qed.
End ScannerFacts.

(** ** Version peeking *)

Module PeekFacts.
Import Session JSON.

(** Whether the field [Version int] takes a value: null, which leaves it
    alone, or a number without fraction or exponent that an int64 holds. *)
Definition fits (v : value) : bool :=
  match v with
  | Null => true
  | Number literal =>
      match ParseInt literal with Some _ => true | None => false end
  | _ => false
  end.

(** An object in which the version can be read: every member whose key
    names the field holds a value that fits it. *)
Definition readable (members : list (string * value)) : bool :=
  forallb (fun m => implb (namesField "$version" (fst m)) (fits (snd m))) members.

(** The integers that the [$version] members of an object hold, in the
    order of the text. *)
Definition versions (members : list (string * value)) : list Z :=
  omap (fun m =>
          if namesField "$version" (fst m) then
            match snd m with
            | Number literal => ParseInt literal
            | _ => None
            end
          else None) members.

(** The version peeked: the last of them, and 1 for none or for 0. *)
Definition peeked (members : list (string * value)) : Z :=
  let v := default 0 (last (versions members)) in
  if v =? 0 then 1 else v.

Lemma versions_cons key v members :
  versions ((key, v) :: members)
  = match (if namesField "$version" key then
             match v with
             | Number literal => ParseInt literal
             | _ => None
             end
           else None) with
    | Some n => n :: versions members
    | None => versions members
    end.
Proof. reflexivity. Qed.

(** The walk over an object in which the version can be read saves no
    error, and leaves the last integer in the field. *)
Lemma storeMembers_readable : forall members old saved,
  readable members = true ->
  storeMembers "$version" members old saved
  = (default old (last (versions members)), saved).
Proof.
  induction members as [|[key v] members IH]; intros old saved Hr; [reflexivity|].
  cbn [readable forallb fst snd] in Hr. apply andb_true_iff in Hr as [Hm Hr].
  fold (readable members) in Hr.
  rewrite versions_cons. cbn [storeMembers].
  destruct (namesField "$version" key); cbn [implb] in Hm.
  - destruct v as [| |literal| | |]; cbn [fits] in Hm; try discriminate.
    + cbn [storeInt]. rewrite (IH old _ Hr). destruct saved; reflexivity.
    + cbn [storeInt]. destruct (ParseInt literal) as [n|]; [|discriminate].
      rewrite (IH n _ Hr). rewrite last_cons.
      destruct (last (versions members)), saved; reflexivity.
  - exact (IH old saved Hr).
Qed.

(** An error, once saved, is what the walk returns. *)
Lemma storeMembers_saved : forall members old e,
  snd (storeMembers "$version" members old (Some e)) = Some e.
Proof.
  induction members as [|[key v] members IH]; intros old e; [reflexivity|].
  cbn [storeMembers]. destruct (namesField "$version" key); [|apply IH].
  destruct (storeInt v old) as [new err]. apply IH.
Qed.

(** A [$version] member that does not fit the field is an error, whatever
    the other members hold. *)
Lemma storeMembers_unreadable : forall members old,
  readable members = false ->
  exists e, snd (storeMembers "$version" members old None) = Some e.
Proof.
  induction members as [|[key v] members IH]; intros old Hr; [discriminate|].
  cbn [readable forallb fst snd] in Hr. fold (readable members) in Hr.
  cbn [storeMembers].
  destruct (namesField "$version" key); cbn [implb] in Hr.
  - destruct (fits v) eqn:Hf; cbn [andb] in Hr.
    + destruct v as [| |literal| | |]; cbn [fits] in Hf; try discriminate.
      * cbn [storeInt]. apply IH. exact Hr.
      * cbn [storeInt]. destruct (ParseInt literal); [|discriminate].
        apply IH. exact Hr.
    + destruct v as [| |literal| | |]; cbn [fits] in Hf; try discriminate;
        cbn [storeInt]; try (eexists; apply storeMembers_saved).
      destruct (ParseInt literal); [discriminate|].
      eexists. apply storeMembers_saved.
  - apply IH. exact Hr.
Qed.

Lemma PeekVersion_object (data : bytes) (members : list (string * value)) :
  checkValid data = Some (Object members) ->
  (readable members = true -> PeekVersion data = Ok (peeked members))
  /\ (readable members = false -> exists e, PeekVersion data = Err e).
Proof.
  intros Hvalid. unfold PeekVersion. cbn [json_Unmarshal probe]. unfold Unmarshal.
  rewrite Hvalid. cbn [probeVersion]. split; intros Hr.
  - rewrite (storeMembers_readable members 0 None Hr). unfold Ok.
    cbn [probeVersion]. unfold peeked.
    destruct (default 0 (last (versions members)) =? 0); reflexivity.
  - destruct (storeMembers_unreadable members 0 Hr) as [e He].
    destruct (storeMembers "$version" members 0 None) as [n err].
    cbn [snd] in He. subst err. eexists. reflexivity.
Qed.

(** Bytes that are not one well-formed JSON value are an error. *)
Lemma PeekVersion_malformed (data : bytes) :
  checkValid data = None ->
  PeekVersion data = Err (Errorf "peeking version: %w" [] SyntaxError).
Proof.
  intros Hvalid. unfold PeekVersion. cbn [json_Unmarshal probe]. unfold Unmarshal.
  rewrite Hvalid. reflexivity.
Qed.


(** A record whose [sessionStart] is a string where a state has a number,
    with an array and an object that no state has. *)
Definition mistyped_json : string :=
  "{" +:+ Doubles.quoted "$version" +:+ ":3," +:+ Doubles.quoted "sessionStart" +:+ ":"
  +:+ Doubles.quoted "oops" +:+ "," +:+ Doubles.quoted "stopped" +:+ ":[1,{}]}".


(** The record of [TestStateVersionPeek], and the same cut short in its
    second member. *)
Definition whole_json : string :=
  "{" +:+ Doubles.quoted "$version" +:+ ":3," +:+ Doubles.quoted "sessionId" +:+ ":"
  +:+ Doubles.quoted "abc" +:+ "}".

Definition cut_short_json : string :=
  "{" +:+ Doubles.quoted "$version" +:+ ":3," +:+ Doubles.quoted "sessionId" +:+ ":"
  +:+ String "034" "ab".


(** The records of [TestStateVersionPeek], [TestStateVersionMissing] and
    [TestStateVersionInvalid]. *)
Example PeekVersion_tests :
  PeekVersion (list_byte_of_string
                 ("{" +:+ Doubles.quoted "$version" +:+ ":1," +:+ Doubles.quoted "sessionId" +:+ ":"
                  +:+ Doubles.quoted "abc" +:+ "}")) = Ok 1
  /\ PeekVersion (list_byte_of_string
                    ("{" +:+ Doubles.quoted "sessionId" +:+ ":" +:+ Doubles.quoted "abc" +:+ "}")) = Ok 1
  /\ PeekVersion (list_byte_of_string "{broken json")
     = Err (Errorf "peeking version: %w" [] SyntaxError).
Proof. repeat split; vm_compute; reflexivity. Qed.

(** How [encoding/json] reads the field: the key in any case and with
    escapes, the last of several members, null as nothing; a number with a
    fraction, a string, or a number that no int64 holds is an error, and so
    is a value that is no object, null apart. *)
Example PeekVersion_readings :
  PeekVersion (list_byte_of_string ("{" +:+ Doubles.quoted "$VERSION" +:+ ":7}")) = Ok 7
  /\ PeekVersion (list_byte_of_string ("{" +:+ Doubles.quoted "$version" +:+ " : 7 }")) = Ok 7
  /\ PeekVersion (list_byte_of_string
                    ("{" +:+ Doubles.quoted "$version" +:+ ":3," +:+ Doubles.quoted "$version" +:+ ":4}"))
     = Ok 4
  /\ PeekVersion (list_byte_of_string ("{" +:+ Doubles.quoted "$version" +:+ ":null}")) = Ok 1
  /\ PeekVersion (list_byte_of_string "null") = Ok 1
  /\ PeekVersion (list_byte_of_string ("{" +:+ Doubles.quoted "$version" +:+ ":3.0}"))
     = Err (Errorf "peeking version: %w" [] (UnmarshalTypeError "number 3.0"))
  /\ PeekVersion (list_byte_of_string
                    ("{" +:+ Doubles.quoted "$version" +:+ ":" +:+ Doubles.quoted "3" +:+ "}"))
     = Err (Errorf "peeking version: %w" [] (UnmarshalTypeError "string"))
  /\ PeekVersion (list_byte_of_string
                    ("{" +:+ Doubles.quoted "$version" +:+ ":9223372036854775808}"))
     = Err (Errorf "peeking version: %w" []
              (UnmarshalTypeError "number 9223372036854775808"))
  /\ PeekVersion (list_byte_of_string "[]")
     = Err (Errorf "peeking version: %w" [] (UnmarshalTypeError "array")).
Proof. repeat split; vm_compute; reflexivity. Qed.

End PeekFacts.

(** ** The multi-session resolver *)

Module ResolverFacts.
Import OS Session Daemon StringFacts StoreFacts.

Lemma omap_ext_in {A B} (f g : A -> option B) (l : list A) :
  (forall x, x ∈ l -> f x = g x) -> omap f l = omap g l.
Proof.
  intros Hfg. apply list_omap_ext.
  induction l as [|x l IH]; constructor.
  - apply Hfg. left.
  - apply IH. intros y Hy. apply Hfg. right. exact Hy.
Qed.

(** What [findLatestState] does with the states it is handed, one after the
    other: the first one, then any with a strictly greater [LastActivity]. *)
Definition later (best : option State) (s : State) : option State :=
  match best with
  | None => Some s
  | Some b => if LastActivity s >? LastActivity b then Some s else Some b
  end.

Definition latest (best : option State) (states : list State) : option State :=
  fold_left later states best.

Lemma latest_Some b : forall states, exists b', latest (Some b) states = Some b'.
Proof.
  intros states. revert b. induction states as [|s states IH]; intros b; cbn.
  - eauto.
  - destruct (LastActivity s >? LastActivity b); apply IH.
Qed.

(** The state kept is one of those seen and none seen is later. *)
Lemma latest_greatest : forall states b0 b,
  latest (Some b0) states = Some b ->
  (b = b0 \/ In b states)
  /\ LastActivity b0 <= LastActivity b
  /\ (forall s, In s states -> LastActivity s <= LastActivity b).
Proof.
  induction states as [|s states IH]; intros b0 b Hb; cbn in Hb.
  - injection Hb as <-. repeat split; [auto|lia|intros s []].
  - destruct (Z.gtb_spec (LastActivity s) (LastActivity b0)) as [Hgt|Hle];
      destruct (IH _ _ Hb) as (Hin & Hge & Hall).
    + repeat split.
      * right. destruct Hin as [->|Hin]; [left; reflexivity|right; exact Hin].
      * lia.
      * intros s' [<-|Hs']; [exact Hge|apply Hall; exact Hs'].
    + repeat split.
      * destruct Hin as [->|Hin]; [left; reflexivity|right; right; exact Hin].
      * exact Hge.
      * intros s' [<-|Hs']; [lia|apply Hall; exact Hs'].
Qed.

Lemma latest_None_nil states : latest None states = None -> states = [].
Proof.
  destruct states as [|s states]; [reflexivity|].
  change (latest None (s :: states)) with (latest (Some s) states).
  destruct (latest_Some s states) as [b' ->]. discriminate.
Qed.

Lemma latest_of_some states :
  states <> [] ->
  exists b, latest None states = Some b
            /\ In b states
            /\ (forall s, In s states -> LastActivity s <= LastActivity b).
Proof.
  destruct states as [|s states]; [congruence|]. intros _.
  change (latest None (s :: states)) with (latest (Some s) states).
  destruct (latest_Some s states) as [b Hb]. exists b.
  destruct (latest_greatest _ _ _ Hb) as (Hin & Hge & Hall).
  repeat split; [exact Hb| |].
  - destruct Hin as [->|Hin]; [left; reflexivity|right; exact Hin].
  - intros s' [<-|Hs']; [exact Hge|apply Hall; exact Hs'].
Qed.

(** The greatest timestamp does not depend on the order of the states. *)
Lemma latest_Permutation states states' :
  Permutation states states' ->
  LastActivity <$> latest None states = LastActivity <$> latest None states'.
Proof.
  intros Hp.
  destruct states as [|s0 states0] eqn:Es.
  - apply Permutation_nil in Hp. subst. reflexivity.
  - assert (Hne : states <> []) by (subst; discriminate).
    assert (Hne' : states' <> []).
    { intros ->. apply Permutation_sym, Permutation_nil in Hp. discriminate. }
    rewrite <- Es in *.
    destruct (latest_of_some states Hne) as (b & -> & Hin & Hall).
    destruct (latest_of_some states' Hne') as (b' & -> & Hin' & Hall').
    cbn. f_equal.
    pose proof (Hall b' (Permutation_in _ (Permutation_sym Hp) Hin')).
    pose proof (Hall' b (Permutation_in _ Hp Hin)).
    lia.
Qed.

Section Resolver.
Context `{Json State}.
Variable filepath_Join : string -> string -> string.
Variable filepath_Glob : world -> string -> result (list string).

(** What [ReadState] returns, as a function of what [os.ReadFile] returned:
    the writes it attempts have no part in the result. *)
Definition decoded (migs : list Migrate.Migration) (read : result bytes)
  : option State * option error :=
  match read with
  | inl e => (None, Some (Errorf "reading state file: %w" [] e))
  | inr data =>
      match json_Unmarshal data zeroState with
      | inl e =>
          (Some (set_Version CurrentVersion zeroState),
           Some (Errorf "corrupted state file (backed up to %s): %w" [] e))
      | inr s =>
          match applyMigrations migs (if Version s =? 0 then set_Version 1 s else s) data with
          | inl e => (None, Some e)
          | inr s =>
              (Some (if Version s >? CurrentVersion then set_Version CurrentVersion s else s),
               None)
          end
      end
  end.

Lemma ReadState_returns migs fs path :
  fst (ReadState migs fs path) = decoded migs (ReadFile fs path).
Proof.
  unfold ReadState, decoded.
  destruct (ReadFile fs path) as [e|data]; [reflexivity|].
  destruct (json_Unmarshal data zeroState) as [e|s].
  { rewrite recoverCorruptedState_eq. reflexivity. }
  destruct (applyMigrations migs _ data) as [e|s']; [reflexivity|].
  destruct (Version s' >? CurrentVersion); [|reflexivity].
  rewrite normalizeToCurrentVersion_eq. reflexivity.
Qed.

(** [ReadState] never returns neither a state nor an error. *)
Lemma ReadState_nil_with_error migs fs path :
  fst (fst (ReadState migs fs path)) = None ->
  is_Some (snd (fst (ReadState migs fs path))).
Proof.
  rewrite ReadState_returns. unfold decoded.
  destruct (ReadFile fs path) as [e|data]; [cbn; eauto|].
  destruct (json_Unmarshal data zeroState) as [e|s]; [discriminate|].
  destruct (applyMigrations migs _ data) as [e|s']; [cbn; eauto|discriminate].
Qed.

Lemma archived_faulty fs bak data path s complaint :
  faulty (archived fs bak data path s complaint) = faulty fs.
Proof.
  unfold archived.
  pose proof (WriteFile_keeps fs bak data) as [Hf _].
  destruct (WriteFile fs bak data) as [fs1 [wErr|]]; cbn [fst] in Hf.
  - pose proof (saveState_keeps (slog_Warn fs1 "failed to write backup" bak) path s)
      as [Hf2 _].
    destruct (saveState _ path s) as [fs2 [sErr|]]; cbn [fst] in Hf2; cbn;
      rewrite Hf2; exact Hf.
  - pose proof (saveState_keeps fs1 path s) as [Hf2 _].
    destruct (saveState fs1 path s) as [fs2 [sErr|]]; cbn [fst] in Hf2; cbn;
      rewrite Hf2; exact Hf.
Qed.

Lemma archived_frame fs bak data path s complaint q :
  q <> bak -> q <> path -> is_Some (files fs !! q) ->
  files (archived fs bak data path s complaint) !! q = files fs !! q.
Proof.
  intros Hb Hp Hex. unfold archived.
  pose proof (WriteFile_frame fs bak data q Hb) as Hw.
  destruct (WriteFile fs bak data) as [fs1 [wErr|]]; cbn [fst] in Hw.
  - pose proof (saveState_frame (slog_Warn fs1 "failed to write backup" bak) path s q Hp)
      as Hs.
    cbn [slog_Warn slog files] in Hs. rewrite Hw in Hs. specialize (Hs Hex).
    destruct (saveState _ path s) as [fs2 [sErr|]]; cbn [fst] in Hs; cbn;
      rewrite Hs; reflexivity.
  - pose proof (saveState_frame fs1 path s q Hp) as Hs.
    rewrite Hw in Hs. specialize (Hs Hex).
    destruct (saveState fs1 path s) as [fs2 [sErr|]]; cbn [fst] in Hs; cbn;
      rewrite Hs; reflexivity.
Qed.

Lemma ReadState_faulty migs fs path :
  faulty (snd (ReadState migs fs path)) = faulty fs.
Proof.
  unfold ReadState.
  destruct (ReadFile fs path) as [e|data]; [reflexivity|].
  destruct (json_Unmarshal data zeroState) as [e|s].
  { rewrite recoverCorruptedState_eq. cbn [snd]. rewrite archived_faulty. reflexivity. }
  destruct (applyMigrations migs _ data) as [e|s']; [reflexivity|].
  destruct (Version s' >? CurrentVersion); [|reflexivity].
  rewrite normalizeToCurrentVersion_eq. cbn [snd]. rewrite archived_faulty. reflexivity.
Qed.

(** A read of [path] changes no other existing file whose name ends in
    [n], as the names matching [state.*.json] do: the backups it writes end
    in [d] and [k]. *)
Lemma ReadState_frame migs fs path q :
  q <> path -> last_char q = Some "n"%char -> is_Some (files fs !! q) ->
  files (snd (ReadState migs fs path)) !! q = files fs !! q.
Proof.
  intros Hp Hlast Hex.
  assert (Hc : q <> path +:+ ".corrupted").
  { intros ->. rewrite last_char_append in Hlast by discriminate.
    vm_compute in Hlast. discriminate. }
  assert (Hb : forall v, q <> bakPath path v).
  { intros v ->. rewrite last_char_bakPath in Hlast. discriminate. }
  unfold ReadState.
  destruct (ReadFile fs path) as [e|data]; [reflexivity|].
  destruct (json_Unmarshal data zeroState) as [e|s].
  { rewrite recoverCorruptedState_eq. cbn [snd].
    rewrite archived_frame by (first [assumption | exact Hex]). reflexivity. }
  destruct (applyMigrations migs _ data) as [e|s']; [reflexivity|].
  destruct (Version s' >? CurrentVersion); [|reflexivity].
  rewrite normalizeToCurrentVersion_eq. cbn [snd].
  rewrite archived_frame by (first [assumption | apply Hb | exact Hex]). reflexivity.
Qed.

(** A read that returns no state has written nothing. *)
Lemma ReadState_nil_keeps migs fs path :
  fst (fst (ReadState migs fs path)) = None -> snd (ReadState migs fs path) = fs.
Proof.
  unfold ReadState.
  destruct (ReadFile fs path) as [e|data]; [reflexivity|].
  destruct (json_Unmarshal data zeroState) as [e|s].
  { rewrite recoverCorruptedState_eq. discriminate. }
  destruct (applyMigrations migs _ data) as [e|s']; [reflexivity|].
  destruct (Version s' >? CurrentVersion); [|discriminate].
  rewrite normalizeToCurrentVersion_eq. discriminate.
Qed.

Lemma ReadFile_same fs fs' q :
  files fs' !! q = files fs !! q -> faulty fs' = faulty fs ->
  ReadFile fs' q = ReadFile fs q.
Proof. intros Hf Hq. unfold ReadFile. rewrite Hf, Hq. reflexivity. Qed.

(** The names a glob for [state.*.json] returns: files that exist, whose
    names end in [.json]. *)
Definition state_file (fs : world) (p : string) : Prop :=
  is_Some (files fs !! p) /\ HasSuffix p ".json" = true.

Lemma state_file_last_char fs p : state_file fs p -> last_char p = Some "n"%char.
Proof.
  intros [_ Hs]. rewrite (HasSuffix_last_char ".json" ltac:(discriminate) p Hs).
  reflexivity.
Qed.

(** The states that the files yield, each read in the world as the scan
    found it. *)
Definition parsed (migs : list Migrate.Migration) (fs : world) (matches : list string)
  : list State :=
  omap (fun p => fst (fst (ReadState migs fs p))) matches.

Lemma parsed_cons migs fs p matches :
  parsed migs fs (p :: matches) =
    match fst (fst (ReadState migs fs p)) with
    | Some s => s :: parsed migs fs matches
    | None => parsed migs fs matches
    end.
Proof. reflexivity. Qed.

(** The scan keeps the latest of the states the files yield: no read
    disturbs a later one, and a file that yields no state is passed over. *)
Lemma scan_latest migs : forall matches fs best,
  NoDup matches -> Forall (state_file fs) matches ->
  fst (scan migs fs best matches) = latest best (parsed migs fs matches).
Proof.
  induction matches as [|p matches IH]; intros fs best Hnd Hall; [reflexivity|].
  apply NoDup_cons in Hnd as [Hp Hnd]. apply Forall_cons in Hall as [Hpf Hall].
  cbn [scan]. rewrite parsed_cons.
  assert (Hnext : forall fs',
            (forall q, q ∈ matches -> files fs' !! q = files fs !! q) ->
            faulty fs' = faulty fs ->
            Forall (state_file fs') matches
            /\ parsed migs fs' matches = parsed migs fs matches).
  { intros fs' Hfiles Hfaulty. split.
    - apply Forall_forall. intros q Hq.
      destruct (proj1 (Forall_forall _ _) Hall q Hq) as [Hex Hsuf].
      split; [rewrite Hfiles by exact Hq; exact Hex|exact Hsuf].
    - unfold parsed. apply omap_ext_in. intros q Hq.
      rewrite !ReadState_returns. f_equal. f_equal.
      apply ReadFile_same; auto. }
  assert (Hother : forall q, q ∈ matches ->
            files (snd (ReadState migs fs p)) !! q = files fs !! q).
  { intros q Hq.
    destruct (proj1 (Forall_forall _ _) Hall q Hq) as [Hex Hsuf].
    apply ReadState_frame; [|eapply state_file_last_char; split; eauto|exact Hex].
    intros ->. contradiction. }
  pose proof (ReadState_faulty migs fs p) as Hfaulty.
  destruct (ReadState migs fs p) as [[[s|] err] fs1]; cbn [fst snd] in *.
  - destruct (Hnext fs1 Hother Hfaulty) as [Hall1 Hparsed].
    rewrite (IH fs1 _ Hnd Hall1), Hparsed. reflexivity.
  - destruct (Hnext (slog_Debug fs1 "skipping unreadable state file" p) Hother Hfaulty)
      as [Hall1 Hparsed].
    rewrite (IH _ _ Hnd Hall1), Hparsed. reflexivity.
Qed.

(** When no file yields a state, the scan leaves the files as they were. *)
Lemma scan_nothing migs : forall matches fs best,
  parsed migs fs matches = [] ->
  files (snd (scan migs fs best matches)) = files fs
  /\ faulty (snd (scan migs fs best matches)) = faulty fs.
Proof.
  induction matches as [|p matches IH]; intros fs best Hnone; [auto|].
  rewrite parsed_cons in Hnone. cbn [scan].
  pose proof (ReadState_nil_keeps migs fs p) as Hkeep.
  destruct (ReadState migs fs p) as [[[s|] err] fs1]; cbn [fst snd] in *;
    [discriminate|].
  rewrite (Hkeep eq_refl).
  apply (IH (slog_Debug fs "skipping unreadable state file" p) best).
  rewrite <- Hnone. unfold parsed. apply omap_ext_in.
  intros q _. rewrite !ReadState_returns. reflexivity.
Qed.

End Resolver.

(** C5. Multi-session resolution: [findLatestState] reads every file that the
    glob for [state.*.json] in the data directory returns.  A file that yields
    no state is passed over and the scan goes on.  When some file yields a
    state, the state returned is one of those the files yield and none of
    them has a greater [lastActivity]; a glob that enumerates the same files
    in any other order leads to a state with the same [lastActivity], and to
    the same state when only one has it (so for T1 < T2 < T3 the T3 state).
    When no file yields a state, the result is that of reading the legacy
    [state.json]. *)
Theorem findLatestState_latest `{Json State}
    (filepath_Join : string -> string -> string)
    (filepath_Glob filepath_Glob' : world -> string -> result (list string))
    (migs : list Migrate.Migration) (fs : world) (dataDir : string)
    (matches matches' : list string) :
  filepath_Glob fs (filepath_Join dataDir "state.*.json") = Ok matches ->
  filepath_Glob' fs (filepath_Join dataDir "state.*.json") = Ok matches' ->
  Permutation matches matches' ->
  NoDup matches ->
  Forall (state_file fs) matches ->
  (parsed migs fs matches <> [] ->
     exists best best',
       fst (findLatestState filepath_Join filepath_Glob migs fs dataDir)
         = (Some best, None)
       /\ fst (findLatestState filepath_Join filepath_Glob' migs fs dataDir)
         = (Some best', None)
       /\ (exists p, In p matches /\ fst (fst (ReadState migs fs p)) = Some best)
       /\ (forall p s, In p matches -> fst (fst (ReadState migs fs p)) = Some s ->
             LastActivity s <= LastActivity best)
       /\ LastActivity best' = LastActivity best
       /\ ((forall p s, In p matches -> fst (fst (ReadState migs fs p)) = Some s ->
              LastActivity s = LastActivity best -> s = best) ->
           best' = best))
  /\ (parsed migs fs matches = [] ->
      fst (findLatestState filepath_Join filepath_Glob migs fs dataDir)
        = fst (ReadState migs fs (filepath_Join dataDir StateFile))).
Proof.
  intros Hglob Hglob' Hperm Hnd Hall.
  assert (Hnd' : NoDup matches') by (rewrite <- Hperm; exact Hnd).
  assert (Hall' : Forall (state_file fs) matches') by (rewrite <- Hperm; exact Hall).
  assert (Hpp : Permutation (parsed migs fs matches) (parsed migs fs matches')).
  { unfold parsed. rewrite Hperm. reflexivity. }
  pose proof (scan_latest migs matches fs None Hnd Hall) as Hscan.
  pose proof (scan_latest migs matches' fs None Hnd' Hall') as Hscan'.
  assert (Hyield : forall l s, In s (parsed migs fs l) <->
            exists p, In p l /\ fst (fst (ReadState migs fs p)) = Some s).
  { intros l s. unfold parsed. rewrite <- list_elem_of_In, list_elem_of_omap.
    setoid_rewrite list_elem_of_In. reflexivity. }
  unfold findLatestState. unfold Ok in Hglob, Hglob'. rewrite Hglob, Hglob'.
  split.
  - intros Hne.
    assert (Hne' : parsed migs fs matches' <> []).
    { intros Hnil. rewrite Hnil in Hpp.
      apply Permutation_sym, Permutation_nil in Hpp. contradiction. }
    destruct (latest_of_some _ Hne) as (b & Hb & Hin & Hmax).
    destruct (latest_of_some _ Hne') as (b' & Hb' & Hin' & Hmax').
    rewrite Hb in Hscan. rewrite Hb' in Hscan'.
    destruct (scan migs fs None matches) as [best1 fs1]. cbn [fst] in Hscan. subst best1.
    destruct (scan migs fs None matches') as [best2 fs2]. cbn [fst] in Hscan'. subst best2.
    assert (Hin2 : In b' (parsed migs fs matches)).
    { eapply Permutation_in; [apply Permutation_sym; exact Hpp|exact Hin']. }
    assert (Hin3 : In b (parsed migs fs matches')).
    { eapply Permutation_in; [exact Hpp|exact Hin]. }
    assert (Heq : LastActivity b' = LastActivity b).
    { pose proof (Hmax b' Hin2). pose proof (Hmax' b Hin3). lia. }
    exists b, b'. cbn [fst]. repeat split.
    + apply Hyield. exact Hin.
    + intros p s Hp Hs. apply Hmax. apply Hyield. eauto.
    + exact Heq.
    + intros Huniq. apply Hyield in Hin2 as (p & Hp & Hs).
      apply (Huniq p b' Hp Hs Heq).
  - intros Hnil.
    destruct (scan_nothing migs matches fs None Hnil) as [Hfiles Hfaulty].
    rewrite Hnil in Hscan.
    destruct (scan migs fs None matches) as [best1 fs1].
    cbn [fst snd] in *. subst best1.
    change (latest None []) with (@None State). cbv beta iota.
    rewrite !ReadState_returns. f_equal.
    apply ReadFile_same; [rewrite Hfiles; reflexivity|exact Hfaulty].
Qed.

Import Doubles.

(** Stand-ins for [filepath.Join] and [filepath.Glob] on the finite map of
    files: a pattern with one star matches by prefix and suffix. *)
Definition join (dir name : string) : string := dir +:+ "/" +:+ name.

Fixpoint split_star (pattern : string) : string * string :=
  match pattern with
  | EmptyString => (EmptyString, EmptyString)
  | String c r =>
      if Ascii.eqb c "*" then (EmptyString, r)
      else let '(a, b) := split_star r in (String c a, b)
  end.

Definition glob (fs : world) (pattern : string) : result (list string) :=
  let '(pre, post) := split_star pattern in
  Ok (List.filter
        (fun p => String.prefix pre p && HasSuffix p post
                  && (String.length pre + String.length post <=? String.length p)%nat)
        (List.map fst (map_to_list (files fs)))).

Definition glob_backwards (fs : world) (pattern : string) : result (list string) :=
  match glob fs pattern with
  | inl e => inl e
  | inr l => Ok (rev l)
  end.

Definition state_json (client : string) (lastActivity : Z) : string :=
  "{" +:+ json_number "$version" 1 +:+ "," +:+ json_string "sessionId" client
  +:+ "," +:+ json_number "lastActivity" lastActivity
  +:+ "," +:+ json_string "client" client +:+ "," +:+ json_bool "stopped" false +:+ "}".

(** A data directory with three sessions last active at 100 < 200 < 300, a
    file that cannot be read and a legacy file. *)
Definition sessions : world :=
  {| files := files (disk [("/data/state.code.json", state_json "code" 200);
                           ("/data/state.zed.json", state_json "zed" 300);
                           ("/data/state.vim.json", state_json "vim" 100);
                           ("/data/state.bad.json", state_json "bad" 900);
                           ("/data/state.json", state_json "legacy" 999)]);
     faulty := fun call p =>
       match call with
       | SysReadFile => String.eqb p "/data/state.bad.json"
       | _ => false
       end;
     logged := [] |}.

Example sessions_glob :
  glob sessions (join "/data" "state.*.json")
    = Ok ["/data/state.code.json"; "/data/state.vim.json"; "/data/state.zed.json";
          "/data/state.bad.json"].
Proof. vm_compute. reflexivity. Qed.

Definition session_files : list string :=
  ["/data/state.code.json"; "/data/state.vim.json"; "/data/state.zed.json";
   "/data/state.bad.json"].

Lemma findLatestState_latest_witness :
  exists best best',
    fst (findLatestState join glob [] sessions "/data") = (Some best, None)
    /\ fst (findLatestState join glob_backwards [] sessions "/data") = (Some best', None)
    /\ LastActivity best = 300
    /\ Client best = "zed"
    /\ best' = best.
Proof.
  destruct (findLatestState_latest join glob glob_backwards [] sessions "/data"
              session_files (rev session_files)) as [Hsome _].
  - vm_compute. reflexivity.
  - vm_compute. reflexivity.
  - apply Permutation_rev.
  - apply (bool_decide_unpack _). vm_compute. reflexivity.
  - repeat constructor; try (vm_compute; reflexivity);
      vm_compute; eexists; reflexivity.
  - destruct Hsome as (best & best' & H1 & H2 & _ & _ & _ & _).
    + vm_compute. discriminate.
    + exists best, best'. split; [exact H1|]. split; [exact H2|].
      vm_compute in H1. vm_compute in H2.
      injection H1 as <-. injection H2 as <-.
      repeat split; reflexivity.
Defined.

(** With the per-client files gone, the legacy file is read. *)
Example findLatestState_legacy :
  fst (findLatestState join glob []
         (disk [("/data/state.json", state_json "legacy" 999)]) "/data")
  = fst (ReadState [] (disk [("/data/state.json", state_json "legacy" 999)])
           "/data/state.json").
Proof. vm_compute. reflexivity. Qed.

(** The unreadable file was passed over with a record in the log. *)
Example findLatestState_skip_logged :
  logged (snd (findLatestState join glob [] sessions "/data"))
  = [{| lvl := LevelDebug; msg := "skipping unreadable state file";
        about := "/data/state.bad.json" |}].
Proof. vm_compute. reflexivity. Qed.

End ResolverFacts.

(** ** The presentation engine *)

Module EngineFacts.
Import Session StringFacts.

(** The number of characters of a UTF-8 string: its bytes other than
    continuation bytes ([10xxxxxx]). *)
Definition is_continuation (c : ascii) : bool :=
  let n := nat_of_ascii c in ((128 <=? n) && (n <? 192))%nat.

Fixpoint utf8_chars (s : string) : nat :=
  match s with
  | EmptyString => 0
  | String c r => if is_continuation c then utf8_chars r else S (utf8_chars r)
  end.

Lemma utf8_chars_le_length s : (utf8_chars s <= String.length s)%nat.
Proof.
  induction s as [|c s IH]; simpl; [lia|].
  destruct (is_continuation c); lia.
Qed.

Lemma utf8_chars_append s t : utf8_chars (s +:+ t) = (utf8_chars s + utf8_chars t)%nat.
Proof.
  induction s as [|c s IH]; [reflexivity|].
  change (utf8_chars (String c s +:+ t))
    with (if is_continuation c then utf8_chars (s +:+ t) else S (utf8_chars (s +:+ t))).
  rewrite IH. simpl. destruct (is_continuation c); reflexivity.
Qed.

Lemma slen_ellipsis : slen ellipsis = 3.
Proof. reflexivity. Qed.

Lemma utf8_chars_ellipsis : utf8_chars ellipsis = 1%nat.
Proof. reflexivity. Qed.

Section Engine.
Context `{Helpers}.

(** A line within the limit comes back as it is. *)
Lemma truncateLine_within s : slen s <= discordMaxLen -> truncateLine s = s.
Proof.
  intros Hs. unfold truncateLine.
  destruct (Z.gtb_spec (slen s) discordMaxLen); [lia|reflexivity].
Qed.

(** A line over the limit is cut to its first 127 bytes and the three bytes
    of the ellipsis are appended: 130 bytes, at most 128 characters. *)
Lemma truncateLine_over s :
  slen s > discordMaxLen ->
  truncateLine s = slice_to s (discordMaxLen - 1) +:+ ellipsis
  /\ slen (truncateLine s) = discordMaxLen + 2
  /\ (utf8_chars (truncateLine s) <= 128)%nat.
Proof.
  intros Hs. unfold truncateLine.
  destruct (Z.gtb_spec (slen s) discordMaxLen) as [_|Hle]; [|lia].
  assert (Hcut : String.length (slice_to s (discordMaxLen - 1)) = 127%nat).
  { unfold slice_to. rewrite length_substring_0.
    unfold slen, discordMaxLen in *. change (Z.to_nat (128 - 1)) with 127%nat. lia. }
  split; [reflexivity|]. split.
  - unfold slen. rewrite length_append, Hcut. reflexivity.
  - rewrite utf8_chars_append, utf8_chars_ellipsis.
    pose proof (utf8_chars_le_length (slice_to s (discordMaxLen - 1))). lia.
Qed.

Lemma applyTemplate_truncates tmpl vars :
  applyTemplate tmpl vars = truncateLine (defaultFormats (explicitFormats tmpl vars) vars).
Proof. reflexivity. Qed.

Lemma isIdle_spec now cfg lastActivity :
  isIdle now cfg lastActivity = true <->
  IdleMinutes cfg > 0
  /\ int64 (now - lastActivity) > int64 (int64 (IdleMinutes cfg) * 60).
Proof.
  unfold isIdle. rewrite andb_true_iff, !Z.gtb_gt. lia.
Qed.

(** [isIdle] computes the silence [now - lastActivity] and the threshold
    [IdleMinutes * 60] in int64.  Where both are numbers that an int64 holds,
    its comparison is the one on the integers. *)
Lemma isIdle_in_range now cfg lastActivity :
  - 2 ^ 63 <= now - lastActivity < 2 ^ 63 ->
  - 2 ^ 63 <= IdleMinutes cfg * 60 < 2 ^ 63 ->
  int64 (now - lastActivity) = now - lastActivity
  /\ int64 (int64 (IdleMinutes cfg) * 60) = IdleMinutes cfg * 60.
Proof.
  intros Hd Ht. unfold int64.
  change (2 ^ 64) with 18446744073709551616.
  change (2 ^ 63) with 9223372036854775808 in *.
  rewrite (Z.mod_small (IdleMinutes cfg + 9223372036854775808)) by lia.
  replace (IdleMinutes cfg + 9223372036854775808 - 9223372036854775808)
    with (IdleMinutes cfg) by lia.
  rewrite !Z.mod_small by lia. lia.
Qed.

(** C6, as amended.  Idle semantics: for a state that is not stopped and
    whose working directory matches no ignore pattern, and a silence
    [now - lastActivity] and a threshold [IdleMinutes*60] that an int64 holds,
    [BuildActivityWithData] returns nil when [IdleMinutes > 0],
    [now - lastActivity > IdleMinutes*60] and the idle mode is ["clear"] or
    unset; under ["idle_text"] it returns instead a payload whose details and
    state lines are the configured idle strings and whose elapsed-time origin
    is the session start; and when [now - lastActivity <= IdleMinutes*60] or
    [IdleMinutes] is 0 the result is not nil.  The comparisons are those of
    the integers. *)
Theorem BuildActivityWithData_idle (now : Z) (s : State) (cfg : ActivityConfig)
    (cost : float) (totalTokens : Z) (model : string) (jsonl : option JSONLData) :
  Stopped s = false ->
  matchesIgnorePattern (IgnoredPatterns cfg) (CWD s) = false ->
  - 2 ^ 63 <= now - LastActivity s < 2 ^ 63 ->
  - 2 ^ 63 <= IdleMinutes cfg * 60 < 2 ^ 63 ->
  (IdleMinutes cfg > 0 ->
   now - LastActivity s > IdleMinutes cfg * 60 ->
   (IdleMode cfg = "clear" \/ IdleMode cfg = "" ->
    BuildActivityWithData now s cfg cost totalTokens model jsonl = None)
   /\ (IdleMode cfg = "idle_text" ->
       exists a, BuildActivityWithData now s cfg cost totalTokens model jsonl = Some a
                 /\ Details a = IdleDetails cfg
                 /\ State_ a = IdleState cfg
                 /\ Start (Timestamps_ a) = SessionStart s))
  /\ (now - LastActivity s <= IdleMinutes cfg * 60 \/ IdleMinutes cfg = 0 ->
      is_Some (BuildActivityWithData now s cfg cost totalTokens model jsonl)).
Proof.
  intros Hrun Hshown Hsilence Hthreshold.
  destruct (isIdle_in_range now cfg (LastActivity s) Hsilence Hthreshold) as [Hd Ht].
  unfold BuildActivityWithData. rewrite Hrun, Hshown. split.
  - intros Hmin Hold.
    assert (Hidle : isIdle now cfg (LastActivity s) = true).
    { apply isIdle_spec. rewrite Hd, Ht. auto. }
    rewrite Hidle. unfold buildIdleActivity. split.
    + intros [-> | ->]; reflexivity.
    + intros ->. eexists. split; [reflexivity|]. auto.
  - intros Hrecent.
    assert (Hidle : isIdle now cfg (LastActivity s) = false).
    { destruct (isIdle now cfg (LastActivity s)) eqn:E; [|reflexivity].
      apply isIdle_spec in E. rewrite Hd, Ht in E. lia. }
    rewrite Hidle. eexists. reflexivity.
Qed.

(** Whatever the template and the variables, a rendered line over the limit
    comes out 130 bytes long. *)
Lemma applyTemplate_over tmpl vars :
  slen (defaultFormats (explicitFormats tmpl vars) vars) > discordMaxLen ->
  slen (applyTemplate tmpl vars) = 130
  /\ applyTemplate tmpl vars
     = slice_to (defaultFormats (explicitFormats tmpl vars) vars) 127 +:+ ellipsis.
Proof.
  intros Hover. rewrite applyTemplate_truncates.
  destruct (truncateLine_over _ Hover) as (Heq & Hlen & _).
  split; [exact Hlen|exact Heq].
Qed.

Lemma applyTemplate_within tmpl vars :
  slen (defaultFormats (explicitFormats tmpl vars) vars) <= discordMaxLen ->
  applyTemplate tmpl vars = defaultFormats (explicitFormats tmpl vars) vars.
Proof. intros Hw. rewrite applyTemplate_truncates. apply truncateLine_within. exact Hw. Qed.

(** [n] copies of [s] in a row. *)
Definition copies (n : nat) (s : string) : string := String.concat "" (repeat s n).

(** C7, at two templates without placeholders.  A line of 129 bytes [a] is
    cut to 127 bytes and given the three-byte ellipsis: the line produced is
    130 bytes long, over the maximum of 128 that [applyTemplate] itself
    measures with [len].  A line of 65 characters [€] (195 bytes) is within
    128 characters, and is cut all the same, after the first byte of its 43rd
    character. *)
Theorem applyTemplate_truncation_misses (vars : templateVars) :
  slen (copies 129 "a") = 129
  /\ slen (applyTemplate (copies 129 "a") vars) = 130
  /\ (slen (applyTemplate (copies 129 "a") vars) <=? discordMaxLen) = false
  /\ utf8_chars (copies 65 "€") = 65%nat
  /\ applyTemplate (copies 65 "€") vars
     = copies 42 "€" +:+ String "226" EmptyString +:+ ellipsis.
Proof. repeat split; vm_compute; reflexivity. Qed.

End Engine.

Import Doubles.

Definition presence_config (idleMinutes : Z) (idleMode : string) : ActivityConfig :=
  {| DetailsFormat := "Working on {project}";
     StateFormat := "Branch: {branch}";
     DetailsNoBranchFormat := "Working on {project}";
     StateNoCostFormat := "Coding";
     CostFormat := ""; TokenFormat := ""; ModelFormat := "";
     ProjectName := ""; IgnoredPatterns := ["/secret"];
     LargeImage := "claude"; LargeText := "Claude Code";
     ShowModelIcon := false; ShowRepoButton := false; RepoButtonLabel := "";
     CustomButtonLabel := ""; CustomButtonURL := "";
     ShowCost := false; ShowTokens := false; ShowBranch := true;
     TimestampMode := "session"; IdleMinutes := idleMinutes;
     ModelTiers := ["opus"; "sonnet"; "haiku"]; DefaultTierIcon := "default";
     CostShowThreshold := 0%float; TokensShowThreshold := 0;
     IdleMode := idleMode;
     IdleDetails := "Away from keyboard"; IdleState := "Idle" |}.

(** The session of the repository's [TestPresenceIdle], seen at [now]: started
    an hour ago, last active [ago] seconds ago. *)
Definition now : Z := 1707903600.

Definition session (ago : Z) : State :=
  {| Version := 1; SessionID := "abc"; SessionStart := now - 3600;
     LastActivity := now - ago; Project := "my-project"; Branch := "main";
     CWD := "/tmp/my-project"; GitRemoteURL := ""; Client := "claude-code";
     Stopped := false; ToolName := ""; ToolTarget := ""; ActiveFile := "";
     AgentState := ""; PermissionMode := ""; HookEvent := "" |}.

(** Thirty minutes of silence against a threshold of fifteen: nil by default,
    the idle text under ["idle_text"]; a session active a minute ago is
    shown. *)
Lemma BuildActivityWithData_idle_witness :
  BuildActivityWithData now (session 1800) (presence_config 15 "") 0%float 0 "" None = None
  /\ (exists a,
        BuildActivityWithData now (session 1800) (presence_config 15 "idle_text")
          0%float 0 "" None = Some a
        /\ Details a = "Away from keyboard" /\ State_ a = "Idle"
        /\ Start (Timestamps_ a) = now - 3600)
  /\ is_Some (BuildActivityWithData now (session 60) (presence_config 15 "") 0%float 0 "" None).
Proof.
  split; [|split].
  - destruct (BuildActivityWithData_idle now (session 1800) (presence_config 15 "")
                0%float 0 "" None) as [Hidle _];
      [reflexivity|vm_compute; reflexivity
      |vm_compute; split; [discriminate|reflexivity]
      |vm_compute; split; [discriminate|reflexivity]|].
    apply Hidle; [reflexivity|reflexivity|right; reflexivity].
  - destruct (BuildActivityWithData_idle now (session 1800) (presence_config 15 "idle_text")
                0%float 0 "" None) as [Hidle _];
      [reflexivity|vm_compute; reflexivity
      |vm_compute; split; [discriminate|reflexivity]
      |vm_compute; split; [discriminate|reflexivity]|].
    apply Hidle; reflexivity.
  - destruct (BuildActivityWithData_idle now (session 60) (presence_config 15 "")
                0%float 0 "" None) as [_ Hrecent];
      [reflexivity|vm_compute; reflexivity
      |vm_compute; split; [discriminate|reflexivity]
      |vm_compute; split; [discriminate|reflexivity]|].
    apply Hrecent. left. vm_compute. discriminate.
Defined.

(** A state file whose [lastActivity] is the least int64, read at [now]. *)
Definition ancient : State := session (now + 2 ^ 63).

(** C6 as stated fails where int64 wraps around.  The session of [ancient]
    has been silent for longer than fifteen minutes, and is shown all the
    same: its silence, [now + 2^63] seconds, is a negative number in int64.
    And under a threshold of 153722867280912931 minutes, whose seconds are
    a negative number in int64, a session that is active at this very moment
    is cleared. *)
Lemma isIdle_wraps_around :
  (Stopped ancient = false
   /\ matchesIgnorePattern (IgnoredPatterns (presence_config 15 "")) (CWD ancient) = false
   /\ IdleMinutes (presence_config 15 "") > 0
   /\ now - LastActivity ancient > IdleMinutes (presence_config 15 "") * 60
   /\ IdleMode (presence_config 15 "") = ""
   /\ is_Some (BuildActivityWithData now ancient (presence_config 15 "")
                 0%float 0 "" None))
  /\ (Stopped (session 0) = false
      /\ matchesIgnorePattern (IgnoredPatterns (presence_config 153722867280912931 ""))
           (CWD (session 0)) = false
      /\ now - LastActivity (session 0)
         <= IdleMinutes (presence_config 153722867280912931 "") * 60
      /\ BuildActivityWithData now (session 0) (presence_config 153722867280912931 "")
           0%float 0 "" None = None).
Proof.
  split.
  - split; [reflexivity|]. split; [vm_compute; reflexivity|].
    split; [reflexivity|]. split; [vm_compute; reflexivity|].
    split; [reflexivity|]. vm_compute. eauto.
  - split; [reflexivity|]. split; [vm_compute; reflexivity|].
    split; [vm_compute; discriminate|]. vm_compute. reflexivity.
Qed.

(** What the session active a minute ago is shown as. *)
Example BuildActivity_recent :
  BuildActivity now (session 60) (presence_config 15 "")
  = Some {| Details := "Working on my-project"; State_ := "Coding";
            Timestamps_ := {| Start := now - 3600 |};
            Assets_ := {| LargeImage_ := "claude"; LargeText_ := "Claude Code";
                          SmallImage := ""; SmallText := "" |};
            Buttons := [] |}.
Proof. vm_compute. reflexivity. Qed.

End EngineFacts.

(** ** The frame codec on a stream *)

Module FrameStreamFacts.
Import Discord FrameFacts.

(** [io.ReadFull] on a stream that ends before [n] bytes have arrived: the
    error is [io.EOF] when nothing at all was read and [io.ErrUnexpectedEOF]
    otherwise, and the stream is used up. *)
Lemma ReadFull_from_short (r : reader) : forall (got : bytes) (n : nat),
  (List.length (concat r) < n)%nat ->
  ReadFull_from got n r =
    (Err (New (match got ++ concat r with
               | [] => io_EOF
               | _ => io_ErrUnexpectedEOF
               end)), []).
Proof.
  induction r as [|chunk r IH]; intros got n Hn.
  - destruct n as [|m]; [cbn in Hn; lia|].
    cbn. rewrite app_nil_r. reflexivity.
  - destruct n as [|m]; [cbn in Hn; lia|].
    change (concat (chunk :: r)) with (chunk ++ concat r) in *.
    rewrite length_app in Hn.
    cbn [ReadFull_from].
    destruct (Nat.leb_spec (List.length chunk) (S m)) as [_|Hgt]; [|lia].
    rewrite IH by lia. rewrite <- app_assoc. reflexivity.
Qed.

(** A successful [io.ReadFull] has delivered the next [n] bytes of the
    stream and left the rest. *)
Lemma ReadFull_Ok (r : reader) (n : nat) (b : bytes) (r' : reader) :
  ReadFull r n = (Ok b, r') ->
  (n <= List.length (concat r))%nat
  /\ b = firstn n (concat r) /\ concat r' = skipn n (concat r).
Proof.
  intros Hread.
  destruct (Nat.le_gt_cases n (List.length (concat r))) as [Hle|Hgt].
  - destruct (ReadFull_enough r n Hle) as (r1 & H1 & H2).
    rewrite H1 in Hread. injection Hread as <- <-. auto.
  - unfold ReadFull in Hread. rewrite ReadFull_from_short in Hread by lia.
    discriminate.
Qed.

Lemma Uint32_range (b : bytes) (v : Z) : Uint32 b = Some v -> 0 <= v < 2 ^ 32.
Proof.
  destruct b as [|b0 [|b1 [|b2 [|b3 tl]]]]; try discriminate.
  rewrite Uint32_le_combine. intros [= <-].
  apply (le_combine_bound [b0; b1; b2; b3]).
Qed.

(** Storing the value read from four bytes gives those four bytes. *)
Lemma PutUint32_Uint32 (b : bytes) (v : Z) :
  List.length b = 4%nat -> Uint32 b = Some v -> PutUint32 v = b.
Proof.
  intros Hlen.
  destruct b as [|b0 [|b1 [|b2 [|b3 [|]]]]]; try discriminate Hlen.
  rewrite Uint32_le_combine. intros [= <-].
  rewrite PutUint32_le_split. apply (split_le_combine [b0; b1; b2; b3]).
Qed.

(** The frame of a message, as [EncodeFrame] lays it out. *)
Definition frame_of (m : Opcode * bytes) : bytes :=
  PutUint32 (fst m) ++ PutUint32 (len (snd m)) ++ snd m.

(** A message that [EncodeFrame] accepts without changing its opcode. *)
Definition frameable (m : Opcode * bytes) : Prop :=
  0 <= fst m < 2 ^ 32 /\ len (snd m) <= MaxPayloadSize.

Lemma EncodeFrame_frameable (m : Opcode * bytes) :
  frameable m -> EncodeFrame (fst m) (snd m) = Ok (frame_of m).
Proof.
  intros [Ho Hp]. pose proof (len_nonneg (snd m)) as Hp0.
  unfold EncodeFrame, frame_of.
  destruct (Z.gtb_spec (len (snd m)) MaxPayloadSize) as [Hgt|_]; [lia|].
  rewrite MaxPayloadSize_value in Hp.
  unfold uint32. rewrite !Z.mod_small by lia. reflexivity.
Qed.

(** One decode of a stream that opens with the frame of a message. *)
Lemma DecodeFrame_frame_of (m : Opcode * bytes) (r : reader) (more : bytes) :
  frameable m -> concat r = frame_of m ++ more ->
  exists r', DecodeFrame r = (Ok m, Decoding r' [frameHeaderSize; len (snd m)])
             /\ concat r' = more.
Proof.
  intros [Ho Hp] Hr. destruct m as [o p]. cbn [fst snd] in *.
  pose proof (len_nonneg p) as Hp0. rewrite MaxPayloadSize_value in Hp.
  assert (Hn : 0 <= len p < 2 ^ 32) by lia.
  destruct (DecodeFrame_header r o (len p) (p ++ more) Ho Hn) as (r1 & Hr1 & Hd).
  { rewrite Hr. unfold frame_of. cbn [fst snd]. rewrite <- !app_assoc. reflexivity. }
  destruct (Z.gtb_spec (len p) MaxPayloadSize) as [Hgt|_].
  { rewrite MaxPayloadSize_value in Hgt. lia. }
  unfold len in Hd at 1. rewrite Nat2Z.id in Hd.
  destruct (ReadFull_app r1 p more Hr1) as (r2 & Hread & Hrest).
  rewrite Hread in Hd. exists r2. split; [exact Hd|exact Hrest].
Qed.

(** X1. A stream that ends inside a frame is an error, never a short
    payload.  When fewer than eight bytes are left, [DecodeFrame] fails
    reading the header; when the header announces [n] bytes, within the
    limit, and fewer follow, it fails reading the payload.  In both cases the
    cause is [io.EOF] when the read found nothing at all and
    [io.ErrUnexpectedEOF] when it found some bytes, and the stream is used
    up. *)
Theorem DecodeFrame_truncated (r : reader) (hdr tail : bytes) (n : Z) :
  (len (concat r) < frameHeaderSize ->
     DecodeFrame r =
       (Err (Errorf "reading frame header: %w" []
               (New (match concat r with
                     | [] => io_EOF
                     | _ => io_ErrUnexpectedEOF
                     end))),
        Decoding [] [frameHeaderSize]))
  /\ (concat r = hdr ++ tail ->
      List.length hdr = 8%nat ->
      Uint32 (firstn 4 (skipn 4 hdr)) = Some n ->
      n <= MaxPayloadSize ->
      len tail < n ->
      DecodeFrame r =
        (Err (Errorf "reading frame payload: %w" []
                (New (match tail with
                      | [] => io_EOF
                      | _ => io_ErrUnexpectedEOF
                      end))),
         Decoding [] [frameHeaderSize; n])).
Proof.
  split.
  - intros Hshort. unfold DecodeFrame, ReadFull.
    rewrite ReadFull_from_short
      by (unfold len, frameHeaderSize in Hshort; change (Z.to_nat frameHeaderSize) with 8%nat; lia).
    reflexivity.
  - intros Hr Hlen Hn Hmax Htail.
    destruct (ReadFull_app r hdr tail Hr) as (r1 & Hread & Hrest).
    unfold DecodeFrame.
    change (Z.to_nat frameHeaderSize) with 8%nat. rewrite <- Hlen, Hread.
    unfold Ok at 1. cbv beta iota. rewrite Hn.
    destruct hdr as [|b0 [|b1 [|b2 [|b3 tl]]]]; try discriminate Hlen.
    change (firstn 4 (b0 :: b1 :: b2 :: b3 :: tl)) with [b0; b1; b2; b3].
    rewrite (Uint32_le_combine b0 b1 b2 b3 []).
    destruct (Z.gtb_spec n MaxPayloadSize) as [Hgt|_]; [lia|].
    unfold ReadFull. rewrite ReadFull_from_short
      by (rewrite Hrest; unfold len in Htail; lia).
    rewrite Hrest. reflexivity.
Qed.

(** A header for opcode 1 announcing five bytes, followed by two; and a
    stream of three bytes. *)
Lemma DecodeFrame_truncated_witness :
  DecodeFrame [[Byte.x01; Byte.x00]; [Byte.x00]] =
    (Err (Errorf "reading frame header: %w" [] (New io_ErrUnexpectedEOF)),
     Decoding [] [frameHeaderSize])
  /\ DecodeFrame [PutUint32 1; PutUint32 5 ++ [Byte.xaa; Byte.xbb]] =
       (Err (Errorf "reading frame payload: %w" [] (New io_ErrUnexpectedEOF)),
        Decoding [] [frameHeaderSize; 5]).
Proof.
  destruct (DecodeFrame_truncated [[Byte.x01; Byte.x00]; [Byte.x00]] [] [] 0)
    as [Hhdr _].
  destruct (DecodeFrame_truncated [PutUint32 1; PutUint32 5 ++ [Byte.xaa; Byte.xbb]]
              (PutUint32 1 ++ PutUint32 5) [Byte.xaa; Byte.xbb] 5) as [_ Hpay].
  split.
  - apply Hhdr. vm_compute. reflexivity.
  - apply Hpay; [reflexivity|reflexivity|vm_compute; reflexivity
                |vm_compute; discriminate|vm_compute; reflexivity].
Defined.

(** X2. Decoding is the inverse of encoding in this direction too: whatever
    stream [DecodeFrame] accepts, the message it returns is one that
    [EncodeFrame] accepts, its frame is exactly the bytes that were consumed,
    and what follows them is left in the reader.  So no two different byte
    sequences decode to the same message, and the payload buffer allocated is
    the payload's size. *)
Theorem DecodeFrame_reencodes (r : reader) (o : Opcode) (p : bytes) (d : decoding) :
  DecodeFrame r = (Ok (o, p), d) ->
  0 <= o < 2 ^ 32
  /\ len p <= MaxPayloadSize
  /\ (exists frame, EncodeFrame o p = Ok frame
                    /\ concat r = frame ++ concat (rest d)
                    /\ len frame = frameHeaderSize + len p)
  /\ made d = [frameHeaderSize; len p].
Proof.
  unfold DecodeFrame.
  destruct (ReadFull r (Z.to_nat frameHeaderSize)) as [[e|header] r1] eqn:Hh;
    [discriminate|].
  apply ReadFull_Ok in Hh as (Hh8 & Hheader & Hr1).
  change (Z.to_nat frameHeaderSize) with 8%nat in *.
  assert (Hlen : List.length header = 8%nat).
  { rewrite Hheader, length_firstn. lia. }
  destruct (Uint32 (firstn 4 header)) as [opcode|] eqn:Ho; [|discriminate].
  destruct (Uint32 (firstn 4 (skipn 4 header))) as [length|] eqn:Hn; [|discriminate].
  pose proof (Uint32_range _ _ Ho) as Hor.
  pose proof (Uint32_range _ _ Hn) as Hnr.
  destruct (Z.gtb_spec length MaxPayloadSize) as [Hgt|Hle]; [discriminate|].
  destruct (ReadFull r1 (Z.to_nat length)) as [[e|payload] r2] eqn:Hp; [discriminate|].
  apply ReadFull_Ok in Hp as (Hpn & Hpayload & Hr2).
  intros [= <- <- <-]. cbn [rest made].
  assert (Hplen : len payload = length).
  { unfold len. rewrite Hpayload, length_firstn. lia. }
  assert (Hput_o : PutUint32 opcode = firstn 4 header).
  { apply PutUint32_Uint32; [rewrite length_firstn; lia|exact Ho]. }
  assert (Hput_n : PutUint32 length = firstn 4 (skipn 4 header)).
  { apply PutUint32_Uint32; [rewrite length_firstn, length_skipn; lia|exact Hn]. }
  split; [exact Hor|]. split; [lia|]. split; [|rewrite Hplen; reflexivity].
  exists (PutUint32 opcode ++ PutUint32 (len payload) ++ payload).
  split; [|split].
  - unfold EncodeFrame.
    destruct (Z.gtb_spec (len payload) MaxPayloadSize) as [Hgt|_]; [lia|].
    unfold uint32. rewrite !Z.mod_small by lia. reflexivity.
  - rewrite Hplen, Hput_o, Hput_n, Hr2, Hpayload, Hr1.
    rewrite <- !app_assoc.
    rewrite (app_assoc (firstn 4 header)).
    replace (firstn 4 header ++ firstn 4 (skipn 4 header)) with header.
    + rewrite Hheader. rewrite firstn_skipn. apply eq_sym, firstn_skipn.
    + rewrite <- (firstn_skipn 4 header) at 1. f_equal.
      apply eq_sym, firstn_all2. rewrite length_skipn. lia.
  - unfold len. rewrite !length_app, !PutUint32_length. unfold frameHeaderSize. lia.
Qed.

(** The frame of the payload [68 69] under opcode 1, in two chunks, with a
    trailing byte. *)
Lemma DecodeFrame_reencodes_witness :
  exists frame,
    EncodeFrame 1 [Byte.x68; Byte.x69] = Ok frame
    /\ [Byte.x01; Byte.x00; Byte.x00; Byte.x00; Byte.x02; Byte.x00; Byte.x00; Byte.x00;
        Byte.x68; Byte.x69; Byte.xff] = frame ++ [Byte.xff].
Proof.
  destruct (DecodeFrame_reencodes
              [[Byte.x01; Byte.x00; Byte.x00]; [Byte.x00; Byte.x02; Byte.x00; Byte.x00; Byte.x00;
                Byte.x68]; [Byte.x69; Byte.xff]]
              1 [Byte.x68; Byte.x69]
              (Decoding [[Byte.xff]] [frameHeaderSize; 2]))
    as (_ & _ & (frame & Henc & Hcat & _) & _).
  - vm_compute. reflexivity.
  - exists frame. split; [exact Henc|exact Hcat].
Defined.

(** [DecodeFrame] called [n] times in a row on the same reader: the outcomes
    in order and the reader left. *)
Fixpoint DecodeFrames (n : nat) (r : reader)
  : list (result (Opcode * bytes)) * reader :=
  match n with
  | O => ([], r)
  | S n =>
      let '(outcome, d) := DecodeFrame r in
      let '(outcomes, r') := DecodeFrames n (rest d) in
      (outcome :: outcomes, r')
  end.

(** X3. Framing composes: when the frames of any number of messages are
    written back to back, however the transport chunks the bytes, as many
    decodes in a row return exactly those messages in order, and whatever
    follows the last frame is left unread. *)
Theorem DecodeFrames_stream (msgs : list (Opcode * bytes)) :
  Forall frameable msgs ->
  forall (r : reader) (more : bytes),
    concat r = concat (List.map frame_of msgs) ++ more ->
    Forall2 (fun m frame => EncodeFrame (fst m) (snd m) = Ok frame)
            msgs (List.map frame_of msgs)
    /\ exists r', DecodeFrames (List.length msgs) r = (List.map Ok msgs, r')
                  /\ concat r' = more.
Proof.
  intros Hall. induction Hall as [|m msgs Hm Hall IH]; intros r more Hr.
  - split; [constructor|]. exists r. split; [reflexivity|exact Hr].
  - cbn [List.map concat] in Hr. rewrite <- app_assoc in Hr.
    destruct (DecodeFrame_frame_of m r _ Hm Hr) as (r1 & Hd & Hr1).
    destruct (IH r1 more Hr1) as (Henc & r2 & Hds & Hr2).
    split.
    + constructor; [apply EncodeFrame_frameable; exact Hm|exact Henc].
    + exists r2. cbn [DecodeFrames List.length]. rewrite Hd. cbn [rest].
      rewrite Hds. split; [reflexivity|exact Hr2].
Qed.

(** A handshake frame and a command frame, delivered in chunks that respect
    neither boundary. *)
Lemma DecodeFrames_stream_witness :
  exists r',
    DecodeFrames 2
      [[Byte.x00; Byte.x00; Byte.x00; Byte.x00; Byte.x01];
       [Byte.x00; Byte.x00; Byte.x00; Byte.x7b; Byte.x01; Byte.x00];
       [Byte.x00; Byte.x00; Byte.x02; Byte.x00; Byte.x00; Byte.x00; Byte.x7b; Byte.x7d;
        Byte.xee]]
    = ([Ok (0, [Byte.x7b]); Ok (1, [Byte.x7b; Byte.x7d])], r')
    /\ concat r' = [Byte.xee].
Proof.
  destruct (DecodeFrames_stream [(0, [Byte.x7b]); (1, [Byte.x7b; Byte.x7d])])
    with (r := [[Byte.x00; Byte.x00; Byte.x00; Byte.x00; Byte.x01];
                [Byte.x00; Byte.x00; Byte.x00; Byte.x7b; Byte.x01; Byte.x00];
                [Byte.x00; Byte.x00; Byte.x02; Byte.x00; Byte.x00; Byte.x00; Byte.x7b;
                 Byte.x7d; Byte.xee]])
         (more := [Byte.xee]) as (_ & r' & Hd & Hr').
  - repeat constructor; vm_compute; discriminate.
  - vm_compute. reflexivity.
  - exists r'. split; [exact Hd|exact Hr'].
Defined.

End FrameStreamFacts.

(** ** The state store: atomic writes and repeated reads *)

Module StoreCycleFacts.
Import OS Session StringFacts StoreFacts.

Lemma append_empty_r (s : string) : s +:+ "" = s.
Proof.
  induction s as [|c s IH]; [reflexivity|].
  change (String c (s +:+ "") = String c s). rewrite IH. reflexivity.
Qed.

(** The name that [os.CreateTemp] picks extends the pattern it was given. *)
Lemma fresh_string_extends {A} (s : string) (m : stringmap A) :
  exists t, fresh_string s m = s +:+ t.
Proof.
  unfold fresh_string. destruct (m !! s) as [a|]; [|exists ""; symmetry; apply append_empty_r].
  generalize 0%N (wf_guard 32 (stringmap.fresh_string_R_wf s m) 0%N).
  fix FIX 2. intros n [?]. simpl. unfold stringmap.fresh_string_go at 1. simpl.
  destruct (Some_dec (m !! _)) as [[??]|?]; [apply FIX|eexists; reflexivity].
Qed.

(** The temporary file never is the target itself. *)
Lemma tmpName_neq {A} (path : string) (m : stringmap A) :
  fresh_string (path +:+ ".tmp.") m <> path.
Proof.
  destruct (fresh_string_extends (path +:+ ".tmp.") m) as [t ->].
  rewrite append_assoc. intros Heq. symmetry in Heq. revert Heq.
  apply append_nonempty_neq. discriminate.
Qed.

(** X4. The atomic write is all or nothing, whichever step the operating
    system refuses: when [atomicfile.Write] returns no error the target holds
    the new data, and when it returns an error the target is what it was
    before, present or absent, never a partial write.  The temporary file is
    gone afterwards unless its removal was refused, and no other file is
    touched. *)
Theorem Write_all_or_nothing (fs : world) (path : string) (data : bytes) :
  let tmpName := fresh_string (path +:+ ".tmp.") (files fs) in
  let fs' := fst (Atomicfile.Write fs path data) in
  let err := snd (Atomicfile.Write fs path data) in
  (err = None -> files fs' !! path = Some data)
  /\ (is_Some err -> files fs' !! path = files fs !! path)
  /\ (faulty fs SysRemove tmpName = false -> files fs' !! tmpName = None)
  /\ (forall q, q <> path -> q <> tmpName -> files fs' !! q = files fs !! q).
Proof.
  cbv zeta. unfold Atomicfile.Write.
  set (tmp := fresh_string (path +:+ ".tmp.") (files fs)).
  assert (Hfresh : files fs !! tmp = None) by apply fresh_string_fresh.
  assert (Hne : tmp <> path) by apply tmpName_neq.
  unfold Rename, Remove. cbn [faulty with_files files].
  rewrite lookup_insert_eq.
  destruct (faulty fs SysCreateTemp tmp) eqn:F1; cbn [fst snd].
  { repeat split; auto; intros; try discriminate. }
  destruct (faulty fs SysWrite tmp) eqn:F2; cbn [fst snd faulty with_files files].
  { destruct (faulty fs SysRemove tmp) eqn:F3; cbn [files];
      repeat split; intros; try congruence; cbn [files with_files];
      rewrite ?lookup_delete_eq, ?lookup_delete_ne, ?lookup_insert_ne by congruence;
      auto. }
  destruct (faulty fs SysSync tmp) eqn:F3; cbn [fst snd faulty with_files files].
  { destruct (faulty fs SysRemove tmp) eqn:F4; cbn [files];
      repeat split; intros; try congruence; cbn [files with_files];
      rewrite ?lookup_delete_eq, ?lookup_delete_ne, ?lookup_insert_ne by congruence;
      auto. }
  destruct (faulty fs SysClose tmp) eqn:F4; cbn [fst snd faulty with_files files].
  { destruct (faulty fs SysRemove tmp) eqn:F5; cbn [files];
      repeat split; intros; try congruence; cbn [files with_files];
      rewrite ?lookup_delete_eq, ?lookup_delete_ne, ?lookup_insert_ne by congruence;
      auto. }
  destruct (faulty fs SysChmod tmp) eqn:F5; cbn [fst snd faulty with_files files].
  { destruct (faulty fs SysRemove tmp) eqn:F6; cbn [files];
      repeat split; intros; try congruence; cbn [files with_files];
      rewrite ?lookup_delete_eq, ?lookup_delete_ne, ?lookup_insert_ne by congruence;
      auto. }
  destruct (faulty fs SysRename path) eqn:F6; cbn [fst snd faulty with_files files].
  { destruct (faulty fs SysRemove tmp) eqn:F7; cbn [files];
      repeat split; intros; try congruence; cbn [files with_files];
      rewrite ?lookup_delete_eq, ?lookup_delete_ne, ?lookup_insert_ne by congruence;
      auto. }
  repeat split; intros.
  - apply lookup_insert_eq.
  - destruct H as [e He]. discriminate.
  - rewrite lookup_insert_ne, lookup_delete_eq by congruence. reflexivity.
  - rewrite lookup_insert_ne, lookup_delete_ne, !lookup_insert_ne by congruence.
    reflexivity.
Qed.

(** A write that did not fail has put the data at the target. *)
Lemma Atomicfile_Write_done fs path data fs' :
  Atomicfile.Write fs path data = (fs', None) -> files fs' !! path = Some data.
Proof.
  unfold Atomicfile.Write, Rename. cbn [faulty with_files files].
  rewrite lookup_insert_eq.
  repeat match goal with
         | |- context [if ?b then _ else _] => destruct b; [discriminate|]
         end.
  intros [= <-]. cbn. apply lookup_insert_eq.
Qed.

Section Store.
Context `{Json State}.

(** A file that decodes to a state at the current version is returned as it
    is, and nothing is written. *)
Lemma ReadState_clean fs path d s :
  ReadFile fs path = Ok d -> json_Unmarshal d zeroState = Ok s ->
  Version s = CurrentVersion ->
  ReadState StateMigrations fs path = ((Some s, None), fs).
Proof.
  intros Hread Hparse Hv. unfold ReadState. unfold Ok in Hread, Hparse.
  rewrite Hread, Hparse, Hv. cbn [Z.eqb CurrentVersion Pos.eqb].
  rewrite applyMigrations_none. unfold Ok. rewrite Hv. reflexivity.
Qed.

(** The file system after a backup and a save that nothing refused. *)
Lemma archived_readable fs bak data path s complaint d :
  bak <> path -> healthy fs -> json_Marshal s = Ok d ->
  ReadFile (archived fs bak data path s complaint) path = Ok d.
Proof.
  intros Hne Hh Hm.
  destruct (archived_healthy fs bak data path s complaint d Hne Hh Hm) as [_ Hp].
  unfold ReadFile. rewrite ResolverFacts.archived_faulty, Hh, Hp. reflexivity.
Qed.

(** X5. What [saveState] has written, [ReadState] reads back: after a save
    that returned no error, at a path the system lets the daemon read, a read
    returns the saved state (given that [encoding/json] decodes its own
    rendering of that state), with no error, no repair and no write.  The
    state is at the current version, as in the two calls of the code. *)
Theorem saveState_ReadState (fs fs' : world) (path : string) (s : State) (d : bytes) :
  saveState fs path s = (fs', None) ->
  faulty fs SysReadFile path = false ->
  json_Marshal s = Ok d ->
  json_Unmarshal d zeroState = Ok s ->
  Version s = CurrentVersion ->
  files fs' !! path = Some d
  /\ ReadState StateMigrations fs' path = ((Some s, None), fs').
Proof.
  intros Hsave Hok Hm Hback Hv.
  pose proof (saveState_keeps fs path s) as [Hf _]. rewrite Hsave in Hf. cbn [fst] in Hf.
  unfold saveState in Hsave. unfold Ok in Hm. rewrite Hm in Hsave.
  apply Atomicfile_Write_done in Hsave.
  split; [exact Hsave|].
  apply (ReadState_clean fs' path d s); [|exact Hback|exact Hv].
  unfold ReadFile. rewrite Hf, Hok, Hsave. reflexivity.
Qed.

(** X6. One read settles a state file.  On a file system that refuses no
    call, whatever a first [ReadState] found at the path (a corrupted file,
    a file from a newer version, or a file in order), once it has returned a
    state a second read of the same path returns that same state with no
    error, and writes and logs nothing more: a repair is made once, and its
    backup is not overwritten by a later read.  [encoding/json] is asked to
    decode its own rendering of the state returned. *)
Theorem ReadState_settles (fs : world) (path : string) (s : State) (d : bytes) :
  healthy fs ->
  fst (fst (ReadState StateMigrations fs path)) = Some s ->
  json_Marshal s = Ok d ->
  json_Unmarshal d zeroState = Ok s ->
  ReadState StateMigrations (snd (ReadState StateMigrations fs path)) path
  = ((Some s, None), snd (ReadState StateMigrations fs path)).
Proof.
  intros Hh Hs Hm Hback.
  unfold ReadState at 2 3. unfold ReadState in Hs.
  destruct (ReadFile fs path) as [e|data] eqn:Hread; [discriminate|].
  destruct (json_Unmarshal data zeroState) as [e|s0] eqn:Hparse.
  - rewrite recoverCorruptedState_eq in *. cbn [fst snd] in *.
    injection Hs as <-.
    apply (ReadState_clean _ path d); [|exact Hback|reflexivity].
    apply archived_readable; [|apply healthy_slog; exact Hh|exact Hm].
    intros Heq. symmetry in Heq. revert Heq. apply append_nonempty_neq. discriminate.
  - rewrite applyMigrations_none in *. unfold Ok in *.
    destruct (Version (if Version s0 =? 0 then set_Version 1 s0 else s0) >? CurrentVersion)
      eqn:Hgt.
    + rewrite normalizeToCurrentVersion_eq in *. cbn [fst snd] in *.
      injection Hs as <-.
      apply (ReadState_clean _ path d); [|exact Hback|reflexivity].
      apply archived_readable; [apply bakPath_neq|apply healthy_slog; exact Hh|exact Hm].
    + cbn [fst snd] in *. injection Hs as <-.
      unfold ReadState. rewrite Hread, Hparse, applyMigrations_none.
      unfold Ok. rewrite Hgt. reflexivity.
Qed.

End Store.

Import Doubles.

(** A first session, saved on an empty disk. *)
Definition first_session : State :=
  {| Version := 1; SessionID := "s-1"; SessionStart := 1707900000;
     LastActivity := 1707900060; Project := "agentcord"; Branch := "main";
     CWD := "/src/agentcord"; GitRemoteURL := ""; Client := "claude-code";
     Stopped := false; ToolName := "Edit"; ToolTarget := ""; ActiveFile := "";
     AgentState := ""; PermissionMode := ""; HookEvent := "" |}.

Lemma saveState_ReadState_witness :
  files (fst (saveState (disk []) "/data/state.json" first_session)) !! "/data/state.json"
    = Some (encode_state first_session)
  /\ ReadState StateMigrations (fst (saveState (disk []) "/data/state.json" first_session))
       "/data/state.json"
     = ((Some first_session, None),
        fst (saveState (disk []) "/data/state.json" first_session)).
Proof.
  apply (saveState_ReadState (disk []) _ "/data/state.json" first_session
           (encode_state first_session)).
  - vm_compute. reflexivity.
  - reflexivity.
  - reflexivity.
  - vm_compute. reflexivity.
  - reflexivity.
Defined.

(** A second read of the file that was found corrupted. *)
Lemma ReadState_settles_witness :
  ReadState StateMigrations
    (snd (ReadState StateMigrations
            (disk [("/data/state.json", "{not json")]) "/data/state.json"))
    "/data/state.json"
  = ((Some (set_Version CurrentVersion zeroState), None),
     snd (ReadState StateMigrations
            (disk [("/data/state.json", "{not json")]) "/data/state.json")).
Proof.
  apply (ReadState_settles (disk [("/data/state.json", "{not json")]) "/data/state.json"
           (set_Version CurrentVersion zeroState)
           (encode_state (set_Version CurrentVersion zeroState))).
  - intros call p. reflexivity.
  - vm_compute. reflexivity.
  - reflexivity.
  - vm_compute. reflexivity.
Defined.

(** A first write on an empty disk, and a write whose rename the system
    refuses. *)
Definition no_rename (fs : world) : world :=
  {| files := files fs;
     faulty := fun call _ => match call with SysRename => true | _ => false end;
     logged := logged fs |}.

Lemma Write_all_or_nothing_witness :
  files (fst (Atomicfile.Write (disk []) "/data/state.json" (list_byte_of_string "{}")))
    !! "/data/state.json"
  = Some (list_byte_of_string "{}")
  /\ files (fst (Atomicfile.Write (no_rename (disk [("/data/state.json", "old")]))
                   "/data/state.json" (list_byte_of_string "{}")))
       !! "/data/state.json"
     = files (no_rename (disk [("/data/state.json", "old")])) !! "/data/state.json".
Proof.
  split.
  - apply (proj1 (Write_all_or_nothing (disk []) "/data/state.json"
                    (list_byte_of_string "{}"))).
    reflexivity.
  - apply (proj1 (proj2 (Write_all_or_nothing
                           (no_rename (disk [("/data/state.json", "old")]))
                           "/data/state.json" (list_byte_of_string "{}")))).
    vm_compute. eauto.
Defined.

End StoreCycleFacts.

(** ** Migrations *)

Module MigrateFacts.
Import Migrate StoreFacts.

(** Ascending by version, strictly. *)
Definition Vlt (a b : Migration) : Prop := Version a < Version b.

Lemma insert_by_version_Permutation m l :
  Permutation (insert_by_version m l) (m :: l).
Proof.
  induction l as [|x l IH]; cbn; [reflexivity|].
  destruct (Version m <? Version x); [reflexivity|].
  eapply Permutation_trans; [apply perm_skip; exact IH|apply perm_swap].
Qed.

Lemma sort_by_version_Permutation l : Permutation (sort_by_version l) l.
Proof.
  unfold sort_by_version. induction l as [|x l IH]; cbn; [reflexivity|].
  eapply Permutation_trans; [apply insert_by_version_Permutation|].
  apply perm_skip. exact IH.
Qed.

Lemma insert_by_version_sorted m l :
  ~ In (Version m) (List.map Version l) ->
  StronglySorted Vlt l -> StronglySorted Vlt (insert_by_version m l).
Proof.
  intros Hnew Hs. induction Hs as [|x l Hs IH Hx]; cbn.
  - repeat constructor.
  - destruct (Z.ltb_spec (Version m) (Version x)) as [Hlt|Hge].
    + constructor; [constructor; assumption|].
      constructor; [exact Hlt|].
      eapply Forall_impl; [exact Hx|]. unfold Vlt. cbn. intros; lia.
    + assert (Hne : Version x <> Version m) by (intros Heq; apply Hnew; left; exact Heq).
      constructor.
      * apply IH. intros Hin. apply Hnew. right. exact Hin.
      * apply insert_by_version_Forall; [unfold Vlt; lia|exact Hx].
Qed.

(** With distinct versions, as [Register] keeps them, the migrations are
    sorted strictly, and there is one such order. *)
Lemma sort_by_version_sorted l :
  NoDup (List.map Version l) -> StronglySorted Vlt (sort_by_version l).
Proof.
  unfold sort_by_version. induction l as [|x l IH]; cbn; intros Hnd.
  - constructor.
  - apply NoDup_cons in Hnd as [Hx Hnd].
    apply insert_by_version_sorted; [|apply IH; exact Hnd].
    rewrite list_elem_of_In in Hx. intros Hin. apply Hx.
    eapply Permutation_in; [|exact Hin].
    apply Permutation_map. apply (sort_by_version_Permutation l).
Qed.

Lemma sort_by_version_unique l l' :
  Permutation l l' -> NoDup (List.map Version l) ->
  sort_by_version l = sort_by_version l'.
Proof.
  intros Hp Hnd.
  apply (StronglySorted_unique_strong Vlt).
  - unfold Vlt. intros; lia.
  - apply sort_by_version_sorted. exact Hnd.
  - apply sort_by_version_sorted.
    pose proof (Permutation_map Version Hp) as Hp'. rewrite <- Hp'. exact Hnd.
  - eapply Permutation_trans; [apply sort_by_version_Permutation|].
    eapply Permutation_trans; [exact Hp|].
    apply Permutation_sym, sort_by_version_Permutation.
Qed.

(** The loop of [Run]: the version never goes down, and on success no
    migration is above the version reached. *)
Lemma run_sorted_version : forall sorted data v,
  v <= snd (fst (run_sorted data v sorted))
  /\ (snd (run_sorted data v sorted) = None ->
      Forall (fun m => Version m <= snd (fst (run_sorted data v sorted))) sorted).
Proof.
  induction sorted as [|m sorted IH]; intros data v; cbn [run_sorted].
  - cbn. split; [lia|constructor].
  - destruct (Z.ltb_spec v (Version m)) as [Hlt|Hge].
    + destruct (Upgrade m data) as [e|data'].
      * cbn. split; [lia|discriminate].
      * destruct (IH data' (Version m)) as [Hmono Hall].
        split; [lia|]. intros Hok. constructor; [exact Hmono|exact (Hall Hok)].
    + destruct (IH data v) as [Hmono Hall].
      split; [exact Hmono|]. intros Hok. constructor; [lia|exact (Hall Hok)].
Qed.

(** When the loop fails it is at a migration above the version reached, and
    the data returned is nil. *)
Lemma run_sorted_failure : forall sorted data v d v' e,
  run_sorted data v sorted = (d, v', Some e) ->
  d = [] /\ exists m input cause,
    In m sorted /\ v' < Version m /\ Upgrade m input = Err cause
    /\ e = Errorf "migration to v%d failed: %w" [Version m] cause.
Proof.
  induction sorted as [|m sorted IH]; intros data v d v' e; cbn [run_sorted].
  - discriminate.
  - destruct (Z.ltb_spec v (Version m)) as [Hlt|Hge].
    + destruct (Upgrade m data) as [cause|data'] eqn:Hup.
      * intros [= <- <- <-]. split; [reflexivity|].
        exists m, data, cause. repeat split; [left; reflexivity|exact Hlt|exact Hup].
      * intros Hrun.
        destruct (IH _ _ _ _ _ Hrun) as (Hd & m' & input & cause & Hin & Hv & He).
        split; [exact Hd|]. exists m', input, cause. split; [right; exact Hin|]. auto.
    + intros Hrun.
      destruct (IH _ _ _ _ _ Hrun) as (Hd & m' & input & cause & Hin & Hv & He).
      split; [exact Hd|]. exists m', input, cause. split; [right; exact Hin|]. auto.
Qed.

Lemma Forall_sort_by_version (P : Migration -> Prop) l :
  Forall P (sort_by_version l) -> Forall P l.
Proof.
  intros Hall. rewrite Forall_forall in *. intros x Hx. apply Hall.
  rewrite list_elem_of_In in *.
  eapply Permutation_in; [apply Permutation_sym, sort_by_version_Permutation|exact Hx].
Qed.

(** X7. The order of registration does not matter to [Run]: two migration
    lists that hold the same migrations, with distinct versions (which
    [Register] enforces), give the same data, the same version and the same
    error. *)
Theorem Run_order_independent (data : bytes) (fromVersion : Z)
    (migrations migrations' : list Migration) :
  Permutation migrations migrations' ->
  NoDup (List.map Version migrations) ->
  Run data fromVersion migrations = Run data fromVersion migrations'.
Proof.
  intros Hp Hnd. unfold Run. rewrite (sort_by_version_unique _ _ Hp Hnd). reflexivity.
Qed.

(** X8. A migrated file is not migrated again: [Run] never lowers the
    version, and when it succeeds the version it returns is at or above
    every registered migration, so that running the same migrations on its
    output, from the version it returned, applies none of them. *)
Theorem Run_idempotent (data : bytes) (fromVersion : Z) (migrations : list Migration)
    (data' : bytes) (version : Z) :
  Run data fromVersion migrations = (data', version, None) ->
  fromVersion <= version
  /\ Forall (fun m => Version m <= version) migrations
  /\ Run data' version migrations = (data', version, None).
Proof.
  intros Hrun. unfold Run in Hrun.
  destruct (run_sorted_version (sort_by_version migrations) data fromVersion)
    as [Hmono Hall].
  rewrite Hrun in Hmono, Hall. cbn [fst snd] in Hmono, Hall.
  specialize (Hall eq_refl). apply Forall_sort_by_version in Hall.
  split; [exact Hmono|]. split; [exact Hall|].
  apply Run_nothing_above. exact Hall.
Qed.

(** X9. [NeedsMigration] and [Run] agree: whenever [NeedsMigration] answers
    no, the file is at the current version and [Run] returns the data and the
    version it was given, with no error, having called no upgrade. *)
Theorem NeedsMigration_false_Run (data : bytes) (fileVersion currentVersion : Z)
    (force : bool) (migrations : list Migration) :
  NeedsMigration fileVersion currentVersion force migrations = false ->
  fileVersion = currentVersion
  /\ Run data fileVersion migrations = (data, fileVersion, None).
Proof.
  unfold NeedsMigration. intros Hno.
  destruct (Z.eqb_spec fileVersion currentVersion) as [Heq|Hne]; [|discriminate].
  cbn [negb] in Hno.
  destruct (force && (0 <? len migrations)); [discriminate|].
  split; [exact Heq|]. apply Run_nothing_above.
  apply Forall_forall. intros m Hm.
  destruct (Z.ltb_spec fileVersion (Version m)) as [Hlt|Hge]; [|exact Hge].
  exfalso. assert (Hex : existsb (fun m => fileVersion <? Version m) migrations = true).
  { apply existsb_exists. exists m. split; [apply list_elem_of_In; exact Hm|].
    apply Z.ltb_lt. exact Hlt. }
  congruence.
Qed.

(** X10. A failed migration loses nothing silently: when [Run] returns an
    error, the data it returns is nil, the version it returns is below the
    version of the migration that failed, and the error names that version
    and wraps the error of its upgrade. *)
Theorem Run_failure (data : bytes) (fromVersion : Z) (migrations : list Migration)
    (data' : bytes) (version : Z) (e : error) :
  Run data fromVersion migrations = (data', version, Some e) ->
  data' = []
  /\ fromVersion <= version
  /\ exists m input cause,
       In m migrations /\ version < Version m /\ Upgrade m input = Err cause
       /\ e = Errorf "migration to v%d failed: %w" [Version m] cause.
Proof.
  intros Hrun. unfold Run in Hrun.
  destruct (run_sorted_version (sort_by_version migrations) data fromVersion)
    as [Hmono _].
  rewrite Hrun in Hmono. cbn [fst snd] in Hmono.
  destruct (run_sorted_failure _ _ _ _ _ _ Hrun)
    as (Hd & m & input & cause & Hin & Hv & He).
  split; [exact Hd|]. split; [exact Hmono|].
  exists m, input, cause. split; [|auto].
  eapply Permutation_in; [apply sort_by_version_Permutation|exact Hin].
Qed.

(** Registrations one after the other; [None] once one of them panics. *)
Fixpoint register_all (r : Registry.Registry) (ms : list Migration)
  : option Registry.Registry :=
  match ms with
  | [] => Some r
  | m :: ms =>
      match Registry.Register r m with
      | Some r => register_all r ms
      | None => None
      end
  end.

Lemma Register_None r m :
  Registry.Register r m = None
  <-> In (Version m) (List.map Version (Registry.Migrations r)).
Proof.
  unfold Registry.Register.
  destruct (existsb _ (Registry.Migrations r)) eqn:E.
  - split; [intros _|reflexivity].
    apply existsb_exists in E as (x & Hx & Hv). apply Z.eqb_eq in Hv.
    rewrite <- Hv. apply in_map. exact Hx.
  - split; [discriminate|]. intros Hin. exfalso.
    apply in_map_iff in Hin as (x & Hv & Hx).
    assert (existsb (fun existing => Version existing =? Version m)
              (Registry.Migrations r) = true).
    { apply existsb_exists. exists x. split; [exact Hx|]. apply Z.eqb_eq. exact Hv. }
    congruence.
Qed.

Lemma register_all_spec : forall ms r,
  NoDup (List.map Version (Registry.Migrations r)) ->
  match register_all r ms with
  | Some r' =>
      Registry.Migrations r' = Registry.Migrations r ++ ms
      /\ NoDup (List.map Version (Registry.Migrations r ++ ms))
      /\ Registry.CurrentVersion r' = Registry.CurrentVersion r
      /\ Registry.Dev r' = Registry.Dev r
  | None => ~ NoDup (List.map Version (Registry.Migrations r ++ ms))
  end.
Proof.
  induction ms as [|m ms IH]; intros r Hnd; cbn [register_all].
  - rewrite app_nil_r. auto.
  - destruct (Registry.Register r m) as [r1|] eqn:Hreg.
    + assert (Hnew : ~ In (Version m) (List.map Version (Registry.Migrations r))).
      { intros Hin. apply Register_None in Hin. congruence. }
      unfold Registry.Register in Hreg.
      destruct (existsb _ (Registry.Migrations r)); [discriminate|].
      injection Hreg as <-.
      specialize (IH {| Registry.CurrentVersion := Registry.CurrentVersion r;
                        Registry.Migrations := Registry.Migrations r ++ [m];
                        Registry.Dev := Registry.Dev r |}).
      cbn [Registry.Migrations Registry.CurrentVersion Registry.Dev] in IH.
      rewrite <- !app_assoc in IH. apply IH.
      rewrite map_app. cbn [List.map].
      apply NoDup_app. split; [exact Hnd|]. split.
      * intros x Hx [Hm|[]]%list_elem_of_In. subst x.
        apply Hnew. apply list_elem_of_In. exact Hx.
      * apply NoDup_singleton.
    + apply Register_None in Hreg. intros Hdup.
      rewrite map_app in Hdup. cbn [List.map] in Hdup.
      apply NoDup_app in Hdup as (_ & Hdis & _).
      apply (Hdis (Version m)); [apply list_elem_of_In; exact Hreg|left].
Qed.

(** X11. [Register] keeps the versions of a registry distinct: registering
    a list of migrations one after the other on the (empty) state registry
    goes through exactly when their versions are pairwise distinct, the
    registry then holds them in the order of registration, and otherwise some
    call panics. *)
Theorem Register_distinct (ms : list Migration) :
  match register_all Registry.State ms with
  | Some r =>
      Registry.Migrations r = ms /\ NoDup (List.map Version ms)
      /\ Registry.CurrentVersion r = 1 /\ Registry.Dev r = []
  | None => ~ NoDup (List.map Version ms)
  end.
Proof.
  pose proof (register_all_spec ms Registry.State) as Hspec.
  cbn [Registry.Migrations Registry.State app] in Hspec. apply Hspec. constructor.
Qed.

(** Two upgrades for the witnesses: one that appends a byte and one that
    fails. *)
Definition append_byte (b : Init.Byte.byte) (version : Z) : Migration :=
  {| Version := version; Description := "append";
     Upgrade := fun data => Ok (data ++ [b]) |}.

Definition failing (version : Z) : Migration :=
  {| Version := version; Description := "fails";
     Upgrade := fun _ => Err (New (ErrHost "cannot upgrade")) |}.

Lemma Run_order_independent_witness :
  Run [Byte.x00] 1 [append_byte Byte.x03 3; append_byte Byte.x02 2]
  = Run [Byte.x00] 1 [append_byte Byte.x02 2; append_byte Byte.x03 3].
Proof.
  apply Run_order_independent.
  - apply perm_swap.
  - apply (bool_decide_unpack _). vm_compute. reflexivity.
Defined.

Lemma Run_idempotent_witness :
  1 <= 3
  /\ Forall (fun m => Version m <= 3) [append_byte Byte.x03 3; append_byte Byte.x02 2]
  /\ Run [Byte.x00; Byte.x02; Byte.x03] 3 [append_byte Byte.x03 3; append_byte Byte.x02 2]
     = ([Byte.x00; Byte.x02; Byte.x03], 3, None).
Proof.
  apply (Run_idempotent [Byte.x00] 1 [append_byte Byte.x03 3; append_byte Byte.x02 2]).
  vm_compute. reflexivity.
Defined.

Lemma NeedsMigration_false_Run_witness :
  2 = 2
  /\ Run [Byte.x00] 2 [append_byte Byte.x02 2; append_byte Byte.x01 1] = ([Byte.x00], 2, None).
Proof.
  apply (NeedsMigration_false_Run [Byte.x00] 2 2 false
           [append_byte Byte.x02 2; append_byte Byte.x01 1]).
  vm_compute. reflexivity.
Defined.

Lemma Run_failure_witness :
  [] = ([] : bytes)
  /\ 1 <= 2
  /\ exists m input cause,
       In m [failing 3; append_byte Byte.x02 2] /\ 2 < Version m
       /\ Upgrade m input = Err cause
       /\ Errorf "migration to v%d failed: %w" [3] (New (ErrHost "cannot upgrade"))
          = Errorf "migration to v%d failed: %w" [Version m] cause.
Proof.
  apply (Run_failure [Byte.x00] 1 [failing 3; append_byte Byte.x02 2]).
  vm_compute. reflexivity.
Defined.

End MigrateFacts.

(** ** Reading a state file with a registry of migrations *)

Module StoreMigrationFacts.
Import OS Session StringFacts StoreFacts.

Section Store.
Context `{Json State}.

(** X12. [ReadState] never hands out a state from a newer schema: whatever
    the registry, the file system and the file, a state that it returns has
    a version at or below [CurrentVersion]; with the registry the program
    runs with, the version is not 0 either. *)
Theorem ReadState_version_bound (migs : list Migrate.Migration) (fs : world)
    (path : string) :
  match fst (fst (ReadState migs fs path)) with
  | Some s => Version s <= CurrentVersion
  | None => True
  end
  /\ match fst (fst (ReadState StateMigrations fs path)) with
     | Some s => Version s <> 0
     | None => True
     end.
Proof.
  split.
  - unfold ReadState.
    destruct (ReadFile fs path) as [e|data]; [exact I|].
    destruct (json_Unmarshal data zeroState) as [e|s].
    { rewrite recoverCorruptedState_eq. cbn. unfold CurrentVersion. lia. }
    destruct (applyMigrations migs _ data) as [e|s']; [exact I|].
    destruct (Z.gtb_spec (Version s') CurrentVersion) as [Hgt|Hle].
    + rewrite normalizeToCurrentVersion_eq. cbn. lia.
    + exact Hle.
  - unfold ReadState.
    destruct (ReadFile fs path) as [e|data]; [exact I|].
    destruct (json_Unmarshal data zeroState) as [e|s].
    { rewrite recoverCorruptedState_eq. cbn. discriminate. }
    rewrite applyMigrations_none. unfold Ok.
    destruct (Z.eqb_spec (Version s) 0) as [Hz|Hnz].
    + cbn. discriminate.
    + destruct (Version s >? CurrentVersion).
      * rewrite normalizeToCurrentVersion_eq. cbn. discriminate.
      * exact Hnz.
Qed.


End Store.

Import Doubles.

(** The file and the migration of the repository's [TestStateMigration]: a
    record at version 1 and an upgrade to version 2, which is above
    [CurrentVersion]. *)
Definition v1_json : string :=
  "{" +:+ json_number "$version" 1 +:+ "," +:+ json_string "sessionId" "abc-123"
  +:+ "," +:+ json_number "lastActivity" 1707900060 +:+ "," +:+ json_bool "stopped" false
  +:+ "}".

Definition v2_json : string :=
  "{" +:+ json_number "$version" 2 +:+ "," +:+ json_string "sessionId" "abc-123"
  +:+ "," +:+ json_number "lastActivity" 1707900060 +:+ "," +:+ json_bool "stopped" false
  +:+ "}".

Definition to_v2 : Migrate.Migration :=
  {| Migrate.Version := 2; Migrate.Description := "test migration";
     Migrate.Upgrade := fun _ => Ok (list_byte_of_string v2_json) |}.

Definition migrated_state : State :=
  {| Version := 2; SessionID := "abc-123"; SessionStart := 0;
     LastActivity := 1707900060; Project := ""; Branch := ""; CWD := "";
     GitRemoteURL := ""; Client := ""; Stopped := false; ToolName := "";
     ToolTarget := ""; ActiveFile := ""; AgentState := ""; PermissionMode := "";
     HookEvent := "" |}.


End StoreMigrationFacts.

(** ** The presentation engine: what is shown and what is not *)

Module PresenceFacts.
Import Session StringFacts EngineFacts.

(** Whether the byte [c] occurs in [s]. *)
Fixpoint mentions (c : ascii) (s : string) : bool :=
  match s with
  | EmptyString => false
  | String x r => Ascii.eqb x c || mentions c r
  end.

(** Without an opening brace there is nothing for the regular expression to
    match. *)
Lemma ReplaceAllStringFunc_no_brace repl : forall s,
  mentions "{" s = false -> ReplaceAllStringFunc_from repl 0 s = s.
Proof.
  induction s as [|c s IH]; [reflexivity|].
  cbn [mentions]. intros Hs. apply orb_false_iff in Hs as [Hc Hs].
  cbn [ReplaceAllStringFunc_from].
  assert (Hm : formatVarRegex_match (String c s) = None).
  { unfold formatVarRegex_match.
    destruct c as [[] [] [] [] [] [] [] []]; try reflexivity. discriminate Hc. }
  rewrite Hm, (IH Hs). reflexivity.
Qed.

(** Nor for a placeholder, which opens with a brace, to occur. *)
Lemma ReplaceAll_no_brace old new : forall s,
  mentions "{" s = false -> ReplaceAll s (String "{" old) new = s.
Proof.
  intros s Hs. unfold ReplaceAll.
  induction s as [|c s IH]; [reflexivity|].
  cbn [mentions] in Hs. apply orb_false_iff in Hs as [Hc Hs].
  cbn [ReplaceAll_from].
  assert (Hp : String.prefix (String "{" old) (String c s) = false).
  { cbn [String.prefix]. destruct (ascii_dec "{" c) as [<-|Hne]; [discriminate Hc|].
    reflexivity. }
  rewrite Hp, (IH Hs). reflexivity.
Qed.

Section Engine.
Context `{Helpers}.

(** [matchesIgnorePattern] answers yes exactly when some pattern matches;
    a pattern that [filepath.Match] rejects is passed over. *)
Lemma matchesIgnorePattern_spec patterns cwd :
  matchesIgnorePattern patterns cwd = true
  <-> exists pattern, In pattern patterns /\ filepath_Match pattern cwd = Ok true.
Proof.
  induction patterns as [|p patterns IH]; cbn [matchesIgnorePattern].
  - split; [discriminate|]. intros (p & [] & _).
  - destruct (filepath_Match p cwd) as [e|[|]] eqn:Hp.
    + rewrite IH. split.
      * intros (q & Hq & Hm). exists q. split; [right; exact Hq|exact Hm].
      * intros (q & [<-|Hq] & Hm); [unfold Ok in Hm; congruence|eauto].
    + split; [intros _; exists p; split; [left; reflexivity|exact Hp]|reflexivity].
    + rewrite IH. split.
      * intros (q & Hq & Hm). exists q. split; [right; exact Hq|exact Hm].
      * intros (q & [<-|Hq] & Hm); [unfold Ok in Hm; congruence|eauto].
Qed.

(** X14. When nothing is shown: [BuildActivityWithData] returns nil exactly
    when the session is stopped, or its working directory matches one of the
    ignore patterns (a pattern that is not well formed matches nothing and
    does not stop the scan), or the session is idle and the idle mode is not
    ["idle_text"].  Cost, tokens, model and the conversation data have no
    part in it. *)
Theorem BuildActivityWithData_nil (now : Z) (s : State) (cfg : ActivityConfig)
    (cost : float) (totalTokens : Z) (model : string) (jsonl : option JSONLData) :
  BuildActivityWithData now s cfg cost totalTokens model jsonl = None
  <-> (Stopped s = true
       \/ (exists pattern, In pattern (IgnoredPatterns cfg)
                           /\ filepath_Match pattern (CWD s) = Ok true)
       \/ (isIdle now cfg (LastActivity s) = true /\ IdleMode cfg <> "idle_text")).
Proof.
  rewrite <- matchesIgnorePattern_spec. unfold BuildActivityWithData.
  destruct (Stopped s); [split; auto|].
  destruct (matchesIgnorePattern (IgnoredPatterns cfg) (CWD s)); [split; auto|].
  destruct (isIdle now cfg (LastActivity s)).
  - unfold buildIdleActivity.
    destruct (String.eqb_spec (IdleMode cfg) "idle_text") as [Heq|Hne].
    + split; [discriminate|]. intros [Hs|[Hm|[_ Hmode]]]; congruence.
    + split; [auto|]. intros _.
      destruct (String.eqb (IdleMode cfg) "last_activity"); reflexivity.
  - split; [discriminate|]. intros [Hs|[Hm|[Hi _]]]; discriminate.
Qed.

(** X15. What is shown: every activity that [BuildActivityWithData] returns
    counts its elapsed time from the session start and carries the configured
    large image and text; it has at most two buttons (the most Discord
    takes) and none with an empty URL; and its small image is set only when
    the model icon is enabled and a model is known. *)
Theorem BuildActivityWithData_shape (now : Z) (s : State) (cfg : ActivityConfig)
    (cost : float) (totalTokens : Z) (model : string) (jsonl : option JSONLData) :
  match BuildActivityWithData now s cfg cost totalTokens model jsonl with
  | None => True
  | Some a =>
      Start (Timestamps_ a) = SessionStart s
      /\ LargeImage_ (Assets_ a) = LargeImage cfg
      /\ LargeText_ (Assets_ a) = LargeText cfg
      /\ len (Buttons a) <= 2
      /\ Forall (fun b => URL b <> "") (Buttons a)
      /\ (ShowModelIcon cfg = false \/ model = "" ->
          SmallImage (Assets_ a) = "" /\ SmallText (Assets_ a) = "")
  end.
Proof.
  unfold BuildActivityWithData.
  destruct (Stopped s); [exact I|].
  destruct (matchesIgnorePattern (IgnoredPatterns cfg) (CWD s)); [exact I|].
  destruct (isIdle now cfg (LastActivity s)).
  - unfold buildIdleActivity.
    destruct (String.eqb (IdleMode cfg) "idle_text").
    + cbn. repeat split; auto. unfold len. cbn. lia.
    + destruct (String.eqb (IdleMode cfg) "last_activity"); exact I.
  - cbv zeta.
    assert (Hb : len (buildButtons cfg (GitRemoteURL s)) <= 2
                 /\ Forall (fun b => URL b <> "") (buildButtons cfg (GitRemoteURL s))).
    { unfold buildButtons.
      destruct (ShowRepoButton cfg); cbn [andb];
        destruct (String.eqb_spec (GitRemoteURL s) ""); cbn [negb andb app];
        destruct (String.eqb_spec (CustomButtonLabel cfg) ""); cbn [negb andb app];
        destruct (String.eqb_spec (CustomButtonURL cfg) ""); cbn [negb andb app];
        (split; [unfold len; cbn; lia|repeat constructor; cbn; assumption]). }
    destruct Hb as [Hlen Hurl].
    unfold applyModelIcon.
    destruct (ShowModelIcon cfg); cbn [negb orb].
    + destruct (String.eqb_spec model "") as [->|Hm].
      * cbn. repeat split; auto.
      * cbn. repeat split; auto;
          match goal with Hor : _ \/ _ |- _ => destruct Hor; congruence end.
    + cbn. repeat split; auto.
Qed.

(** X16. Literal text is left alone: a template in which no opening brace
    occurs is rendered as it is, whatever the variables hold, up to the cut
    at Discord's limit. *)
Theorem applyTemplate_literal (tmpl : string) (vars : templateVars) :
  mentions "{" tmpl = false ->
  applyTemplate tmpl vars = truncateLine tmpl
  /\ (slen tmpl <= discordMaxLen -> applyTemplate tmpl vars = tmpl).
Proof.
  intros Hlit.
  assert (Hsame : defaultFormats (explicitFormats tmpl vars) vars = tmpl).
  { unfold explicitFormats. rewrite ReplaceAllStringFunc_no_brace by exact Hlit.
    unfold defaultFormats. cbv zeta.
    repeat rewrite (fun old new => ReplaceAll_no_brace old new tmpl Hlit). reflexivity. }
  unfold applyTemplate. rewrite Hsame. split; [reflexivity|].
  apply truncateLine_within.
Qed.

End Engine.

(** X17. The tier icon: [extractModelTier] returns the first tier of the
    list that the model name, stripped of its family prefix, starts with;
    when there is none it returns the default icon, or ["default"] when that
    is empty.  So the asset key is never empty unless the tier list itself
    holds an empty name. *)
Theorem extractModelTier_result (model : string) (tierList : list string)
    (defaultIcon : string) :
  let stripped := stripFamily ["claude-"; "gpt-"; "gemini-"; "o1-"; "o3-"] model in
  let tier := extractModelTier model tierList defaultIcon in
  ((exists before after,
      tierList = before ++ tier :: after
      /\ HasPrefix stripped tier = true
      /\ Forall (fun t => HasPrefix stripped t = false) before)
   \/ (Forall (fun t => HasPrefix stripped t = false) tierList
       /\ tier = if String.eqb defaultIcon "" then "default" else defaultIcon))
  /\ (~ In "" tierList -> tier <> "").
Proof.
  cbv zeta. unfold extractModelTier.
  set (stripped := stripFamily _ model).
  assert (Hfind : forall l,
            match List.find (fun tier => HasPrefix stripped tier) l with
            | Some t => exists before after,
                          l = before ++ t :: after /\ HasPrefix stripped t = true
                          /\ Forall (fun t => HasPrefix stripped t = false) before
            | None => Forall (fun t => HasPrefix stripped t = false) l
            end).
  { induction l as [|t l IH]; cbn [List.find]; [constructor|].
    destruct (HasPrefix stripped t) eqn:Ht.
    - exists [], l. repeat split; auto.
    - destruct (List.find _ l) as [t'|].
      + destruct IH as (before & after & -> & Hp & Hall).
        exists (t :: before), after. repeat split; auto.
      + constructor; assumption. }
  specialize (Hfind tierList).
  destruct (List.find _ tierList) as [t|].
  - destruct Hfind as (before & after & Hl & Hp & Hall). split.
    + left. exists before, after. auto.
    + intros Hno ->. apply Hno. rewrite Hl. apply in_or_app. right. left. reflexivity.
  - split; [right; auto|].
    intros _. destruct (String.eqb_spec defaultIcon ""); [discriminate|assumption].
Qed.

Import Doubles.

Lemma applyTemplate_literal_witness :
  applyTemplate "Coding with Claude" (buildTemplateVars (session 60)
                                        (presence_config 15 "") 0%float 0 "" None)
    = truncateLine "Coding with Claude"
  /\ applyTemplate "Coding with Claude" (buildTemplateVars (session 60)
                                           (presence_config 15 "") 0%float 0 "" None)
     = "Coding with Claude".
Proof.
  destruct (applyTemplate_literal "Coding with Claude"
              (buildTemplateVars (session 60) (presence_config 15 "") 0%float 0 "" None))
    as [Hcut Hsame]; [reflexivity|].
  split; [exact Hcut|]. apply Hsame. vm_compute. discriminate.
Defined.

End PresenceFacts.

(** ** The watcher: no change goes unsignalled, and which files count *)

Module WatchFacts.
Import Session WatcherFacts StringFacts.

(** Notifications alone keep a signal pending once one is. *)
Lemma notifies_keep_pending (ops : list channel_op) : forall w,
  Forall (fun op => op = Notify) ops ->
  cap (events w) = 1%nat -> queued (events w) = 1%nat ->
  queued (events (fold_left apply_op ops w)) = 1%nat.
Proof.
  induction ops as [|op ops IH]; intros w Hall Hc Hq; [exact Hq|].
  apply Forall_cons in Hall as [-> Hall]. cbn [fold_left apply_op].
  destruct (notify_one_slot w Hc ltac:(lia)) as [Hq1 _].
  apply IH; [exact Hall|rewrite notify_cap; exact Hc|exact Hq1].
Qed.

Lemma fold_left_apply_op_app ops1 ops2 w :
  fold_left apply_op (ops1 ++ ops2) w = fold_left apply_op ops2 (fold_left apply_op ops1 w).
Proof. apply fold_left_app. Qed.

(** X18. No change is lost by coalescing: however the notifications of the
    producers and the receives of the consumer interleave on the one-slot
    channel, if a notification came after the consumer's last receive then a
    signal is pending at the end, so the consumer will run once more and see
    that change. *)
Theorem notify_after_receive_pending (before after : list channel_op) (w : Watcher) :
  cap (events w) = 1%nat ->
  (queued (events w) <= 1)%nat ->
  Forall (fun op => op = Notify) after ->
  queued (events (fold_left apply_op (before ++ Notify :: after) w)) = 1%nat
  /\ is_Some (receive (events (fold_left apply_op (before ++ Notify :: after) w))).
Proof.
  intros Hc Hq Hall.
  destruct (at_most_one_pending before w Hc Hq) as [Hc1 Hq1].
  rewrite fold_left_apply_op_app. cbn [fold_left].
  set (w1 := fold_left apply_op before w) in *.
  destruct (notify_one_slot w1 Hc1 Hq1) as [Hq2 _].
  assert (Hend : queued (events (fold_left apply_op after (apply_op w1 Notify))) = 1%nat).
  { apply notifies_keep_pending; [exact Hall| |exact Hq2].
    cbn [apply_op]. rewrite notify_cap. exact Hc1. }
  split; [exact Hend|].
  unfold receive. rewrite Hend. eauto.
Qed.

(** Two changes, a receive, a change during the processing, and one more. *)
Lemma notify_after_receive_pending_witness :
  queued (events (fold_left apply_op
                    ([Notify; Notify; Receive] ++ Notify :: [Notify])
                    (NewDirWatcher true "/data"))) = 1%nat
  /\ is_Some (receive (events (fold_left apply_op
                                 ([Notify; Notify; Receive] ++ Notify :: [Notify])
                                 (NewDirWatcher true "/data")))).
Proof.
  apply (notify_after_receive_pending [Notify; Notify; Receive] [Notify]
           (NewDirWatcher true "/data")).
  - reflexivity.
  - cbn. lia.
  - repeat constructor.
Defined.

Lemma prefix_append (p : string) : forall s,
  String.prefix p s = true <-> exists r, s = p +:+ r.
Proof.
  induction p as [|c p IH]; intros s.
  - split; [intros _; exists s; reflexivity|]. destruct s; reflexivity.
  - destruct s as [|x s]; cbn [String.prefix].
    + split; [discriminate|]. intros [r Hr]. discriminate Hr.
    + destruct (ascii_dec c x) as [<-|Hne].
      * rewrite IH. split; intros [r Hr]; exists r.
        -- rewrite Hr. reflexivity.
        -- change (String c p +:+ r) with (String c (p +:+ r)) in Hr. congruence.
      * split; [discriminate|]. intros [r Hr].
        change (String c p +:+ r) with (String c (p +:+ r)) in Hr. congruence.
Qed.

Lemma HasSuffix_append (suffix : string) : forall s,
  Strings.HasSuffix s suffix = true <-> exists x, s = x +:+ suffix.
Proof.
  induction s as [|c s IH]; cbn [Strings.HasSuffix].
  - rewrite orb_false_r, String.eqb_eq. split.
    + intros <-. exists "". reflexivity.
    + intros [x Hx]. destruct x; [exact Hx|discriminate Hx].
  - rewrite orb_true_iff, String.eqb_eq, IH. split.
    + intros [<-|[x ->]]; [exists ""; reflexivity|exists (String c x); reflexivity].
    + intros [x Hx]. destruct x as [|c' x].
      * left. exact Hx.
      * right. exists x.
        change (String c' x +:+ suffix) with (String c' (x +:+ suffix)) in Hx. congruence.
Qed.

Lemma HasSuffix_step c s suffix :
  Strings.HasSuffix (String c s) suffix = true ->
  String c s = suffix \/ Strings.HasSuffix s suffix = true.
Proof.
  cbn [Strings.HasSuffix]. rewrite orb_true_iff, String.eqb_eq. auto.
Qed.

Section Names.
Context `{Helpers}.

(** X19. The files the watcher reacts to: [isStateFile] accepts a name
    exactly when its base name is the legacy [state.json] or has the form
    [state.<x>.json] for some [x], possibly empty.  So every per-client file
    name that [paths.StateFileForClient] makes is accepted, together with the
    legacy file. *)
Theorem isStateFile_names (name : string) :
  (Watch.isStateFile name = true
   <-> (filepath_Base name = Paths.StateFile
        \/ exists x, filepath_Base name = "state." +:+ x +:+ ".json"))
  /\ (forall client, filepath_Base name = Paths.StateFileForClient client ->
                     Watch.isStateFile name = true).
Proof.
  assert (Hiff : Watch.isStateFile name = true
                 <-> (filepath_Base name = Paths.StateFile
                      \/ exists x, filepath_Base name = "state." +:+ x +:+ ".json")).
  { unfold Watch.isStateFile, Paths.StateFile, HasPrefix. cbv zeta.
    destruct (String.eqb_spec (filepath_Base name) "state.json") as [Heq|Hne].
    { split; auto. }
    rewrite andb_true_iff, prefix_append. split.
    - intros [[r Hr] Hs]. rewrite Hr in Hs. right.
      change ("state." +:+ r)
        with (String "s" (String "t" (String "a" (String "t" (String "e" (String "." r))))))
        in Hs.
      repeat (apply HasSuffix_step in Hs as [Hs|Hs]; [discriminate Hs|]).
      apply HasSuffix_step in Hs as [Hs|Hs].
      + exfalso. apply Hne. rewrite Hr.
        injection Hs as ->. reflexivity.
      + apply HasSuffix_append in Hs as [x ->]. exists x. exact Hr.
    - intros [Heq|[x Hx]]; [contradiction|]. split.
      + exists (x +:+ ".json"). exact Hx.
      + rewrite Hx. apply HasSuffix_append. exists ("state." +:+ x).
        rewrite append_assoc. reflexivity. }
  split; [exact Hiff|].
  intros client Hc. apply Hiff. right. exists client. exact Hc.
Qed.

End Names.

End WatchFacts.

(** ** The life of a connection *)

Module ConnectionFacts.
Import Discord Lifecycle ClientFacts.

Section Dialing.
Context {Conn : Type}.
Variable net_Dial : string -> result Conn.
Variable XDG_RUNTIME_DIR : string.
Variable Getuid : Z.
Variable isWSL : bool.

Lemma dial_first_spec (paths : list string) :
  match dial_first net_Dial paths with
  | Some conn =>
      exists before path after,
        paths = before ++ path :: after
        /\ net_Dial path = Ok conn
        /\ Forall (fun p => exists e, net_Dial p = Err e) before
  | None => Forall (fun p => exists e, net_Dial p = Err e) paths
  end.
Proof.
  induction paths as [|p paths IH]; cbn [dial_first]; [constructor|].
  destruct (net_Dial p) as [e|k] eqn:Hp.
  - destruct (dial_first net_Dial paths) as [conn|].
    + destruct IH as (before & path & after & -> & Hd & Hall).
      exists (p :: before), path, after. repeat split; [exact Hd|].
      constructor; [exists e; exact Hp|exact Hall].
    + constructor; [exists e; exact Hp|exact IH].
  - exists [], p, paths. repeat split; [exact Hp|constructor].
Qed.

(** X20. Finding the socket: [connectToDiscord] returns the connection of
    the first path, in the order in which it lists the candidates, that can
    be dialled, having dialled no path behind it; when none can be dialled
    the error matches [ErrIPCNotAvailable] under [errors.Is], also under WSL
    where it is wrapped with advice.  There are 90 candidates, 30 more ahead
    of them when [XDG_RUNTIME_DIR] is set, and under WSL 10 or 20 more at the
    end. *)
Theorem connectToDiscord_first_reachable :
  match connectToDiscord net_Dial XDG_RUNTIME_DIR Getuid isWSL with
  | inr conn =>
      exists before path after,
        socketPaths XDG_RUNTIME_DIR Getuid isWSL = before ++ path :: after
        /\ net_Dial path = Ok conn
        /\ Forall (fun p => exists e, net_Dial p = Err e) before
  | inl err =>
      errors_Is err ErrIPCNotAvailable = true
      /\ Forall (fun p => exists e, net_Dial p = Err e)
                (socketPaths XDG_RUNTIME_DIR Getuid isWSL)
  end
  /\ len (socketPaths XDG_RUNTIME_DIR Getuid isWSL)
     = 90 + (if String.eqb XDG_RUNTIME_DIR "" then 0 else 30)
       + (if isWSL then (if String.eqb XDG_RUNTIME_DIR "" then 10 else 20) else 0).
Proof.
  split.
  - unfold connectToDiscord.
    pose proof (dial_first_spec (socketPaths XDG_RUNTIME_DIR Getuid isWSL)) as Hspec.
    destruct (dial_first net_Dial _) as [conn|]; [exact Hspec|].
    destruct isWSL; split; auto.
  - unfold socketPaths, wslSocketPaths, len. cbv zeta.
    destruct (String.eqb XDG_RUNTIME_DIR ""), isWSL; cbn [negb];
      rewrite ?length_app; cbn [flat_map];
      rewrite ?length_app, ?length_map; reflexivity.
Qed.
End Dialing.

Section Lifecycle.
Context {Conn : Type} `{NetConn Conn} `{NetConnRead Conn}.
Context `{Json Command} `{Json Handshake} `{Json (gmap string any)}.
Variable Getpid : Z.

(** X21. Closing: [Close] on a client without a connection returns nil and
    changes nothing.  On a connected client it attempts one last command to
    clear the presence (the counter moves on by one), drops the error of that
    command and returns the error of closing the connection.  Either way the
    client is disconnected afterwards: a command then fails with
    [ErrNotConnected] and a second [Close] is a no-op. *)
Theorem Close_disconnects (c : Client Conn) (name : string) (a : Args) :
  conn (fst (Close Getpid c)) = None
  /\ appID (fst (Close Getpid c)) = appID c
  /\ (conn c = None -> Close Getpid c = (c, None))
  /\ (is_Some (conn c) ->
      nonce (fst (Close Getpid c)) = uint64 (nonce c + 1)
      /\ exists k,
           conn (fst (sendCommand c "SET_ACTIVITY" {| pid := Getpid; activity := None |}))
             = Some k
           /\ snd (Close Getpid c) = conn_Close k)
  /\ sendCommand (fst (Close Getpid c)) name a
     = (fst (Close Getpid c), Some (New ErrNotConnected))
  /\ Close Getpid (fst (Close Getpid c)) = (fst (Close Getpid c), None).
Proof.
  assert (Hnone : conn (fst (Close Getpid c)) = None
                  /\ appID (fst (Close Getpid c)) = appID c
                  /\ (is_Some (conn c) ->
                      nonce (fst (Close Getpid c)) = uint64 (nonce c + 1)
                      /\ exists k,
                           conn (fst (sendCommand c "SET_ACTIVITY"
                                        {| pid := Getpid; activity := None |})) = Some k
                           /\ snd (Close Getpid c) = conn_Close k)).
  { unfold Close. destruct (conn c) as [k|] eqn:Hc.
    - destruct (sendCommand_connected c "SET_ACTIVITY"
                  {| pid := Getpid; activity := None |} k Hc) as (Hn & [k' Hk'] & Ha).
      cbv zeta. rewrite Hk'. cbn [fst snd set_conn conn appID nonce].
      split; [reflexivity|]. split; [exact Ha|]. intros _.
      split; [exact Hn|]. exists k'. split; reflexivity.
    - cbn [fst]. split; [exact Hc|]. split; [reflexivity|].
      intros [k Hk]. discriminate. }
  destruct Hnone as (Hconn & Happ & Hsome).
  split; [exact Hconn|]. split; [exact Happ|].
  split; [intros Hc; unfold Close; rewrite Hc; reflexivity|].
  split; [exact Hsome|].
  split; [apply sendCommand_not_connected; exact Hconn|].
  unfold Close at 1. rewrite Hconn. reflexivity.
Qed.

Lemma set_conn_fields (c : Client Conn) k :
  appID (set_conn c k) = appID c /\ nonce (set_conn c k) = nonce c
  /\ conn (set_conn c k) = k.
Proof. auto. Qed.

(** [handshake] touches neither the counter nor the application id, and
    leaves the connection set. *)
Lemma handshake_keeps (c : Client Conn) :
  appID (fst (handshake c)) = appID c
  /\ nonce (fst (handshake c)) = nonce c
  /\ (is_Some (conn c) -> is_Some (conn (fst (handshake c)))).
Proof.
  unfold handshake.
  destruct (conn c) as [k|] eqn:Hc; [|cbn; rewrite Hc; repeat split; auto].
  destruct (json_Marshal _) as [e|payload]; [cbn; rewrite Hc; auto|].
  destruct (EncodeFrame OpHandshake payload) as [e|frame]; [cbn; rewrite Hc; auto|].
  destruct (conn_Write k frame) as [k1 [e|]]; [cbn; eauto|].
  destruct (DecodeFrame (conn_incoming k1)) as [[e|[opcode respData]] d]; [cbn; eauto|].
  destruct (negb (opcode =? OpFrame)); [cbn; eauto|].
  destruct (json_Unmarshal respData _) as [e|resp]; [cbn; eauto|].
  destruct (String.eqb _ "ERROR"); [|cbn; eauto].
  destruct (resp !! "data") as [[| | | | |data]|]; cbn; eauto.
Qed.

(** X22. Connecting is all or nothing: [Connect] never changes the command
    counter or the application id; when it returns an error the client is
    left without a connection, and the error of a failed dial is returned as
    it is; when it returns nil the client is connected, over the connection
    dialled, on which the handshake frame (opcode 0, the marshalled
    [{v: 1, client_id}]) was written and a frame of opcode 1 was read back.
    It panics only on a response that announces an ERROR event without a
    data object. *)
Theorem Connect_all_or_nothing (dialed : result Conn) (c : Client Conn) :
  nonce (fst (Connect dialed c)) = nonce c
  /\ appID (fst (Connect dialed c)) = appID c
  /\ (forall err, snd (Connect dialed c) = Returns (Some err) ->
                  conn (fst (Connect dialed c)) = None)
  /\ (forall err, dialed = Err err -> Connect dialed c = (set_conn c None, Returns (Some err)))
  /\ (snd (Connect dialed c) = Returns None ->
      exists k payload frame k1 respData d,
        dialed = Ok k
        /\ json_Marshal {| v := 1; client_id := appID c |} = Ok payload
        /\ EncodeFrame OpHandshake payload = Ok frame
        /\ conn_Write k frame = (k1, None)
        /\ DecodeFrame (conn_incoming k1) = (Ok (OpFrame, respData), d)
        /\ conn (fst (Connect dialed c)) = Some (conn_left k1 (rest d)))
  /\ (forall why, snd (Connect dialed c) = Panics why ->
      exists k payload frame k1 respData d resp,
        dialed = Ok k
        /\ json_Marshal {| v := 1; client_id := appID c |} = Ok payload
        /\ EncodeFrame OpHandshake payload = Ok frame
        /\ conn_Write k frame = (k1, None)
        /\ DecodeFrame (conn_incoming k1) = (Ok (OpFrame, respData), d)
        /\ json_Unmarshal respData (∅ : gmap string any) = Ok resp
        /\ resp !! "evt" = Some (AnyString "ERROR")
        /\ (forall data, resp !! "data" <> Some (AnyMap data))).
Proof.
  unfold Connect.
  destruct dialed as [err|k].
  { cbn. unfold Err. repeat split; auto; intros; congruence. }
  unfold handshake. cbn [conn set_conn appID nonce].
  destruct (json_Marshal _) as [e|payload] eqn:Hm.
  { cbn. unfold Err. repeat split; auto; intros; congruence. }
  destruct (EncodeFrame OpHandshake payload) as [e|frame] eqn:He.
  { cbn. unfold Err. repeat split; auto; intros; congruence. }
  destruct (conn_Write k frame) as [k1 [e|]] eqn:Hw.
  { cbn. unfold Err. repeat split; auto; intros; congruence. }
  destruct (DecodeFrame (conn_incoming k1)) as [[e|[opcode respData]] d] eqn:Hd.
  { cbn. unfold Err. repeat split; auto; intros; congruence. }
  destruct (Z.eqb_spec opcode OpFrame) as [->|Hop]; cbn [negb].
  2: { cbn. unfold Err. repeat split; auto; intros; congruence. }
  destruct (json_Unmarshal respData _) as [e|resp] eqn:Hu.
  { cbn. unfold Err. repeat split; auto; intros; congruence. }
  destruct (String.eqb_spec (string_of (resp !! "evt")) "ERROR") as [Hevt|Hevt].
  - assert (Hev : resp !! "evt" = Some (AnyString "ERROR")).
    { unfold string_of in Hevt.
      destruct (resp !! "evt") as [[| | |s| |]|]; try discriminate Hevt.
      rewrite Hevt. reflexivity. }
    destruct (resp !! "data") as [[| | | | |data]|] eqn:Hdata;
      cbn; unfold Err; repeat split; auto; intros; try congruence;
      exists k, payload, frame, k1, respData, d, resp;
      repeat split; auto; intros; congruence.
  - cbn. unfold Err. repeat split; auto; intros; try congruence.
    exists k, payload, frame, k1, respData, d. repeat split; auto.
Qed.

End Lifecycle.

Import Doubles Peer.

(** A client on an open pipe that has sent seven commands. *)
Definition on_pipe : Client pipe :=
  {| appID := "1234";
     conn := Some {| written := []; peer_gone := false |};
     nonce := 7 |}.

Lemma Close_disconnects_witness :
  nonce (fst (Close 4242 on_pipe)) = 8
  /\ Close 4242 (NewClient "1234" : Client pipe) = (NewClient "1234", None).
Proof.
  destruct (Close_disconnects 4242 on_pipe "SET_ACTIVITY"
              {| pid := 4242; activity := None |}) as (_ & _ & _ & Hopen & _).
  destruct (Close_disconnects 4242 (NewClient "1234" : Client pipe) "SET_ACTIVITY"
              {| pid := 4242; activity := None |}) as (_ & _ & Hnone & _).
  split.
  - apply Hopen. eexists. reflexivity.
  - apply Hnone. reflexivity.
Defined.

(** No socket to dial, and a socket on which Discord answers. *)
Lemma Connect_all_or_nothing_witness :
  conn (fst (Connect (Err (New ErrIPCNotAvailable) : result duplex) (NewClient "1234")))
  = None
  /\ is_Some (conn (fst (Connect (Ok answering) (NewClient "1234")))).
Proof.
  destruct (Connect_all_or_nothing (Err (New ErrIPCNotAvailable) : result duplex)
              (NewClient "1234")) as (_ & _ & Herr & _).
  destruct (Connect_all_or_nothing (Ok answering) (NewClient "1234"))
    as (_ & _ & _ & _ & Hok & _).
  split.
  - apply (Herr (New ErrIPCNotAvailable)). reflexivity.
  - destruct Hok as (k & payload & frame & k1 & respData & d & _ & _ & _ & _ & _ & Hconn).
    + vm_compute. reflexivity.
    + rewrite Hconn. eexists. reflexivity.
Defined.

End ConnectionFacts.

(** ** The event loop: retries, idle ticks, the PID file, privacy *)

Module LoopFacts.
Import OS Discord Lifecycle Loop ClientFacts ConnectionFacts StringFacts.

(** *** The activity sent *)

(** X23. The conversion to the wire type loses nothing: [toDiscordActivity]
    maps nil to nil and nothing else to nil, keeps the two lines and the
    buttons in their order, leaves out the timestamps exactly when the start
    is 0 and the assets exactly when all four are empty, and never maps two
    different activities to the same payload. *)
Theorem toDiscordActivity_faithful (a b : option Session.Activity) :
  (toDiscordActivity a = None <-> a = None)
  /\ (toDiscordActivity a = toDiscordActivity b -> a = b)
  /\ match a, toDiscordActivity a with
     | Some a, Some da =>
         Details da = Session.Details a
         /\ State da = Session.State_ a
         /\ List.map Label (Buttons da) = List.map Session.Label (Session.Buttons a)
         /\ List.map URL (Buttons da) = List.map Session.URL (Session.Buttons a)
         /\ (Timestamps_ da = None <-> Session.Start (Session.Timestamps_ a) = 0)
         /\ (Assets_ da = None
             <-> Session.Assets_ a
                 = {| Session.LargeImage_ := ""; Session.LargeText_ := "";
                      Session.SmallImage := ""; Session.SmallText := "" |})
     | _, _ => True
     end.
Proof.
  split; [|split].
  - destruct a; cbn; split; congruence.
  - destruct a as [[d s [t] [li lt si st] bs]|], b as [[d' s' [t'] [li' lt' si' st'] bs']|];
      cbn; try congruence.
    intros Heq. injection Heq as Hd Hs Ht Ha Hb.
    assert (t = t').
    { destruct (Z.eqb_spec t 0), (Z.eqb_spec t' 0); cbn in Ht; congruence. }
    assert (li = li' /\ lt = lt' /\ si = si' /\ st = st') as (? & ? & ? & ?).
    { destruct (String.eqb_spec li ""), (String.eqb_spec lt ""), (String.eqb_spec si ""),
        (String.eqb_spec st ""), (String.eqb_spec li' ""), (String.eqb_spec lt' ""),
        (String.eqb_spec si' ""), (String.eqb_spec st' "");
        cbn in Ha; try discriminate Ha; try (injection Ha; intros); subst; auto. }
    assert (bs = bs').
    { clear -Hb. revert bs' Hb. induction bs as [|[l u] bs IH]; intros [|[l' u'] bs'];
        cbn; try discriminate; [reflexivity|].
      intros [= -> -> Hb]. f_equal. apply IH. exact Hb. }
    subst. reflexivity.
  - destruct a as [[d s [t] [li lt si st] bs]|]; cbn; [|exact I].
    repeat split; try reflexivity.
    + rewrite List.map_map. reflexivity.
    + rewrite List.map_map. reflexivity.
    + destruct (Z.eqb_spec t 0); cbn; [auto|discriminate].
    + destruct (Z.eqb_spec t 0); cbn; [auto|congruence].
    + destruct (String.eqb_spec li ""), (String.eqb_spec lt ""), (String.eqb_spec si ""),
        (String.eqb_spec st ""); cbn; subst; congruence.
    + destruct (String.eqb_spec li ""), (String.eqb_spec lt ""), (String.eqb_spec si ""),
        (String.eqb_spec st ""); cbn; subst; congruence.
Qed.

Section Client.
Context {Conn : Type} `{NetConn Conn} `{NetConnRead Conn}.
Context `{Json Command} `{Json Handshake} `{Json (gmap string any)}.
Variable Getpid : Z.

(** *** Connect with retry *)

(** [Connect] looks at the application id of the client only. *)
Lemma Connect_ext (dialed : result Conn) (c0 c : Client Conn) :
  set_conn c0 None = set_conn c None -> Connect dialed c0 = Connect dialed c.
Proof. intros Heq. unfold Connect. cbv zeta. rewrite Heq. reflexivity. Qed.

Lemma Connect_failed (dialed : result Conn) (c : Client Conn) err :
  snd (Connect dialed c) = Returns (Some err) ->
  fst (Connect dialed c) = set_conn c None.
Proof.
  unfold Connect. cbv zeta. destruct dialed as [e|k]; [reflexivity|].
  pose proof (handshake_keeps (set_conn (set_conn c None) (Some k))) as (Ha & Hn & _).
  destruct (handshake _) as [c1 [[e|]|why]]; cbn [fst snd] in *; try discriminate.
  intros _. unfold set_conn. rewrite Ha, Hn. reflexivity.
Qed.

Lemma Connect_succeeded (dialed : result Conn) (c : Client Conn) :
  snd (Connect dialed c) = Returns None ->
  is_Some (conn (fst (Connect dialed c)))
  /\ nonce (fst (Connect dialed c)) = nonce c.
Proof.
  unfold Connect. cbv zeta. destruct dialed as [e|k]; [discriminate|].
  pose proof (handshake_keeps (set_conn (set_conn c None) (Some k))) as (_ & Hn & Hk).
  destruct (handshake _) as [c1 [[e|]|why]]; cbn [fst snd] in *; try discriminate.
  intros _. split; [apply Hk; cbn; eauto|exact Hn].
Qed.

(** The warning that a failed attempt leaves in the log. *)
Definition attempt_failed (attempt : Z) : record :=
  {| lvl := LevelWarn; msg := "Discord connect attempt failed";
     about := Sprintf_d attempt |}.

Lemma attempts_run (dialed : Z -> result Conn) (interval : Z) (c : Client Conn) :
  forall (k n : nat) (i : Z) (c0 : Client Conn) (fs : world) (slept : list Z),
    0 <= i -> (k <= n)%nat -> i + Z.of_nat n = maxAttempts ->
    set_conn c0 None = set_conn c None ->
    (forall j, (j < k)%nat ->
       exists err, snd (Connect (dialed (i + Z.of_nat j)) c) = Returns (Some err)) ->
    ((k < n)%nat -> snd (Connect (dialed (i + Z.of_nat k)) c) = Returns None) ->
    exists c' out fs' slept',
      attempts dialed interval n i c0 fs slept = (c', out, fs', slept')
      /\ out = (if (k <? n)%nat then Returns None
                else Returns (Some (errorString "failed to connect after 10 attempts")))
      /\ c' = (if (k <? n)%nat then fst (Connect (dialed (i + Z.of_nat k)) c)
               else match k with O => c0 | S _ => set_conn c None end)
      /\ files fs' = files fs /\ faulty fs' = faulty fs
      /\ logged fs' = logged fs
                      ++ List.map (fun j => attempt_failed (i + Z.of_nat j + 1)) (seq 0 k)
      /\ slept' = slept ++ repeat interval (Z.to_nat (Z.min (i + Z.of_nat k) 9 - Z.min i 9)).
Proof.
  induction k as [|k IH]; intros n i c0 fs slept Hi Hk Hn Hc0 Hfail Hok.
  - destruct n as [|n].
    + eexists _, _, _, _. split; [reflexivity|].
      replace (Z.to_nat (Z.min (i + Z.of_nat 0) 9 - Z.min i 9)) with 0%nat by lia.
      cbn. rewrite ?app_nil_r. repeat split; reflexivity.
    + specialize (Hok ltac:(lia)). rewrite Z.add_0_r in *.
      cbn [attempts]. rewrite (Connect_ext _ c0 c Hc0).
      destruct (Connect (dialed i) c) as [c1 out] eqn:Hcon. cbn [snd] in Hok. subst out.
      eexists _, _, _, _. split; [reflexivity|]. cbn.
      rewrite ?app_nil_r. replace (Z.min i 9 - Z.min i 9) with 0 by lia.
      cbn. rewrite ?app_nil_r. repeat split; reflexivity.
  - destruct n as [|n]; [lia|].
    destruct (Hfail 0%nat ltac:(lia)) as [err Herr]. rewrite Z.add_0_r in Herr.
    pose proof (Connect_failed _ _ _ Herr) as Hc1.
    cbn [attempts]. rewrite (Connect_ext _ c0 c Hc0).
    destruct (Connect (dialed i) c) as [c1 out] eqn:Hcon. cbn [fst snd] in *. subst out c1.
    destruct (IH n (i + 1) (set_conn c None)
                (slog_Warn fs "Discord connect attempt failed" (Sprintf_d (i + 1)))
                (if i <? maxAttempts - 1 then slept ++ [interval] else slept))
      as (c' & out & fs' & slept' & Hrun & Hout & Hc' & Hfiles & Hfaulty & Hlog & Hslept).
    + lia.
    + lia.
    + rewrite Nat2Z.inj_succ in Hn. lia.
    + reflexivity.
    + intros j Hj. destruct (Hfail (S j) ltac:(lia)) as [e He]. exists e.
      rewrite Nat2Z.inj_succ in He. rewrite <- He. f_equal. f_equal. f_equal. lia.
    + intros Hlt. specialize (Hok ltac:(lia)). rewrite Nat2Z.inj_succ in Hok.
      rewrite <- Hok. f_equal. f_equal. f_equal. lia.
    + exists c', out, fs', slept'. split; [exact Hrun|].
      assert (Hltb : (S k <? S n)%nat = (k <? n)%nat) by reflexivity.
      rewrite Hltb. split; [exact Hout|]. split.
      { rewrite Hc'. destruct (k <? n)%nat.
        - f_equal. f_equal. f_equal. rewrite Nat2Z.inj_succ. lia.
        - destruct k; reflexivity. }
      split; [exact Hfiles|]. split; [exact Hfaulty|]. split.
      { rewrite Hlog. cbn [logged slog_Warn slog]. rewrite <- app_assoc. f_equal.
        cbn [seq List.map app]. rewrite Z.add_0_r. f_equal.
        rewrite <- seq_shift, map_map. apply map_ext. intros j.
        unfold attempt_failed. f_equal. f_equal. rewrite Nat2Z.inj_succ. lia. }
      { rewrite Hslept. unfold maxAttempts in *.
        rewrite Nat2Z.inj_succ in Hn. rewrite Nat2Z.inj_succ.
        destruct (Z.ltb_spec i (10 - 1)) as [Hlt|Hge].
        - rewrite <- app_assoc. f_equal.
          replace (Z.to_nat (Z.min (i + Z.succ (Z.of_nat k)) 9 - Z.min i 9))
            with (S (Z.to_nat (Z.min (i + 1 + Z.of_nat k) 9 - Z.min (i + 1) 9))) by lia.
          reflexivity.
        - f_equal. f_equal. lia. }
Qed.

(** X24. Connecting with retries is bounded: [connectWithRetry] calls
    [Connect] until it succeeds, at most ten times.  When the first [k]
    attempts fail and the next one succeeds it returns nil with the client
    connected, having logged [k] warnings and slept [k] times; when all ten
    fail it returns an error with the client disconnected, having logged ten
    warnings and slept nine times, not ten.  The command counter is not
    touched. *)
Theorem connectWithRetry_bounded (dialed : Z -> result Conn) (interval : Z)
    (c : Client Conn) (fs : world) (k : nat) :
  (k <= 10)%nat ->
  (forall j, (j < k)%nat ->
     exists err, snd (Connect (dialed (Z.of_nat j)) c) = Returns (Some err)) ->
  ((k < 10)%nat -> snd (Connect (dialed (Z.of_nat k)) c) = Returns None) ->
  exists c' fs',
    connectWithRetry dialed interval c fs
    = (c',
       if (k <? 10)%nat then Returns None
       else Returns (Some (errorString "failed to connect after 10 attempts")),
       fs', repeat interval (Nat.min k 9))
    /\ Connected c' = (k <? 10)%nat
    /\ nonce c' = nonce c
    /\ files fs' = files fs
    /\ logged fs' = logged fs
                    ++ List.map (fun j => attempt_failed (Z.of_nat j + 1)) (seq 0 k).
Proof.
  intros Hk Hfail Hok.
  destruct (attempts_run dialed interval c k 10 0 c fs [])
    as (c' & out & fs' & slept' & Hrun & Hout & Hc' & Hfiles & _ & Hlog & Hslept);
    try reflexivity; try lia; try assumption.
  rewrite Z.add_0_l in Hc'.
  exists c', fs'. unfold connectWithRetry.
  change (Z.to_nat maxAttempts) with 10%nat. rewrite Hrun, Hout, Hslept.
  cbn [app]. replace (Z.to_nat (Z.min (0 + Z.of_nat k) 9 - Z.min 0 9)) with (Nat.min k 9) by lia.
  split; [reflexivity|]. split; [|split; [|split; [exact Hfiles|exact Hlog]]].
  - rewrite Hc'. unfold Connected.
    destruct (Nat.ltb_spec k 10) as [Hlt|Hge].
    + destruct (Connect_succeeded _ _ (Hok Hlt)) as [[k1 ->] _]. reflexivity.
    + destruct k; [lia|reflexivity].
  - rewrite Hc'. destruct (Nat.ltb_spec k 10) as [Hlt|Hge].
    + apply (Connect_succeeded _ _ (Hok Hlt)).
    + destruct k; reflexivity.
Qed.

(** *** Idle ticks *)

(** X25. The presence is cleared once per idle period: a non-nil activity
    passes through [handleIdleState] untouched; for a nil activity, whatever
    the first call did (returned the last activity, sent the clearing
    command, or nothing), a second call in a row returns the same and changes
    neither the client nor the loop state, so that no second command is sent.
    The one command sent moves the counter of a connected client on by one
    and clears the remembered hash. *)
Theorem handleIdleState_once (c : Client Conn) (actCfg : Session.ActivityConfig)
    (ls : loopState) (a : Session.Activity) :
  let first := handleIdleState Getpid c actCfg ls None in
  let c1 := snd (fst first) in
  let ls1 := snd first in
  handleIdleState Getpid c actCfg ls (Some a) = (Some a, c, ls)
  /\ handleIdleState Getpid c1 actCfg ls1 None = (fst (fst first), c1, ls1)
  /\ (fst (fst first) = None \/ fst (fst first) = lastActivity ls)
  /\ (idleCleared ls = false -> fst (fst first) = None ->
      idleCleared ls1 = true /\ lastHash ls1 = ""
      /\ c1 = fst (ClearActivity Getpid c)
      /\ (is_Some (conn c) -> nonce c1 = uint64 (nonce c + 1)))
  /\ (idleCleared ls = true -> c1 = c /\ ls1 = ls).
Proof.
  cbv zeta. unfold handleIdleState.
  split; [reflexivity|].
  assert (Hsent : is_Some (conn c) ->
                  nonce (fst (ClearActivity Getpid c)) = uint64 (nonce c + 1)).
  { intros [k Hk]. unfold ClearActivity. apply (sendCommand_connected c _ _ k Hk). }
  destruct (String.eqb (Session.IdleMode actCfg) "last_activity");
    destruct (lastActivity ls) as [last|] eqn:Hlast;
    destruct (idleCleared ls) eqn:Hcl;
    cbn [negb fst snd set_cleared lastActivity idleCleared];
    rewrite ?Hlast, ?Hcl; cbn [negb];
    repeat split; auto; intros; congruence.
Qed.

End Client.

(** *** The PID file *)

Lemma string_of_uint_no_colon (d : Decimal.uint) :
  PresenceFacts.mentions ":" (NilEmpty.string_of_uint d) = false.
Proof. induction d; cbn; auto. Qed.

(** A number printed with [%d] holds no colon. *)
Lemma Sprintf_d_no_colon (z : Z) : PresenceFacts.mentions ":" (Sprintf_d z) = false.
Proof.
  unfold Sprintf_d. destruct (Z.to_int z) as [d|d]; cbn; apply string_of_uint_no_colon.
Qed.

Lemma SplitN2_cut (a b : string) :
  PresenceFacts.mentions ":" a = false ->
  Strings.SplitN2 (a +:+ ":" +:+ b) ":" = [a; b].
Proof.
  induction a as [|c a IH]; intros Ha; [reflexivity|].
  cbn [PresenceFacts.mentions] in Ha. apply orb_false_iff in Ha as [Hc Ha].
  change (String c a +:+ ":" +:+ b) with (String c (a +:+ ":" +:+ b)).
  cbn [Strings.SplitN2]. rewrite Hc, (IH Ha). reflexivity.
Qed.

Section PID.
Variable filepath_Join : string -> string -> string.
Variable Getpid : Z.

(** X26. Only the owner removes the PID file: after a [writePID] that
    succeeded, the file holds the process id and the token, separated by a
    colon; [removePID] with that token removes the file, and [removePID]
    with any other token, as another instance of the daemon would call it,
    leaves the file system as it is.  (The system lets the file be read and
    removed.) *)
Theorem removePID_owner_only (calls : pidCalls) (fs fs1 : world) (root token other : string) :
  writePID filepath_Join Getpid calls fs root token = (fs1, None) ->
  faulty fs SysReadFile (PID filepath_Join root) = false ->
  faulty fs SysRemove (PID filepath_Join root) = false ->
  files fs1 !! PID filepath_Join root
    = Some (list_byte_of_string (Sprintf_d Getpid +:+ ":" +:+ token))
  /\ files (removePID filepath_Join fs1 root token) !! PID filepath_Join root = None
  /\ (other <> token -> removePID filepath_Join fs1 root other = fs1).
Proof.
  intros Hw Hread Hrm. unfold writePID in Hw.
  destruct (openErr calls); [discriminate|].
  destruct (lockErr calls); [discriminate|].
  destruct (truncateErr calls); [discriminate|].
  destruct (writeErr calls); [discriminate|].
  assert (Hfaulty : faulty fs1 = faulty fs).
  { destruct (files fs !! PID filepath_Join root); injection Hw as <-; reflexivity. }
  assert (Hfile : files fs1 !! PID filepath_Join root
                  = Some (list_byte_of_string (Sprintf_d Getpid +:+ ":" +:+ token))).
  { destruct (files fs !! PID filepath_Join root); injection Hw as <-; cbn;
      apply lookup_insert_eq. }
  assert (Hparts : forall t,
            removePID filepath_Join fs1 root t
            = if String.eqb token t then Remove fs1 (PID filepath_Join root) else fs1).
  { intros t. unfold removePID, ReadFile. rewrite Hfaulty, Hread, Hfile.
    unfold Ok. cbv beta iota. rewrite string_of_list_byte_of_string.
    rewrite SplitN2_cut by apply Sprintf_d_no_colon. reflexivity. }
  split; [exact Hfile|]. split.
  - rewrite Hparts, String.eqb_refl. unfold Remove. rewrite Hfaulty, Hrm.
    cbn. apply lookup_delete_eq.
  - intros Hne. rewrite Hparts.
    destruct (String.eqb_spec token other); [congruence|reflexivity].
Qed.
End PID.

(** *** Privacy *)

Section Privacy.
Context `{Session.Helpers}.
Variable doublestar_Match : string -> string -> result bool.

(** X27. What the privacy settings make of the project and the branch: after
    [applyPrivacyOverrides], the project that the templates are given is the
    name that [Config.ProjectName] chose, unless that name is empty, in which
    case it is the real project name, hidden or not; and the branch is what
    [FormatBranch] made of it, so that under ["hide"] it is empty and the
    details line is rendered from the template without a branch. *)
Theorem applyPrivacyOverrides_shown (actCfg : Session.ActivityConfig)
    (cfg : Config.Config) (state : Session.State) (cost : float) (totalTokens : Z)
    (model : string) (jsonl : option Session.JSONLData) :
  let actCfg' := fst (applyPrivacyOverrides doublestar_Match actCfg cfg state) in
  let state' := snd (applyPrivacyOverrides doublestar_Match actCfg cfg state) in
  let vars := Session.buildTemplateVars state' actCfg' cost totalTokens model jsonl in
  let name := Config.ProjectName doublestar_Match cfg (Session.Project state)
                (Session.CWD state) in
  Session.tvProject vars = (if String.eqb name "" then Session.Project state else name)
  /\ Session.tvBranch vars = Config.FormatBranch cfg (Session.Branch state)
  /\ (Config.FormatBranch_ cfg = "hide" -> Session.tvBranch vars = "")
  /\ (Session.tvBranch vars = "" ->
      Session.resolveDetails actCfg' vars
      = Session.applyTemplate (Session.DetailsNoBranchFormat actCfg) vars).
Proof.
  cbv zeta. unfold applyPrivacyOverrides. cbv zeta. cbn [fst snd].
  set (name := Config.ProjectName doublestar_Match cfg (Session.Project state)
                 (Session.CWD state)).
  unfold Session.buildTemplateVars.
  destruct (Session.parseGitRemote _) as [owner repo].
  destruct jsonl as [j|];
    (split; [|split; [|split]]).
  all: try reflexivity.
  all: try (cbn; intros Hhide; unfold Config.FormatBranch; rewrite Hhide; reflexivity).
  all: try (cbn [Session.tvBranch]; intros Hb; unfold Session.resolveDetails;
            cbn [Session.tvBranch]; rewrite Hb;
            destruct (String.eqb_spec name (Session.Project state)); reflexivity).
  all: cbn [Session.tvProject];
    destruct (String.eqb_spec name (Session.Project state)) as [Heq|Hne]; cbn;
    [rewrite Heq; destruct (String.eqb (Session.Project state) ""); reflexivity
    |destruct (String.eqb name ""); reflexivity].
Qed.
End Privacy.

(** *** Runs *)

Import Doubles Peer.

(** Discord comes up after two failed attempts. *)
Lemma connectWithRetry_bounded_witness :
  exists c' fs',
    connectWithRetry (Peer.starting 2) 5 (NewClient "1234") (Doubles.disk [])
    = (c', Returns None, fs', [5; 5])
    /\ Connected c' = true
    /\ nonce c' = 0
    /\ files fs' = files (Doubles.disk [])
    /\ logged fs' = [attempt_failed 1; attempt_failed 2].
Proof.
  apply (connectWithRetry_bounded (Peer.starting 2) 5 (NewClient "1234")
           (Doubles.disk []) 2).
  - lia.
  - intros [|[|j]] Hj; [eexists; reflexivity|eexists; reflexivity|lia].
  - intros _. vm_compute. reflexivity.
Defined.

(** No call of [writePID] fails. *)
Definition pid_calls_succeed : pidCalls :=
  {| openErr := None; lockErr := None; truncateErr := None; writeErr := None |}.

(** The daemon with process id 4242 on an empty data directory. *)
Lemma removePID_owner_only_witness :
  files (fst (writePID ResolverFacts.join 4242 pid_calls_succeed (Doubles.disk [])
                "/data" "0123456789abcdef"))
    !! PID ResolverFacts.join "/data"
  = Some (list_byte_of_string "4242:0123456789abcdef")
  /\ files (removePID ResolverFacts.join
              (fst (writePID ResolverFacts.join 4242 pid_calls_succeed (Doubles.disk [])
                      "/data" "0123456789abcdef"))
              "/data" "0123456789abcdef")
       !! PID ResolverFacts.join "/data" = None
  /\ removePID ResolverFacts.join
       (fst (writePID ResolverFacts.join 4242 pid_calls_succeed (Doubles.disk [])
               "/data" "0123456789abcdef"))
       "/data" "fedcba9876543210"
     = fst (writePID ResolverFacts.join 4242 pid_calls_succeed (Doubles.disk [])
              "/data" "0123456789abcdef").
Proof.
  destruct (removePID_owner_only ResolverFacts.join 4242 pid_calls_succeed
              (Doubles.disk []) _ "/data" "0123456789abcdef" "fedcba9876543210"
              eq_refl eq_refl eq_refl) as (Hfile & Hown & Hother).
  split; [exact Hfile|]. split; [exact Hown|]. apply Hother. discriminate.
Defined.

(** The loop before its first idle tick, and an activity. *)
Definition idle_loop : loopState :=
  {| daemonStart := 1707900000; lastActivityTime := None; lastActivity := None;
     lastHash := "abc"; idleCleared := false; lastCleanup := None;
     activeClient := "claude-code"; activeAppID := "1234" |}.

Definition coding : Session.Activity :=
  {| Session.Details := "Working on agentcord"; Session.State_ := "Coding";
     Session.Timestamps_ := {| Session.Start := 1707900000 |};
     Session.Assets_ := {| Session.LargeImage_ := "claude"; Session.LargeText_ := "";
                           Session.SmallImage := ""; Session.SmallText := "" |};
     Session.Buttons := [] |}.

Lemma handleIdleState_once_witness :
  idleCleared (snd (handleIdleState 4242 on_pipe (EngineFacts.presence_config 15 "")
                      idle_loop None)) = true
  /\ nonce (snd (fst (handleIdleState 4242 on_pipe (EngineFacts.presence_config 15 "")
                        idle_loop None))) = 8.
Proof.
  destruct (handleIdleState_once 4242 on_pipe (EngineFacts.presence_config 15 "")
              idle_loop coding) as (_ & _ & _ & Hclear & _).
  destruct Hclear as (Hflag & _ & _ & Hnonce); [reflexivity|reflexivity|].
  split; [exact Hflag|]. apply Hnonce. eexists. reflexivity.
Defined.

(** Every project hidden behind an empty text, every branch hidden. *)
Definition hide_all : Config.Config :=
  {| Config.DiscordAppID := "1234"; Config.FormatBranch_ := "hide";
     Config.DefaultBranches := ["main"];
     Config.Privacy := {| Config.HideProjectName := true;
                          Config.HiddenProjectText := "";
                          Config.Ignore := []; Config.Overrides := [] |};
     Config.Clients := ∅ |}.

Lemma applyPrivacyOverrides_shown_witness :
  Session.tvBranch
    (Session.buildTemplateVars
       (snd (applyPrivacyOverrides (fun _ _ => Ok false)
               (EngineFacts.presence_config 15 "") hide_all (EngineFacts.session 60)))
       (fst (applyPrivacyOverrides (fun _ _ => Ok false)
               (EngineFacts.presence_config 15 "") hide_all (EngineFacts.session 60)))
       0%float 0 "" None)
  = "".
Proof.
  apply (applyPrivacyOverrides_shown (fun _ _ => Ok false)
           (EngineFacts.presence_config 15 "") hide_all (EngineFacts.session 60)
           0%float 0 "" None).
  reflexivity.
Defined.

End LoopFacts.

(** ** The settings of a client *)

Module OverrideFacts.
Import Loop.

Section Overrides.
Context `{Session.Helpers}.

(** [override] when it is set, [current] otherwise. *)
Definition pick (override current : string) : string :=
  if String.eqb override "" then current else override.

Lemma buildTemplateVars_overrides (s : Session.State) (actCfg : Session.ActivityConfig)
    (cc : Config.ClientConfig) cost totalTokens model jsonl :
  Session.buildTemplateVars s (applyClientOverrides actCfg cc) cost totalTokens model jsonl
  = Session.buildTemplateVars s actCfg cost totalTokens model jsonl.
Proof. reflexivity. Qed.

(** X28. The settings of a client win over the general ones, where they are
    looked at.  With the overrides of [applyClientOverrides] before the
    activity is built and those of [applyClientActivityOverrides] after,
    an activity is shown exactly when it is without them, with the same start
    and buttons; each of the four images and texts is the client's when the
    client sets it, the small image also over the model icon; and the lines
    are the same unless the client sets a template.  The client's details
    template is used only for an active session with a branch to show: the
    idle text and the line without a branch stay the general ones. *)
Theorem client_overrides_win (now : Z) (s : Session.State)
    (actCfg : Session.ActivityConfig) (cc : Config.ClientConfig) (cost : float)
    (totalTokens : Z) (model : string) (jsonl : option Session.JSONLData) :
  let vars := Session.buildTemplateVars s actCfg cost totalTokens model jsonl in
  match applyClientActivityOverrides
          (Session.BuildActivityWithData now s (applyClientOverrides actCfg cc)
             cost totalTokens model jsonl) cc,
        Session.BuildActivityWithData now s actCfg cost totalTokens model jsonl with
  | None, None => True
  | Some a, Some b =>
      Session.Timestamps_ a = Session.Timestamps_ b
      /\ Session.Buttons a = Session.Buttons b
      /\ Session.LargeImage_ (Session.Assets_ a)
         = pick (Config.LargeImage cc) (Session.LargeImage_ (Session.Assets_ b))
      /\ Session.LargeText_ (Session.Assets_ a)
         = pick (Config.LargeText cc) (Session.LargeText_ (Session.Assets_ b))
      /\ Session.SmallImage (Session.Assets_ a)
         = pick (Config.SmallImage cc) (Session.SmallImage (Session.Assets_ b))
      /\ Session.SmallText (Session.Assets_ a)
         = pick (Config.SmallText cc) (Session.SmallText (Session.Assets_ b))
      /\ (Config.Details cc = "" -> Session.Details a = Session.Details b)
      /\ (Config.State cc = "" -> Session.State_ a = Session.State_ b)
      /\ (Session.isIdle now actCfg (Session.LastActivity s) = true
          \/ Session.Branch s = "" \/ Session.ShowBranch actCfg = false ->
          Session.Details a = Session.Details b)
      /\ (Session.isIdle now actCfg (Session.LastActivity s) = false ->
          Session.Branch s <> "" -> Session.ShowBranch actCfg = true ->
          Session.Details a
          = Session.applyTemplate (pick (Config.Details cc) (Session.DetailsFormat actCfg))
              vars)
  | _, _ => False
  end.
Proof.
  cbv zeta. unfold Session.BuildActivityWithData.
  change (Session.IgnoredPatterns (applyClientOverrides actCfg cc))
    with (Session.IgnoredPatterns actCfg).
  change (Session.isIdle now (applyClientOverrides actCfg cc) (Session.LastActivity s))
    with (Session.isIdle now actCfg (Session.LastActivity s)).
  destruct (Session.Stopped s); [exact I|].
  destruct (Session.matchesIgnorePattern _ _); [exact I|].
  destruct (Session.isIdle now actCfg (Session.LastActivity s)).
  - unfold Session.buildIdleActivity.
    change (Session.IdleMode (applyClientOverrides actCfg cc))
      with (Session.IdleMode actCfg).
    destruct (String.eqb (Session.IdleMode actCfg) "idle_text").
    + cbn. unfold pick.
      destruct (String.eqb (Config.LargeImage cc) ""), (String.eqb (Config.LargeText cc) ""),
        (String.eqb (Config.SmallImage cc) ""), (String.eqb (Config.SmallText cc) "");
        cbn; repeat split; auto; intros; congruence.
    + destruct (String.eqb (Session.IdleMode actCfg) "last_activity"); exact I.
  - cbv zeta. rewrite buildTemplateVars_overrides.
    set (vars := Session.buildTemplateVars s actCfg cost totalTokens model jsonl).
    assert (Hbranch : Session.tvBranch vars = Session.Branch s).
    { unfold vars, Session.buildTemplateVars.
      destruct (Session.parseGitRemote _). destruct jsonl; reflexivity. }
    unfold Session.applyModelIcon.
    change (Session.ShowModelIcon (applyClientOverrides actCfg cc))
      with (Session.ShowModelIcon actCfg).
    unfold Session.resolveDetails, Session.resolveState.
    change (Session.ShowBranch (applyClientOverrides actCfg cc))
      with (Session.ShowBranch actCfg).
    change (Session.ShowCost (applyClientOverrides actCfg cc))
      with (Session.ShowCost actCfg).
    rewrite Hbranch.
    destruct (negb (Session.ShowModelIcon actCfg) || String.eqb model "");
      cbn [applyClientActivityOverrides Session.Details Session.State_ Session.Timestamps_
           Session.Assets_ Session.Buttons Session.LargeImage_ Session.LargeText_
           Session.SmallImage Session.SmallText applyClientOverrides
           Session.DetailsFormat Session.StateFormat Session.DetailsNoBranchFormat
           Session.StateNoCostFormat Session.LargeImage Session.LargeText
           Session.ModelTiers Session.DefaultTierIcon Session.ModelFormat];
      unfold pick;
      destruct (String.eqb_spec (Session.Branch s) "");
      destruct (Session.ShowBranch actCfg);
      destruct (negb (Session.ShowCost actCfg) || PrimFloat.eqb (Session.tvCost vars) 0);
      destruct (String.eqb_spec (Config.LargeImage cc) "");
      destruct (String.eqb_spec (Config.LargeText cc) "");
      destruct (String.eqb_spec (Config.SmallImage cc) "");
      destruct (String.eqb_spec (Config.SmallText cc) "");
      destruct (String.eqb_spec (Config.Details cc) "");
      destruct (String.eqb_spec (Config.State cc) "");
      cbn [negb orb andb];
      repeat split; auto; try congruence;
      try (intros [Hf|[Hf|Hf]]; congruence);
      intros; congruence.
Qed.
End Overrides.

End OverrideFacts.

(** ** Numbers with thousands separators *)

Module FormatFacts.
Import Format.

(** The groups of digits: one to three in the first, three in each of the
    others. *)
Definition grouped (groups : list string) : Prop :=
  match groups with
  | [] => False
  | first :: others =>
      1 <= slen first <= 3 /\ Forall (fun g => slen g = 3) others
  end.

Lemma slen_String c s : slen (String c s) = slen s + 1.
Proof. unfold slen. cbn [String.length]. lia. Qed.

Lemma concat_cons (a : string) (l : list string) :
  String.concat "" (a :: l) = a +:+ String.concat "" l.
Proof.
  destruct l; cbn [String.concat]; [|reflexivity].
  symmetry. apply StoreCycleFacts.append_empty_r.
Qed.

Lemma Join_String c (first : string) (others : list string) (sep : string) :
  Strings.Join (String c first :: others) sep = String c (Strings.Join (first :: others) sep).
Proof. destruct others; reflexivity. Qed.

Lemma mod3_cases (k : Z) : k mod 3 = 0 \/ k mod 3 = 1 \/ k mod 3 = 2.
Proof. pose proof (Z.mod_pos_bound k 3 ltac:(lia)). lia. Qed.

Lemma mod3_succ (k : Z) : (k + 1) mod 3 = if k mod 3 =? 2 then 0 else k mod 3 + 1.
Proof.
  rewrite <- Zplus_mod_idemp_l.
  destruct (mod3_cases k) as [E|[E|E]]; rewrite E; reflexivity.
Qed.

(** From a position behind the first, the loop writes a comma where the
    number of characters left is a multiple of 3. *)
Lemma group_groups (total : Z) : forall (rest : string) (c : ascii) (i : Z),
  0 <= i -> total - i = slen rest + 1 ->
  exists first others,
    String c (group total (i + 1) rest) = Strings.Join (first :: others) ","
    /\ String.concat "" (first :: others) = String c rest
    /\ slen first = (slen rest) mod 3 + 1
    /\ Forall (fun g => slen g = 3) others.
Proof.
  induction rest as [|c' rest IH]; intros c i Hi0 Hi.
  - exists (String c ""), []. cbn. repeat split; auto.
  - rewrite slen_String in Hi.
    destruct (IH c' (i + 1)) as (first & others & Hjoin & Hcat & Hfirst & Hothers);
      [lia|lia|].
    cbn [group]. cbv zeta. rewrite Hjoin.
    replace (total - (i + 1)) with (slen rest + 1) by lia.
    destruct (Z.gtb_spec (i + 1) 0) as [Hpos|Hneg]; [|lia]. cbn [andb].
    rewrite slen_String, mod3_succ.
    destruct (mod3_cases (slen rest)) as [E|[E|E]]; rewrite E in *; cbn [Z.eqb Pos.eqb].
    + exists (String c first), others. split; [|split; [|split]].
      * rewrite Join_String. reflexivity.
      * rewrite concat_cons in *.
        change (String c (first +:+ String.concat "" others) = String c (String c' rest)).
        rewrite Hcat. reflexivity.
      * rewrite slen_String. lia.
      * exact Hothers.
    + exists (String c first), others. split; [|split; [|split]].
      * rewrite Join_String. reflexivity.
      * rewrite concat_cons in *.
        change (String c (first +:+ String.concat "" others) = String c (String c' rest)).
        rewrite Hcat. reflexivity.
      * rewrite slen_String. lia.
      * exact Hothers.
    + exists (String c ""), (first :: others). split; [|split; [|split]].
      * reflexivity.
      * rewrite concat_cons.
        change (String c (String.concat "" (first :: others)) = String c (String c' rest)).
        rewrite Hcat. reflexivity.
      * reflexivity.
      * constructor; [lia|exact Hothers].
Qed.

(** [%d] of a number that is not negative: digits, at least one. *)
Lemma Sprintf_d_neg (n : Z) : n < 0 -> Sprintf_d n = "-" +:+ Sprintf_d (- n).
Proof. destruct n as [|p|p]; intros Hn; try lia. reflexivity. Qed.

Lemma string_of_uint_nonempty (d : Decimal.uint) :
  d <> Decimal.Nil -> NilEmpty.string_of_uint d <> "".
Proof. destruct d; cbn; congruence. Qed.

Lemma Sprintf_d_nonempty (n : Z) : 0 <= n -> 1 <= slen (Sprintf_d n).
Proof.
  intros Hn. assert (Sprintf_d n <> "") as Hne.
  { destruct n as [|p|p]; try lia; [discriminate|].
    unfold Sprintf_d. cbn. apply string_of_uint_nonempty.
    apply DecimalPos.Unsigned.to_uint_nonnil. }
  destruct (Sprintf_d n); [congruence|]. rewrite slen_String. unfold slen. lia.
Qed.

Lemma FormatWithCommas_nonneg (fuel : nat) (n : Z) :
  0 <= n ->
  exists groups,
    FormatWithCommas (S fuel) n = Some (Strings.Join groups ",")
    /\ String.concat "" groups = Sprintf_d n
    /\ grouped groups.
Proof.
  intros Hn. cbn [FormatWithCommas]. destruct (Z.ltb_spec n 0) as [|_]; [lia|].
  cbv zeta. pose proof (Sprintf_d_nonempty n Hn) as Hlen.
  destruct (Z.leb_spec (slen (Sprintf_d n)) 3) as [Hshort|Hlong].
  - exists [Sprintf_d n]. repeat split; auto.
  - destruct (Sprintf_d n) as [|c rest] eqn:Hs; [unfold slen in Hlen; cbn in Hlen; lia|].
    rewrite slen_String in *.
    destruct (group_groups (slen rest + 1) rest c 0) as (first & others & Hj & Hc & Hf & Ho);
      [lia|lia|].
    exists (first :: others). split; [|split].
    + cbn [group]. cbv zeta. cbn [Z.gtb Z.compare andb]. rewrite <- Hj. reflexivity.
    + exact Hc.
    + split; [|exact Ho]. rewrite Hf. pose proof (Z.mod_pos_bound (slen rest) 3). lia.
Qed.

(** X29. Thousands separators: for every number but the least [int64],
    [FormatWithCommas] returns the digits of [%d] cut into groups that are
    joined by commas, a first group of one to three digits and groups of
    three after it, behind a minus sign when the number is negative.  On the
    least [int64], whose negation is itself, the recursion does not end. *)
Theorem FormatWithCommas_groups (n : Z) (fuel : nat) :
  - 2 ^ 63 <= n < 2 ^ 63 ->
  (- 2 ^ 63 < n ->
   exists groups,
     FormatWithCommas (S (S fuel)) n
     = Some ((if n <? 0 then "-" else "") +:+ Strings.Join groups ",")
     /\ String.concat "" groups = Sprintf_d (Z.abs n)
     /\ grouped groups)
  /\ (n = - 2 ^ 63 -> FormatWithCommas fuel n = None).
Proof.
  intros Hn. split.
  - intros Hmin. destruct (Z.ltb_spec n 0) as [Hneg|Hpos].
    + assert (Hwrap : int64 (- n) = - n).
      { unfold int64. rewrite Z.mod_small by lia. lia. }
      destruct (FormatWithCommas_nonneg fuel (- n)) as (groups & Hrun & Hcat & Hg); [lia|].
      exists groups. split; [|split; [|exact Hg]].
      * change (FormatWithCommas (S (S fuel)) n)
          with (if n <? 0
                then match FormatWithCommas (S fuel) (int64 (- n)) with
                     | Some s => Some ("-" +:+ s)
                     | None => None
                     end
                else let s := Sprintf_d n in
                     if slen s <=? 3 then Some s else Some (group (slen s) 0 s)).
        destruct (Z.ltb_spec n 0); [|lia]. rewrite Hwrap, Hrun. reflexivity.
      * rewrite Hcat. f_equal. lia.
    + destruct (FormatWithCommas_nonneg (S fuel) n Hpos) as (groups & Hrun & Hcat & Hg).
      exists groups. split; [|split; [|exact Hg]].
      * rewrite Hrun. reflexivity.
      * rewrite Hcat. f_equal. lia.
  - intros ->. clear Hn. induction fuel as [|fuel IH]; [reflexivity|].
    cbn [FormatWithCommas].
    assert (Hwrap : int64 (- - 2 ^ 63) = - 2 ^ 63) by reflexivity.
    destruct (Z.ltb_spec (- 2 ^ 63) 0) as [_|]; [|lia].
    rewrite Hwrap, IH. reflexivity.
Qed.

(** A million and a half, and the least [int64]. *)
Lemma FormatWithCommas_groups_witness :
  (exists groups,
     FormatWithCommas 2 1500000 = Some (Strings.Join groups ",")
     /\ String.concat "" groups = "1500000"
     /\ grouped groups)
  /\ FormatWithCommas 1000 (- 2 ^ 63) = None.
Proof.
  split.
  - apply (proj1 (FormatWithCommas_groups 1500000 0 ltac:(lia))). lia.
  - apply (proj2 (FormatWithCommas_groups (- 2 ^ 63) 1000 ltac:(lia))). reflexivity.
Defined.

(** The numbers of the repository's [TestFormatWithCommas]. *)
Example FormatWithCommas_tests :
  FormatWithCommas 2 (-1) = Some "-1"
  /\ FormatWithCommas 2 (-100) = Some "-100"
  /\ FormatWithCommas 2 (-1000) = Some "-1,000"
  /\ FormatWithCommas 2 (-1500000) = Some "-1,500,000"
  /\ FormatWithCommas 2 1500000 = Some "1,500,000"
  /\ FormatWithCommas 2 0 = Some "0".
Proof. repeat split. Qed.

End FormatFacts.
